(** * The diff-to-model converter ([utils/diff_model_converter.py])

    A shallow embedding of the converter's four components (the class
    finder, the identifier renamer, the super-call resolver and the
    orchestrating transformer with its driver [convert_file]) together with
    the properties the specification states about them and further
    properties read off the code.

    Conventions of the embedding.
    - Python text is [string]; a character is one [ascii] (the model covers
      ASCII text, which is what case mapping and whitespace are defined on
      below).
    - A raised exception is a value [Raise e] of [result]; code that raises
      is sequenced with stdpp's bind notation.
    - A Python [dict] whose iteration order is observed is an association
      list updated in place ([dict_set]); a [dict] or [set] that is only
      looked up is a [gmap] or [gset].
    - [libcst] drives visitors and transformers over a syntax tree.  The
      tree is the inductive [stmt] below; a traversal of a transformer is
      the sequence of callback invocations libcst makes on it.
    - The text libcst prints for a statement or a module is the business
      of libcst: the converter compares and stores it without looking
      into it, so the printers are collaborators of the model (the class
      [Printer]) and the properties hold whatever they print. *)

From Stdlib Require Import ZArith Lia Ascii Sorted.
From stdpp Require Import base gmap strings list fin_maps.

Local Open Scope Z_scope.
Set Warnings "-register-all,-clear-no-such-hyp".

(** ** Exceptions *)

Inductive exn : Type :=
| ValueError (msg : string)
| ImportError (msg : string)
| AttributeError (msg : string)
| KeyError (key : string)
| TypeError (msg : string)
| ExternalError (msg : string).

Inductive result (A : Type) : Type :=
| Ok (a : A)
| Raise (e : exn).

Arguments Ok {A} a.
Arguments Raise {A} e.

Global Instance result_ret : MRet result := fun A a => Ok a.

Global Instance result_bind : MBind result := fun A B k c =>
  match c with
  | Ok a => k a
  | Raise e => Raise e
  end.

Definition is_ok {A : Type} (c : result A) : bool :=
  match c with Ok _ => true | Raise _ => false end.

(** A loop or comprehension that stops at the first exception. *)
Fixpoint mapM {A B : Type} (f : A → result B) (l : list A) : result (list B) :=
  match l with
  | [] => Ok []
  | x :: r => y ← f x; ys ← mapM f r; Ok (y :: ys)
  end.

(** ** Python strings *)

Module PyStr.

Definition newline : ascii := ascii_of_nat 10.
Definition dquote : ascii := ascii_of_nat 34.

(** [str.isspace] on one ASCII character. *)
Definition is_space (c : ascii) : bool :=
  let n := nat_of_ascii c in
  ((9 <=? n)%nat && (n <=? 13)%nat) || ((28 <=? n)%nat && (n <=? 32)%nat).

Definition is_lower (c : ascii) : bool :=
  let n := nat_of_ascii c in (97 <=? n)%nat && (n <=? 122)%nat.

Definition is_upper (c : ascii) : bool :=
  let n := nat_of_ascii c in (65 <=? n)%nat && (n <=? 90)%nat.

Definition is_alpha (c : ascii) : bool := is_lower c || is_upper c.

Definition to_upper (c : ascii) : ascii :=
  if is_lower c then ascii_of_nat (nat_of_ascii c - 32) else c.

Definition to_lower (c : ascii) : ascii :=
  if is_upper c then ascii_of_nat (nat_of_ascii c + 32) else c.

Fixpoint map (f : ascii -> ascii) (s : string) : string :=
  match s with
  | EmptyString => EmptyString
  | String c r => String (f c) (map f r)
  end.

(** [s.upper()] and [s.lower()]. *)
Definition upper (s : string) : string := map to_upper s.
Definition lower (s : string) : string := map to_lower s.

(** [s.title()]: a letter that follows a letter is lowered, any other
    letter is raised. *)
Fixpoint title_from (prev_cased : bool) (s : string) : string :=
  match s with
  | EmptyString => EmptyString
  | String c r =>
      String (if prev_cased then to_lower c else to_upper c)
             (title_from (is_alpha c) r)
  end.

Definition title (s : string) : string := title_from false s.

(** [s.startswith(p)], giving the rest of [s] after [p]. *)
Fixpoint strip_prefix (p s : string) : option string :=
  match p with
  | EmptyString => Some s
  | String a p' =>
      match s with
      | EmptyString => None
      | String b s' => if Ascii.eqb a b then strip_prefix p' s' else None
      end
  end.

Definition startswith (p s : string) : bool :=
  match strip_prefix p s with Some _ => true | None => false end.

(** [p in s]. *)
Fixpoint contains (p s : string) : bool :=
  startswith p s ||
  match s with
  | EmptyString => false
  | String _ r => contains p r
  end.

(** The text after the first occurrence of [p] in [s] ([s.find]). *)
Fixpoint after_first (p s : string) : option string :=
  match strip_prefix p s with
  | Some r => Some r
  | None =>
      match s with
      | EmptyString => None
      | String _ r => after_first p r
      end
  end.

Fixpoint lstrip (s : string) : string :=
  match s with
  | EmptyString => EmptyString
  | String c r => if is_space c then lstrip r else s
  end.

Fixpoint rstrip (s : string) : string :=
  match s with
  | EmptyString => EmptyString
  | String c r =>
      match rstrip r with
      | EmptyString => if is_space c then EmptyString else String c EmptyString
      | r' => String c r'
      end
  end.

(** [s.strip()]. *)
Definition strip (s : string) : string := rstrip (lstrip s).

(** [s.split(sep)] for a one-character separator. *)
Fixpoint split (sep : ascii) (s : string) : list string :=
  match s with
  | EmptyString => [EmptyString]
  | String c r =>
      if Ascii.eqb c sep then EmptyString :: split sep r
      else match split sep r with
           | [] => [String c EmptyString]
           | w :: ws => String c w :: ws
           end
  end.

(** [sep.join(parts)]. *)
Fixpoint join (sep : string) (parts : list string) : string :=
  match parts with
  | [] => EmptyString
  | [w] => w
  | w :: ws => w +:+ sep +:+ join sep ws
  end.

(** [s.replace(old, new)] for a non-empty [old]; the scan restarts after
    each replaced occurrence.  [fuel] bounds the scan by the length. *)
Fixpoint replace_from (fuel : nat) (old new s : string) : string :=
  match fuel with
  | O => s
  | S fuel' =>
      match strip_prefix old s with
      | Some r => new +:+ replace_from fuel' old new r
      | None =>
          match s with
          | EmptyString => EmptyString
          | String c r => String c (replace_from fuel' old new r)
          end
      end
  end.

Definition replace (old new s : string) : string :=
  match old with
  | EmptyString => s
  | _ => replace_from (S (String.length s)) old new s
  end.

(** Whether the character [c] occurs in [s]. *)
Fixpoint mem (c : ascii) (s : string) : bool :=
  match s with
  | EmptyString => false
  | String d r => Ascii.eqb d c || mem c r
  end.

(** The longest prefix of non-space characters. *)
Fixpoint take_nonspace (s : string) : string :=
  match s with
  | EmptyString => EmptyString
  | String c r => if is_space c then EmptyString else String c (take_nonspace r)
  end.

(** The first line of [s], without its newline. *)
Fixpoint first_line (s : string) : string :=
  match s with
  | EmptyString => EmptyString
  | String c r => if Ascii.eqb c newline then EmptyString else String c (first_line r)
  end.

End PyStr.

(** ** Ordered dictionaries

    Python dictionaries keep their keys in insertion order, and assigning
    to an existing key keeps the key where it is. *)

Section Dict.
Context {K V : Type} `{EqDecision K}.

Fixpoint dict_get (k : K) (d : list (K * V)) : option V :=
  match d with
  | [] => None
  | (k', v) :: d' => if decide (k = k') then Some v else dict_get k d'
  end.

Fixpoint dict_set (k : K) (v : V) (d : list (K * V)) : list (K * V) :=
  match d with
  | [] => [(k, v)]
  | (k', v') :: d' =>
      if decide (k = k') then (k, v) :: d' else (k', v') :: dict_set k v d'
  end.

Definition dict_mem (k : K) (d : list (K * V)) : bool :=
  match dict_get k d with Some _ => true | None => false end.

Definition dict_values (d : list (K * V)) : list V := d.*2.

(** [d.update(e)]. *)
Definition dict_update (d e : list (K * V)) : list (K * V) :=
  foldl (fun acc kv => dict_set kv.1 kv.2 acc) d e.

(** [{k: v for ...}] built from a list of pairs. *)
Definition dict_of_list (e : list (K * V)) : list (K * V) := dict_update [] e.

End Dict.

(** ** Syntax trees

    The part of libcst's concrete syntax tree the converter inspects.
    Expressions and statements of other kinds are kept as their source
    text ([OtherExpr], [OtherSmall], [CompoundOther]); an expression of
    another kind also keeps what its attribute [.value] holds when its
    class has one (the digits of a number, the subscripted expression of
    a [Subscript]).

    Every statement carries its [whitespace]: what libcst keeps on the
    node besides its parts, that is the blank and comment lines in front
    of it, the spaces inside it and the comment and newline that end its
    line, held as one text.  The converter never reads it; it is part of
    what is printed, so two statements that differ in a comment or in a
    space are different terms.

    What the Python attribute [.value] of an expression node holds is a
    [pyval]: text for a [Name], a string literal or a number, a node for
    an [Attribute] or a [Subscript]. *)

Inductive expr : Type :=
| Name (value : string)
| Attribute (value : expr) (attr : string)
| Call (func : expr) (args : list expr)
| SimpleString (value : string)
| OtherExpr (code : string) (value : option pyval)
with pyval : Type :=
| PStr (s : string)
| PNode (e : expr).

(** An [ImportAlias]: the imported name, its [as] name and the text of the
    comma that follows it, which libcst stores on the alias. *)
Record import_alias : Type := ImportAlias {
  alias_name : string;
  alias_asname : option string;
  alias_comma : string
}.

Inductive small_stmt : Type :=
| Return (value : option expr)
| Expr (value : expr)
| Assign (targets : list expr) (value : expr)
| Import (names : list import_alias)
| ImportFrom (module : option expr) (names : option (list import_alias))
| OtherSmall (code : string).

Record param : Type := Param {
  param_name : string;
  param_rest : string
}.

Record parameters : Type := Parameters {
  params : list param;
  star_arg : option param;
  kwonly_params : list param;
  star_kwarg : option param;
  posonly_params : list param
}.

Inductive stmt : Type :=
| SimpleStatementLine (whitespace : string) (body : list small_stmt)
| FunctionDef (whitespace : string) (decorators : list expr)
    (name : string) (fparams : parameters) (body : list stmt)
| ClassDef (whitespace : string) (name : string)
    (bases : list (expr * string)) (body : list stmt)
| If (whitespace : string) (test : expr) (body orelse : list stmt)
| CompoundOther (whitespace : string) (header : string) (body : list stmt).

(** [node.value]; a node without the attribute raises. *)
Definition expr_value (e : expr) : result pyval :=
  match e with
  | Name v => Ok (PStr v)
  | SimpleString v => Ok (PStr v)
  | Attribute v _ => Ok (PNode v)
  | Call _ _ => Raise (AttributeError "'Call' object has no attribute 'value'")
  | OtherExpr _ (Some v) => Ok v
  | OtherExpr _ None => Raise (AttributeError "object has no attribute 'value'")
  end.

(** A [cst.Module]: the lines in front of its first statement, its
    statements, the lines after the last one, and what its printing
    depends on besides. *)
Record py_module : Type := PyModule {
  header : string;
  module_body : list stmt;
  footer : string;
  has_trailing_newline : bool;
  default_indent : string;
  default_newline : string
}.

(** [cst.Module(body=..., header=...)]: the other fields take libcst's
    defaults. *)
Definition make_module (header : string) (body : list stmt) : py_module :=
  PyModule header body "" true "    " (String PyStr.newline "").

(** [module.with_changes(body=...)]. *)
Definition with_body (body : list stmt) (m : py_module) : py_module :=
  PyModule (header m) body (footer m) (has_trailing_newline m)
    (default_indent m) (default_newline m).

(** ** Printing ([Module.code_for_node], [Module.code])

    libcst prints a node from its parts and its whitespace, with the
    default indentation and newline of the module that prints.  Two
    modules print statements in this file: the diff module, which is the
    [python_module] of the orchestrator, and the module
    [replace_call_to_super] builds around a merged class, which is the
    [python_module] of the super-call resolver and has libcst's
    defaults. *)
Class Printer : Type := {
  (** [python_module.code_for_node(node)], [python_module] the diff module. *)
  code_for_node : stmt → string;
  (** [python_module.code_for_node(node)], [python_module] a module with
      libcst's defaults. *)
  default_code_for_node : stmt → string;
  (** [module.code]. *)
  module_code : py_module → string
}.

(** ** Printing in canonical form

    The text of a node with the whitespace libcst gives a node built
    without any: one space around [=], after a comma and after a
    semicolon, four spaces of indentation, a line feed.  Expressions,
    import aliases and small statements carry no whitespace in the model;
    those the converter prints on their own (a dotted module path, an
    imported name, a base class with its comma, the test of an [if], the
    first statement of a line) are taken in this form.  For a statement
    this is the printer of the examples, which takes the whitespace of
    the statement for the lines in front of it. *)

Module Codegen.

Fixpoint code_expr (e : expr) : string :=
  match e with
  | Name v => v
  | Attribute v a => code_expr v +:+ "." +:+ a
  | Call f args => code_expr f +:+ "(" +:+ PyStr.join ", " (List.map code_expr args) +:+ ")"
  | SimpleString v => v
  | OtherExpr c _ => c
  end.

Definition code_alias (a : import_alias) : string :=
  alias_name a +:+
  match alias_asname a with Some n => " as " +:+ n | None => "" end +:+
  alias_comma a.

Definition code_names (names : option (list import_alias)) : string :=
  match names with
  | None => "*"
  | Some l => String.concat "" (List.map code_alias l)
  end.

Definition code_small (s : small_stmt) : string :=
  match s with
  | Return None => "return"
  | Return (Some e) => "return " +:+ code_expr e
  | Expr e => code_expr e
  | Assign targets v =>
      String.concat "" (List.map (fun t => code_expr t +:+ " = ") targets) +:+ code_expr v
  | Import names => "import " +:+ code_names (Some names)
  | ImportFrom m names =>
      "from " +:+ match m with Some e => code_expr e | None => "." end +:+
      " import " +:+ code_names names
  | OtherSmall c => c
  end.

Definition code_param (p : param) : string := param_name p +:+ param_rest p.

Definition code_parameters (ps : parameters) : string :=
  PyStr.join ", "
    (List.map code_param (posonly_params ps) ++
     match posonly_params ps with [] => [] | _ => ["/"] end ++
     List.map code_param (params ps) ++
     match star_arg ps with
     | Some p => ["*" +:+ code_param p]
     | None => match kwonly_params ps with [] => [] | _ => ["*"] end
     end ++
     List.map code_param (kwonly_params ps) ++
     match star_kwarg ps with Some p => ["**" +:+ code_param p] | None => [] end).

Definition nl : string := String PyStr.newline "".

Fixpoint code_stmt (indent : string) (s : stmt) {struct s} : string :=
  let block :=
    fix block (l : list stmt) : string :=
      match l with
      | [] => ""
      | x :: r => code_stmt (indent +:+ "    ") x +:+ block r
      end in
  match s with
  | SimpleStatementLine ll body =>
      ll +:+ indent +:+ PyStr.join "; " (List.map code_small body) +:+ nl
  | FunctionDef ll decorators name ps body =>
      ll +:+
      String.concat "" (List.map (fun d => indent +:+ "@" +:+ code_expr d +:+ nl) decorators) +:+
      indent +:+ "def " +:+ name +:+ "(" +:+ code_parameters ps +:+ "):" +:+ nl +:+
      block body
  | ClassDef ll name bases body =>
      ll +:+ indent +:+ "class " +:+ name +:+
      match bases with
      | [] => ""
      | _ => "(" +:+ String.concat "" (List.map (fun b => code_expr b.1 +:+ b.2) bases) +:+ ")"
      end +:+ ":" +:+ nl +:+ block body
  | If ll test body orelse =>
      ll +:+ indent +:+ "if " +:+ code_expr test +:+ ":" +:+ nl +:+ block body +:+
      match orelse with
      | [] => ""
      | _ => indent +:+ "else:" +:+ nl +:+ block orelse
      end
  | CompoundOther ll header body =>
      ll +:+ indent +:+ header +:+ nl +:+ block body
  end.

(** A statement printed on its own. *)
Definition code_for_node (s : stmt) : string := code_stmt "" s.

(** [code_for_node] of a base-class [Arg]: its value and its comma. *)
Definition code_for_arg (b : expr * string) : string := code_expr b.1 +:+ b.2.

(** The text without the newline it ends with. *)
Definition pop_trailing_newline (newline text : string) : string :=
  let n := (String.length text - String.length newline)%nat in
  if (String.length newline <=? String.length text)%nat
     && String.eqb (String.substring n (String.length newline) text) newline
  then String.substring 0 n text
  else text.

(** [Module.code]: the header, the statements and the footer; an empty
    text becomes a newline when the module ends with one, and the last
    newline is taken off when it does not. *)
Definition code (m : py_module) : string :=
  let text :=
    header m +:+ String.concat "" (List.map code_for_node (module_body m)) +:+ footer m in
  if has_trailing_newline m then
    if String.eqb text EmptyString then default_newline m else text
  else pop_trailing_newline (default_newline m) text.

End Codegen.

(** The printer of the examples. *)
Definition canonical_printer : Printer :=
  {| code_for_node := Codegen.code_for_node;
     default_code_for_node := Codegen.code_for_node;
     module_code := Codegen.code |}.

(** ** The class finder ([ClassFinder])

    The visitor's tables.  The four name-indexed tables are only looked up
    by name, so an entry stored under a key that is a node rather than text
    (an assignment to [a.b]) can never be found again and is not kept.
    [imports] is keyed by the identity of the statement's [names] tuple,
    which the traversal supplies as a serial number. *)

Inductive scope : Type :=
| GlobalScope
| LocalScope (name_prefix : string)
| NoScope.

Record class_finder : Type := ClassFinder {
  classes : gmap string stmt;
  imports : list (nat * stmt);
  function_def : gmap string stmt;
  assignments : gmap string stmt;
  class_dependency_mapping : gmap string (gset string);
  global_nodes : gmap string stmt;
  class_start_line : gmap string Z
}.

Module Finder.

Definition init : class_finder :=
  ClassFinder ∅ [] ∅ ∅ ∅ ∅ ∅.

(** [self.class_dependency_mapping.get(k, set())]. *)
Definition recorded (m : gmap string (gset string)) (k : string) : gset string :=
  default ∅ (m !! k).

(** [_update_class_dependency] on the mapping itself. *)
Definition update_mapping (name value : string) (m : gmap string (gset string))
  : gmap string (gset string) :=
  let dep := recorded m value in
  let dep := dep ∪ (recorded m name ∪ {[ value ]}) in
  <[ name := dep ]> m.

Definition _update_class_dependency (name value : string) (cf : class_finder) : class_finder :=
  ClassFinder (classes cf) (imports cf) (function_def cf) (assignments cf)
    (update_mapping name value (class_dependency_mapping cf))
    (global_nodes cf) (class_start_line cf).

Definition set_classes (k : string) (n : stmt) (cf : class_finder) : class_finder :=
  ClassFinder (<[ k := n ]> (classes cf)) (imports cf) (function_def cf) (assignments cf)
    (class_dependency_mapping cf) (global_nodes cf) (class_start_line cf).

Definition set_function_def (k : string) (n : stmt) (cf : class_finder) : class_finder :=
  ClassFinder (classes cf) (imports cf) (<[ k := n ]> (function_def cf)) (assignments cf)
    (class_dependency_mapping cf) (global_nodes cf) (class_start_line cf).

Definition set_assignments (k : string) (n : stmt) (cf : class_finder) : class_finder :=
  ClassFinder (classes cf) (imports cf) (function_def cf) (<[ k := n ]> (assignments cf))
    (class_dependency_mapping cf) (global_nodes cf) (class_start_line cf).

Definition set_imports (k : nat) (n : stmt) (cf : class_finder) : class_finder :=
  ClassFinder (classes cf) (dict_set k n (imports cf)) (function_def cf) (assignments cf)
    (class_dependency_mapping cf) (global_nodes cf) (class_start_line cf).

(** [scope._name_prefix]. *)
Definition name_prefix_of (s : scope) : result string :=
  match s with
  | GlobalScope => Ok ""
  | LocalScope p => Ok p
  | NoScope => Raise (KeyError "ScopeProvider")
  end.

(** [prefix.split(".")[0]]. *)
Definition first_component (prefix : string) : string :=
  match PyStr.split "." prefix with
  | w :: _ => w
  | [] => ""
  end.

Definition is_import_line (s : stmt) : bool :=
  match s with
  | SimpleStatementLine _ [Import _] => true
  | SimpleStatementLine _ [ImportFrom _ _] => true
  | _ => false
  end.

Definition visit_ClassDef (node : stmt) (cf : class_finder) : class_finder :=
  match node with
  | ClassDef _ name bases _ =>
      foldl (fun cf k => _update_class_dependency name (Codegen.code_for_arg k) cf)
            (set_classes name node cf) bases
  | _ => cf
  end.

Definition visit_SimpleStatementLine (node : stmt) (parent_is_module : bool)
    (names_id : nat) (cf : class_finder) : result class_finder :=
  cf ← match node with
        | SimpleStatementLine _ [Assign (t :: _) _] =>
            if parent_is_module then
              key ← expr_value t;
              Ok (match key with
                  | PStr k => set_assignments k node cf
                  | PNode _ => cf
                  end)
            else Ok cf
        | _ => Ok cf
        end;
  Ok (if is_import_line node then set_imports names_id node cf else cf).

Definition visit_FunctionDef (node : stmt) (parent_is_module : bool)
    (cf : class_finder) : class_finder :=
  match node with
  | FunctionDef _ _ name _ _ => if parent_is_module then set_function_def name node cf else cf
  | _ => cf
  end.

(** [body_ids] gives, for each statement of the block, the identity of
    its [names] tuple. *)
Definition leave_If (node : stmt) (body_ids : list nat) (cf : class_finder) : class_finder :=
  match node with
  | If _ _ body _ =>
      foldl (fun cf si => if is_import_line si.1 then set_imports si.2 node cf else cf)
            cf (zip body body_ids)
  | _ => cf
  end.

Definition is_known (v : string) (cf : class_finder) : bool :=
  bool_decide (is_Some (classes cf !! v)) ||
  bool_decide (is_Some (assignments cf !! v)) ||
  bool_decide (is_Some (function_def cf !! v)).

Definition leave_Name (value : string) (sc : scope) (cf : class_finder) : result class_finder :=
  if is_known value cf then
    match sc with
    | GlobalScope => Ok cf
    | _ =>
        prefix ← name_prefix_of sc;
        Ok (_update_class_dependency (first_component prefix) value cf)
    end
  else Ok cf.

Definition leave_Arg (value : expr) (parent : option stmt) (cf : class_finder) : class_finder :=
  match value, parent with
  | Name v, Some (ClassDef _ pname (_ :: _) _) => _update_class_dependency pname v cf
  | _, _ => cf
  end.

(** [parent_targets] is [Some targets] when the parent of the dictionary
    is an [Assign]; [elements] are the values of its entries. *)
Definition leave_Dict (elements : list expr) (parent_targets : option (list expr))
    (cf : class_finder) : result class_finder :=
  match parent_targets with
  | Some [t] =>
      name ← expr_value t;
      match name with
      | PStr name =>
          if bool_decide (is_Some (assignments cf !! name)) then
            foldl (fun acc k =>
                     cf ← acc;
                     dep ← expr_value k;
                     Ok (match dep with
                         | PStr dep_name =>
                             if bool_decide (is_Some (classes cf !! dep_name))
                             then _update_class_dependency name dep_name cf
                             else cf
                         | PNode _ => cf
                         end))
                  (Ok cf) elements
          else Ok cf
      | PNode _ => Ok cf
      end
  | _ => Ok cf
  end.

Definition leave_Decorator (decorator : expr) (parent_name : string) (sc : scope)
    (cf : class_finder) : result class_finder :=
  match decorator with
  | Call _ args =>
      foldl (fun acc k =>
               cf ← acc;
               v ← expr_value k;
               match v with
               | PStr v =>
                   if bool_decide (is_Some (assignments cf !! v)) then
                     prefix ← name_prefix_of sc;
                     let name := if bool_decide (prefix = "") then parent_name
                                 else first_component prefix in
                     Ok (_update_class_dependency name v cf)
                   else Ok cf
               | PNode _ => Ok cf
               end)
            (Ok cf) args
  | _ => Ok cf
  end.

(** [start_line] is the [PositionProvider] metadata of the node stored
    under a name. *)
Definition leave_Module (start_line : string -> Z) (cf : class_finder) : class_finder :=
  let g := function_def cf ∪ classes cf ∪ assignments cf in
  ClassFinder (classes cf) (imports cf) (function_def cf) (assignments cf)
    (class_dependency_mapping cf) g (map_imap (fun k _ => Some (start_line k)) g).

(** One callback invocation of a traversal. *)
Inductive event : Type :=
| VisitClassDef (node : stmt)
| VisitSimpleStatementLine (node : stmt) (parent_is_module : bool) (names_id : nat)
| VisitFunctionDef (node : stmt) (parent_is_module : bool)
| LeaveIf (node : stmt) (body_ids : list nat)
| LeaveName (value : string) (sc : scope)
| LeaveArg (value : expr) (parent : option stmt)
| LeaveDict (elements : list expr) (parent_targets : option (list expr))
| LeaveDecorator (decorator : expr) (parent_name : string) (sc : scope)
| LeaveModule (start_line : string -> Z).

Definition step (ev : event) (cf : class_finder) : result class_finder :=
  match ev with
  | VisitClassDef node => Ok (visit_ClassDef node cf)
  | VisitSimpleStatementLine node pm id => visit_SimpleStatementLine node pm id cf
  | VisitFunctionDef node pm => Ok (visit_FunctionDef node pm cf)
  | LeaveIf node ids => Ok (leave_If node ids cf)
  | LeaveName v sc => leave_Name v sc cf
  | LeaveArg v p => Ok (leave_Arg v p cf)
  | LeaveDict els pt => leave_Dict els pt cf
  | LeaveDecorator d pn sc => leave_Decorator d pn sc cf
  | LeaveModule sl => Ok (leave_Module sl cf)
  end.

Fixpoint run (evs : list event) (cf : class_finder) : result class_finder :=
  match evs with
  | [] => Ok cf
  | ev :: rest => cf' ← step ev cf; run rest cf'
  end.

(** The dependency set recorded for [k] in a finder. *)
Definition deps (cf : class_finder) (k : string) : gset string :=
  recorded (class_dependency_mapping cf) k.

End Finder.

(** ** The identifier renamer ([ReplaceNameTransformer]) *)

Module Renamer.

(** ["".join(x.title() for x in name.split("_"))]. *)
Definition pascal (name : string) : string :=
  String.concat "" (List.map PyStr.title (PyStr.split "_" name)).

Record t : Type := Make {
  old_name : string;
  new_name : string;
  default_name : string;
  patterns : list (string * string)
}.

(** [ReplaceNameTransformer.__init__]: a dictionary display evaluates its
    entries from left to right, a repeated key keeping its first place
    and its last value. *)
Definition init (old new : string) : t :=
  let default := pascal new in
  Make old new default
    (dict_of_list [ (old, new);
                    (PyStr.upper old, PyStr.upper new);
                    (pascal old, default) ]).

(** A literal pattern matched at the start of [text] without regard to
    case: the matched text and what follows it. *)
Fixpoint match_ci (key text : string) : option (string * string) :=
  match key with
  | EmptyString => Some (EmptyString, text)
  | String k key' =>
      match text with
      | EmptyString => None
      | String c text' =>
          if Ascii.eqb (PyStr.to_lower k) (PyStr.to_lower c) then
            match match_ci key' text' with
            | Some (w, r) => Some (String c w, r)
            | None => None
            end
          else None
      end
  end.

(** The alternation [k1|k2|...] at the start of [text]: the first
    alternative that matches wins.  After an empty match the engine
    looks for a non-empty one at the same place ([allow_empty = false]). *)
Fixpoint match_at (allow_empty : bool) (keys : list string) (text : string)
  : option (string * string) :=
  match keys with
  | [] => None
  | k :: keys' =>
      match match_ci k text with
      | Some (EmptyString, r) =>
          if allow_empty then Some (EmptyString, r) else match_at allow_empty keys' text
      | Some (w, r) => Some (w, r)
      | None => match_at allow_empty keys' text
      end
  end.

(** The inner function [replace(match)]. *)
Definition replace (r : t) (word : string) : string :=
  default (default_name r) (dict_get word (patterns r)).

(** [compiled_regex.sub(replace, text)]: leftmost matches, from left to
    right, without overlap.  [fuel] exceeds the length of [text]. *)
Fixpoint sub (fuel : nat) (r : t) (text : string) : string :=
  match fuel with
  | O => text
  | S fuel' =>
      let keys := (patterns r).*1 in
      let copy :=
        match text with
        | EmptyString => EmptyString
        | String c rest => String c (sub fuel' r rest)
        end in
      match match_at true keys text with
      | Some (EmptyString, _) =>
          replace r EmptyString +:+
          match match_at false keys text with
          | Some (w, rest) => replace r w +:+ sub fuel' r rest
          | None => copy
          end
      | Some (w, rest) => replace r w +:+ sub fuel' r rest
      | None => copy
      end
  end.

Definition preserve_case_replace (r : t) (text : string) : string :=
  sub (S (String.length text)) r text.

End Renamer.

(** ** The super-call resolver ([SuperTransformer], [replace_call_to_super]) *)

(** The key of a class-body statement in [original_methods] and
    [updated_methods]: the name of a function or class definition, and
    the statement itself (its position stands for its identity) for any
    other statement. *)
Inductive method_key : Type :=
| MName (name : string)
| MNode (position : nat).

Global Instance method_key_eq_dec : EqDecision method_key.
Proof. solve_decision. Defined.

Module SuperCall.

Definition triple_quote : string :=
  String PyStr.dquote (String PyStr.dquote (String PyStr.dquote EmptyString)).

(** The regular expression of [DOCSTRING_NODE] searched in [value]: a
    triple quote, anything, a triple quote. *)
Definition docstring_regex (value : string) : bool :=
  match PyStr.after_first triple_quote value with
  | Some rest => PyStr.contains triple_quote rest
  | None => false
  end.

(** [m.matches(stmt, DOCSTRING_NODE)]. *)
Definition is_docstring (s : stmt) : bool :=
  match s with
  | SimpleStatementLine _ [Expr (SimpleString v)] => docstring_regex v
  | _ => false
  end.

(** [m.Call(func=m.Attribute(value=m.Call(func=m.Name("super")),
    attr=m.Name(func_name)))]. *)
Definition is_super_call_expr (func_name : string) (e : expr) : bool :=
  match e with
  | Call (Attribute (Call (Name f) _) attr) _ =>
      bool_decide (f = "super") && bool_decide (attr = func_name)
  | _ => false
  end.

(** The statement matcher of [replace_super_calls]. *)
Definition is_super_call (func_name : string) (s : stmt) : bool :=
  match s with
  | SimpleStatementLine _ [Return (Some e)] => is_super_call_expr func_name e
  | SimpleStatementLine _ [Expr e] => is_super_call_expr func_name e
  | _ => false
  end.

Definition key_of (position : nat) (s : stmt) : method_key :=
  match s with
  | FunctionDef _ _ name _ _ => MName name
  | ClassDef _ name _ _ => MName name
  | _ => MNode position
  end.

(** [{f.name.value if hasattr(f, "name") else f: f for f in body}]. *)
Definition methods_of (body : list stmt) : list (method_key * stmt) :=
  dict_of_list (imap (fun i s => (key_of i s, s)) body).

(** [node.body.body] of a definition. *)
Definition body_of (s : stmt) : list stmt :=
  match s with
  | SimpleStatementLine _ _ => []
  | FunctionDef _ _ _ _ b => b
  | ClassDef _ _ _ b => b
  | If _ _ b _ => b
  | CompoundOther _ _ b => b
  end.

Section Transformer.
(** The fields of one [SuperTransformer]; its [python_module] is the one
    [replace_call_to_super] builds. *)
Context {printer : Printer}.
Variable original_methods : list (method_key * stmt).
Variable updated_methods : list (method_key * stmt).

(** [self.python_module.code_for_node(node).strip()]. *)
Definition stripped_code (s : stmt) : string :=
  PyStr.strip (default_code_for_node s).

(** [update_body].  The set [existing_nodes] holds the stripped text
    of the statements of the override; the nodes the loop adds to it
    are not text and never equal one. *)
Definition update_body (has_docstring : bool) (existing_body new_statements : list stmt)
  : list stmt :=
  let existing_nodes : gset string := list_to_set (List.map stripped_code new_statements) in
  List.filter
    (fun stmt =>
       if bool_decide (stripped_code stmt ∈ existing_nodes) then false
       else negb (is_docstring stmt && has_docstring))
    existing_body.

(** [replace_super_calls] on the statements of a method body. *)
Definition replace_super_calls (node_body : list stmt) (func_name : string)
  : result (list stmt) :=
  let has_docstring :=
    match node_body with
    | first :: _ => is_docstring first
    | [] => false
    end in
  foldl (fun acc expr =>
           new_body ← acc;
           if is_super_call func_name expr then
             match dict_get (MName func_name) original_methods with
             | Some original =>
                 Ok (new_body ++ update_body has_docstring (body_of original) node_body)
             | None => Raise (KeyError func_name)
             end
           else Ok (new_body ++ [expr]))
        (Ok []) node_body.

(** [leave_FunctionDef]. *)
Definition leave_FunctionDef (updated_node : stmt) : result stmt :=
  match updated_node with
  | FunctionDef ll decorators name ps body =>
      if dict_mem (MName name) updated_methods then
        new_body ← replace_super_calls body name;
        Ok (FunctionDef ll decorators name ps new_body)
      else Ok updated_node
  | _ => Ok updated_node
  end.

(** [leave_Return].  When the returned value is a call of an attribute
    named [super] the method goes on to [m.matched], which
    [libcst.matchers] does not define. *)
Definition leave_Return (updated_node : small_stmt) : result small_stmt :=
  match updated_node with
  | Return (Some (Call (Attribute _ attr) _)) =>
      if bool_decide (attr = "super")
      then Raise (AttributeError "module 'libcst.matchers' has no attribute 'matched'")
      else Ok updated_node
  | _ => Ok updated_node
  end.

Definition visit_small (s : small_stmt) : result small_stmt :=
  match s with
  | Return _ => leave_Return s
  | _ => Ok s
  end.

(** The traversal libcst makes of a statement: children first, then
    the [leave_] callback of the node. *)
Fixpoint visit (s : stmt) {struct s} : result stmt :=
  let visit_block :=
    fix visit_block (l : list stmt) : result (list stmt) :=
      match l with
      | [] => Ok []
      | x :: r => y ← visit x; ys ← visit_block r; Ok (y :: ys)
      end in
  match s with
  | SimpleStatementLine ll body =>
      body' ← mapM visit_small body; Ok (SimpleStatementLine ll body')
  | FunctionDef ll decorators name ps body =>
      body' ← visit_block body;
      leave_FunctionDef (FunctionDef ll decorators name ps body')
  | ClassDef ll name bases body =>
      body' ← visit_block body; Ok (ClassDef ll name bases body')
  | If ll test body orelse =>
      body' ← visit_block body;
      orelse' ← visit_block orelse;
      Ok (If ll test body' orelse')
  | CompoundOther ll header body =>
      body' ← visit_block body; Ok (CompoundOther ll header body')
  end.

End Transformer.

(** [k.name.value: k for k in ...]. *)
Definition by_name (ps : list param) : list (string * param) :=
  dict_of_list (List.map (fun k => (param_name k, k)) ps).

(** The parameters of a merged method: lines 331 to 339. *)
Definition merge_params (func_params updated_params : parameters) : parameters :=
  let new_params := updated_params in
  match star_kwarg updated_params with
  | Some kwarg_name =>
      if bool_decide (param_name kwarg_name = "super_kwargs") then
        let parent_params := by_name (params func_params) in
        let parent_params := dict_update parent_params (by_name (tail (params new_params))) in
        Parameters (dict_values parent_params) (star_arg new_params)
          (kwonly_params new_params) (star_kwarg func_params) (posonly_params new_params)
      else new_params
  | None => new_params
  end.

(** One turn of the loop over [original_methods.items()].  A key that is
    a statement of the original class is a different object from every
    key of [updated_methods], so only names are ever found there. *)
Definition merge_method (updated_methods : list (method_key * stmt))
    (name : method_key) (func : stmt) : result stmt :=
  match name with
  | MNode _ => Ok func
  | MName _ =>
      match dict_get name updated_methods with
      | Some updated =>
          match updated, func with
          | FunctionDef _ _ _ ups ubody, FunctionDef ll decorators fname fps _ =>
              Ok (FunctionDef ll decorators fname (merge_params fps ups) ubody)
          | FunctionDef _ _ _ ups _, _ =>
              match star_kwarg ups with
              | Some k =>
                  if bool_decide (param_name k = "super_kwargs")
                  then Raise (AttributeError "'ClassDef' object has no attribute 'params'")
                  else Raise (TypeError "unexpected keyword argument 'params'")
              | None => Raise (TypeError "unexpected keyword argument 'params'")
              end
          | _, _ => Raise (AttributeError "'ClassDef' object has no attribute 'params'")
          end
      | None => Ok func
      end
  end.

(** [replace_call_to_super]; [class_finder.classes[class_name]] raises
    when the class is absent. *)
Definition replace_call_to_super {printer : Printer} (cf : class_finder) (updated_node : stmt)
    (class_name : string) : result stmt :=
  match classes cf !! class_name with
  | None => Raise (KeyError class_name)
  | Some original_node =>
      let original_methods := methods_of (body_of original_node) in
      let updated_methods := methods_of (body_of updated_node) in
      end_meth ← mapM (fun kv => merge_method updated_methods kv.1 kv.2) original_methods;
      match original_node with
      | ClassDef ll name bases _ =>
          new_class ← visit original_methods updated_methods (ClassDef ll name bases end_meth);
          Ok (ClassDef ll name bases (body_of new_class))
      | _ => Raise (TypeError "classes holds class definitions only")
      end
  end.

End SuperCall.

(** ** The regular expressions of the orchestrator *)

Module Regex.

(** Within one line, the alternative of [\.(modeling|configuration)_]
    that the greedy [.*] in front of it reaches first: the one whose
    occurrence starts last. *)
Fixpoint last_source (line : string) : option string :=
  match line with
  | EmptyString => None
  | String _ rest =>
      match last_source rest with
      | Some g => Some g
      | None =>
          if PyStr.startswith ".modeling_" line then Some "modeling"
          else if PyStr.startswith ".configuration_" line then Some "configuration"
          else None
      end
  end.

(** The search of visit_ImportFrom and leave_SimpleStatementLine, with its
    first group: the text transformers.models. followed on the same line
    by .modeling_ or .configuration_; the leftmost place where the
    pattern matches is taken. *)
Fixpoint search_transformers_import (s : string) : option string :=
  let next :=
    match s with
    | EmptyString => None
    | String _ rest => search_transformers_import rest
    end in
  match PyStr.strip_prefix "transformers.models." s with
  | Some rest =>
      match last_source (PyStr.first_line rest) with
      | Some g => Some g
      | None => next
      end
  | None => next
  end.

(** The search of leave_ClassDef for the model name, with its group: the
    first underscore and the non-space characters that follow it. *)
Definition search_model_name (s : string) : option string :=
  match PyStr.after_first "_" s with
  | Some rest => Some (PyStr.take_nonspace rest)
  | None => None
  end.

(** The search of leave_If: the text is_ followed on the same line by
    the text available. *)
Fixpoint search_availability (s : string) : bool :=
  match PyStr.strip_prefix "is_" s with
  | Some rest => PyStr.contains "available" (PyStr.first_line rest)
  | None => false
  end
  || match s with
     | EmptyString => false
     | String _ rest => search_availability rest
     end.

Fixpoint strip_suffix (suffix s : string) : option string :=
  if String.eqb s suffix then Some EmptyString
  else match s with
       | EmptyString => None
       | String c rest => String c <$> strip_suffix suffix rest
       end.

(** The search of convert_file for the new model name, with its group:
    what stands between diff_ and the final .py of the file name; the end
    anchor also matches in front of a newline that ends the text. *)
Fixpoint search_diff_name (s : string) : option string :=
  let next :=
    match s with
    | EmptyString => None
    | String _ rest => search_diff_name rest
    end in
  match PyStr.strip_prefix "diff_" s with
  | Some rest =>
      let stem :=
        match strip_suffix ".py" rest with
        | Some g => Some g
        | None => strip_suffix (".py" +:+ Codegen.nl) rest
        end in
      match stem with
      | Some g => if String.eqb (PyStr.first_line g) g then Some g else next
      | None => next
      end
  | None => next
  end.

End Regex.

(** ** The orchestrator ([DiffConverterTransformer]) and [convert_file] *)

(** A key of [new_body]: text, or a node (an [If] block, the object of
    an attribute assigned to).  A node is equal to itself only, so a node
    key carries a serial number drawn when the key is made. *)
Inductive body_key : Type :=
| KStr (s : string)
| KNode (id : nat).

Global Instance body_key_eq_dec : EqDecision body_key.
Proof. solve_decision. Defined.

(** [{"insert_idx": ..., "node": ...}]. *)
Record entry : Type := Entry {
  insert_idx : Z;
  node : stmt
}.

Record transformer : Type := Transformer {
  model_name : string;
  transformers_imports : gmap string py_module;
  imported_mapping : gmap string string;
  visited_module : list (string * class_finder);
  new_body : list (body_key * entry);
  inserted_deps : list string;
  all_imports : list stmt;
  global_scope_index : Z;
  config_body : option (list stmt);
  next_id : nat
}.

(** Stable sorting by an integer key, as [sorted(..., key=...)] does:
    elements with equal keys keep their order. *)
Section Sorting.
Context {A : Type} (key : A → Z).

Fixpoint insert_sorted (x : A) (l : list A) : list A :=
  match l with
  | [] => [x]
  | y :: l' => if key y <? key x then y :: insert_sorted x l' else x :: y :: l'
  end.

Definition sorted_by (l : list A) : list A := foldr insert_sorted [] l.

End Sorting.

(** [sorted(..., key=..., reverse=True)] is stable as well. *)
Definition sorted_by_reverse {A : Type} (key : A → Z) (l : list A) : list A :=
  sorted_by (fun x => - key x) l.

Module Converter.

Definition init (new_name : string) : transformer :=
  Transformer new_name ∅ ∅ [] [] [] [] 0 None 0.

Definition with_imports (ti : gmap string py_module) (im : gmap string string)
    (t : transformer) : transformer :=
  Transformer (model_name t) ti im (visited_module t) (new_body t) (inserted_deps t)
    (all_imports t) (global_scope_index t) (config_body t) (next_id t).

Definition with_visited_module (vm : list (string * class_finder)) (t : transformer)
  : transformer :=
  Transformer (model_name t) (transformers_imports t) (imported_mapping t) vm (new_body t)
    (inserted_deps t) (all_imports t) (global_scope_index t) (config_body t) (next_id t).

Definition with_new_body (nb : list (body_key * entry)) (t : transformer) : transformer :=
  Transformer (model_name t) (transformers_imports t) (imported_mapping t) (visited_module t)
    nb (inserted_deps t) (all_imports t) (global_scope_index t) (config_body t) (next_id t).

Definition with_inserted_deps (deps : list string) (t : transformer) : transformer :=
  Transformer (model_name t) (transformers_imports t) (imported_mapping t) (visited_module t)
    (new_body t) deps (all_imports t) (global_scope_index t) (config_body t) (next_id t).

Definition with_all_imports (ai : list stmt) (t : transformer) : transformer :=
  Transformer (model_name t) (transformers_imports t) (imported_mapping t) (visited_module t)
    (new_body t) (inserted_deps t) ai (global_scope_index t) (config_body t) (next_id t).

Definition with_global_scope_index (i : Z) (t : transformer) : transformer :=
  Transformer (model_name t) (transformers_imports t) (imported_mapping t) (visited_module t)
    (new_body t) (inserted_deps t) (all_imports t) i (config_body t) (next_id t).

Definition with_config_body (cb : option (list stmt)) (t : transformer) : transformer :=
  Transformer (model_name t) (transformers_imports t) (imported_mapping t) (visited_module t)
    (new_body t) (inserted_deps t) (all_imports t) (global_scope_index t) cb (next_id t).

Definition with_next_id (n : nat) (t : transformer) : transformer :=
  Transformer (model_name t) (transformers_imports t) (imported_mapping t) (visited_module t)
    (new_body t) (inserted_deps t) (all_imports t) (global_scope_index t) (config_body t) n.

(** [self.new_body[key] = {"insert_idx": idx, "node": n}]. *)
Definition set_new_body (key : body_key) (idx : Z) (n : stmt) (t : transformer) : transformer :=
  with_new_body (dict_set key (Entry idx n) (new_body t)) t.

(** The messages of the three explicit errors. *)
Definition config_import_message (symbol : string) : string :=
  "You are importing " +:+ symbol +:+
  " from the modeling file. Import from the `configuration_xxxx.py` file instead".

Definition not_imported_message (super_class : string) : string :=
  super_class +:+
  " was not imported using `from transformers.models.xxxxx.modeling_xxxx import " +:+
  super_class.

Definition model_name_message (super_file_name : string) : string :=
  "Tried parsing the name of the imported package from " +:+ super_file_name +:+
  ", could not extract the model name".

(** [code_for_node] of an optional expression: [None] has no code. *)
Definition code_for_module (m : option expr) : result string :=
  match m with
  | Some e => Ok (Codegen.code_expr e)
  | None => Raise (AttributeError "'NoneType' object has no attribute '_codegen'")
  end.

Definition is_attribute (m : option expr) : bool :=
  match m with
  | Some (Attribute _ _) => true
  | _ => false
  end.

Section Orchestrator.

(** The collaborators outside this file: the loader and parser of a
    module given by its dotted name ([get_module_source_from_name]
    followed by [cst.parse_module]), the renaming and analysis of a parsed
    module ([find_classes_in_file], which drives the renamer and the
    class finder over the tree) and the formatter [run_ruff]. *)
Context {printer : Printer}.
Variable parse_source : string → result py_module.
Variable find_classes_in_file : py_module → string → string → result class_finder.
Variable run_ruff : string → bool → string.

(** One turn of the loop of [visit_ImportFrom] over the imported names. *)
Definition visit_imported (import_statement : string) (imported_ : import_alias)
    (t : transformer) : result transformer :=
  match Regex.search_transformers_import import_statement with
  | Some source =>
      if bool_decide (source = "modeling")
         && PyStr.contains "Config" (Codegen.code_alias imported_)
      then Raise (ValueError (config_import_message (Codegen.code_alias imported_)))
      else
        ti ← match transformers_imports t !! import_statement with
              | Some _ => Ok (transformers_imports t)
              | None =>
                  tree ← parse_source import_statement;
                  Ok (<[ import_statement := tree ]> (transformers_imports t))
              end;
        Ok (with_imports ti (<[ alias_name imported_ := import_statement ]> (imported_mapping t)) t)
  | None => Ok t
  end.

Definition visit_ImportFrom (module : option expr) (names : option (list import_alias))
    (t : transformer) : result transformer :=
  import_statement ← code_for_module module;
  if is_attribute module then
    match names with
    | Some names =>
        foldl (fun acc imported_ => t ← acc; visit_imported import_statement imported_ t)
              (Ok t) names
    | None => Raise (TypeError "'ImportStar' object is not iterable")
    end
  else Ok t.

Definition leave_FunctionDef (parent_is_module : bool) (node : stmt) (t : transformer)
  : transformer :=
  match node with
  | FunctionDef _ _ name _ _ =>
      if parent_is_module then
        let idx := global_scope_index t + 100 in
        set_new_body (KStr name) idx node (with_global_scope_index idx t)
      else t
  | _ => t
  end.

(** The key a top-level statement is stored under.  libcst keeps the
    semicolon that follows a small statement on that statement, so the
    text of the first of several has it. *)
Definition node_name (body : list small_stmt) (t : transformer) : result (body_key * transformer) :=
  match body with
  | [Assign (target :: _) _] =>
      v ← expr_value target;
      match v with
      | PStr s => Ok (KStr s, t)
      | PNode _ => Ok (KNode (next_id t), with_next_id (S (next_id t)) t)
      end
  | first :: rest =>
      Ok (KStr (Codegen.code_small first +:+ match rest with [] => "" | _ => "; " end), t)
  | [] => Raise (TypeError "tuple index out of range")
  end.

Definition leave_SimpleStatementLine (parent_is_module : bool) (updated_node : stmt)
    (t : transformer) : result transformer :=
  match updated_node with
  | SimpleStatementLine _ body =>
      if parent_is_module then
        match body with
        | [Import _] => Ok (with_all_imports (all_imports t ++ [updated_node]) t)
        | [ImportFrom module _] =>
            full_statement ← code_for_module module;
            match Regex.search_transformers_import full_statement with
            | Some _ => Ok t
            | None => Ok (with_all_imports (all_imports t ++ [updated_node]) t)
            end
        | _ =>
            let idx := global_scope_index t + 100 in
            let t := with_global_scope_index idx t in
            '(key, t) ← node_name body t;
            Ok (set_new_body key idx updated_node t)
        end
      else Ok t
  | _ => Ok t
  end.

(** The loop of [leave_ClassDef] over the sorted dependencies; the state
    it threads is the transformer and [start_insert_idx]. *)
Definition insert_dependency (cf : class_finder) (acc : transformer * Z) (dependency : string)
  : transformer * Z :=
  let '(t, start_insert_idx) := acc in
  match global_nodes cf !! dependency with
  | Some n =>
      let '(t, start_insert_idx) :=
        match dict_get (KStr dependency) (new_body t) with
        | None =>
            let start_insert_idx := start_insert_idx - 1 in
            (set_new_body (KStr dependency) start_insert_idx n t, start_insert_idx)
        | Some e =>
            if bool_decide (dependency ∈ inserted_deps t) then (t, start_insert_idx)
            else (t, insert_idx e - 1)
        end in
      (with_inserted_deps (inserted_deps t ++ [dependency]) t, start_insert_idx)
  | None => (t, start_insert_idx)
  end.

(** [list_dependencies], sorted: the names recorded for the class, latest
    in the file first, a name without a line counting as line 1000. *)
Definition list_dependencies (cf : class_finder) (class_name : string) : list (string * Z) :=
  sorted_by_reverse snd
    (dict_of_list
       (List.map (fun dep => (dep, default 1000 (class_start_line cf !! dep)))
          (elements (Finder.deps cf class_name)))).

(** One turn of the loop of [leave_ClassDef] over the bases. *)
Definition process_base (class_name : string) (acc : transformer * stmt) (super_class : string)
  : result (transformer * stmt) :=
  let '(t, updated_node) := acc in
  match imported_mapping t !! super_class with
  | None => Raise (ImportError (not_imported_message super_class))
  | Some super_file_name =>
      old_name ← match Regex.search_model_name super_file_name with
                  | Some g => Ok g
                  | None => Raise (ValueError (model_name_message super_file_name))
                  end;
      '(t, cf) ← match dict_get super_file_name (visited_module t) with
                  | None =>
                      tree ← match transformers_imports t !! super_file_name with
                              | Some tree => Ok tree
                              | None => Raise (KeyError super_file_name)
                              end;
                      cf ← find_classes_in_file tree old_name (model_name t);
                      Ok (with_visited_module
                            (dict_set super_file_name cf (visited_module t)) t, cf)
                  | Some cf => Ok (t, cf)
                  end;
      let deps := list_dependencies cf class_name in
      let '(t, _) := foldl (insert_dependency cf) (t, global_scope_index t) deps.*1 in
      match deps with
      | [] => Ok (t, updated_node)
      | _ =>
          updated_node ← SuperCall.replace_call_to_super cf updated_node class_name;
          Ok (t, updated_node)
      end
  end.

(** [k.value.value for k in original_node.bases if k.value.value in
    self.imported_mapping]. *)
Definition imported_bases (bases : list (expr * string)) (t : transformer)
  : result (list string) :=
  values ← mapM (fun k : expr * string => expr_value k.1) bases;
  Ok (omap (fun v : pyval =>
              match v with
              | PStr s => if imported_mapping t !! s is Some _ then Some s else None
              | PNode _ => None
              end) (values : list pyval)).

Definition leave_ClassDef (original_node updated_node : stmt) (t : transformer)
  : result transformer :=
  match original_node, updated_node with
  | ClassDef _ class_name obases _, ClassDef _ _ _ _ =>
      bases ← imported_bases obases t;
      let t := with_global_scope_index (global_scope_index t + 100) t in
      '(t, updated_node) ← foldl (fun acc super_class =>
                                     acc ← acc; process_base class_name acc super_class)
                                  (Ok (t, updated_node)) bases;
      if PyStr.contains "Config" class_name
      then Ok (with_config_body (Some [updated_node]) t)
      else Ok (set_new_body (KStr class_name) (global_scope_index t) updated_node t)
  | _, _ => Ok t
  end.

Definition leave_If (parent_is_module : bool) (original_node node : stmt) (t : transformer)
  : transformer :=
  match original_node, node with
  | If _ test _ _, If _ _ _ _ =>
      if parent_is_module then
        let full_statement := Codegen.code_expr test in
        if Regex.search_availability full_statement
        then with_all_imports (all_imports t ++ [node]) t
        else if dict_mem (KStr full_statement) (new_body t) then t
        else set_new_body (KNode (next_id t)) (global_scope_index t) node
               (with_next_id (S (next_id t)) t)
      else t
  | _, _ => t
  end.

(** [{self.python_module.code_for_node(k): k for k in nodes}]. *)
Definition by_code (nodes : list stmt) : list (string * stmt) :=
  dict_of_list (List.map (fun k => (code_for_node k, k)) nodes).

(** The entries of [new_body] in the order they are emitted. *)
Definition emitted (t : transformer) : list (body_key * entry) :=
  sorted_by (fun x => insert_idx x.2) (new_body t).

(** [leave_Module]: the transformer afterwards and the body of the
    module that is returned. *)
Definition leave_Module (t : transformer) : transformer * list stmt :=
  let own_imports := by_code (all_imports t) in
  let dependency_imports :=
    foldl (fun acc (visiter : class_finder) =>
             dict_update acc (by_code (dict_values (imports visiter))))
          [] (dict_values (visited_module t)) in
  let t' :=
    match config_body t with
    | Some cb => with_config_body (Some (dict_values own_imports ++ cb)) t
    | None => t
    end in
  let dependency_imports := dict_update dependency_imports own_imports in
  let body :=
    match new_body t with
    | [] => []
    | _ => dict_values dependency_imports ++ List.map (fun x => node x.2) (emitted t)
    end in
  (t', body).

(** One callback invocation of the traversal of the diff module.  libcst
    passes a callback nodes of its own kind only, so the callbacks above
    do nothing when handed a node of another kind. *)
Inductive event : Type :=
| VisitImportFrom (module : option expr) (names : option (list import_alias))
| LeaveFunctionDef (parent_is_module : bool) (node : stmt)
| LeaveSimpleStatementLine (parent_is_module : bool) (updated_node : stmt)
| LeaveClassDef (original_node updated_node : stmt)
| LeaveIf (parent_is_module : bool) (original_node node : stmt).

Definition step (ev : event) (t : transformer) : result transformer :=
  match ev with
  | VisitImportFrom m names => visit_ImportFrom m names t
  | LeaveFunctionDef pm n => Ok (leave_FunctionDef pm n t)
  | LeaveSimpleStatementLine pm n => leave_SimpleStatementLine pm n t
  | LeaveClassDef o u => leave_ClassDef o u t
  | LeaveIf pm o n => Ok (leave_If pm o n t)
  end.

Fixpoint run (evs : list event) (t : transformer) : result transformer :=
  match evs with
  | [] => Ok t
  | ev :: rest => t' ← step ev t; run rest t'
  end.

Definition AUTO_GENERATED_MESSAGE : string :=
"#           🚨🚨🚨🚨🚨🚨🚨🚨🚨🚨🚨🚨🚨🚨🚨🚨🚨🚨🚨🚨🚨🚨🚨🚨🚨🚨🚨🚨🚨🚨🚨🚨🚨🚨🚨🚨🚨🚨🚨🚨🚨🚨🚨🚨🚨
#               This file was automatically generated from <path_to_diff_file.py>.
#         Do NOT edit this file manually as any edits will be overwritten by the generation of
#         the file from the diff. If any change should be done, please apply the change to the
#                                    diff.py file directly.
#           🚨🚨🚨🚨🚨🚨🚨🚨🚨🚨🚨🚨🚨🚨🚨🚨🚨🚨🚨🚨🚨🚨🚨🚨🚨🚨🚨🚨🚨🚨🚨🚨🚨🚨🚨🚨🚨🚨🚨🚨🚨🚨🚨🚨🚨
".

(** [convert_file] with the transformer it builds itself.  The diff file
    is given by its name, the module parsed from it and the traversal
    libcst makes of that module.  The result is the list of files written,
    each with its content, in the order of writing, and the transformer
    returned or the exception raised. *)
Definition convert_file (diff_file : string) (module : py_module) (traversal : list event)
  : list (string * string) * result transformer :=
  match Regex.search_diff_name diff_file with
  | None => ([], Raise (AttributeError "'NoneType' object has no attribute 'groups'"))
  | Some new_name =>
      match run traversal (init new_name) with
      | Raise e => ([], Raise e)
      | Ok t =>
          let '(t, body) := leave_Module t in
          let new_mod := with_body body module in
          let ruffed_code := run_ruff (module_code new_mod) true in
          let formatted_code := run_ruff ruffed_code false in
          let modeling :=
            if String.eqb (PyStr.strip formatted_code) EmptyString then []
            else [(PyStr.replace "diff_" "modeling_" diff_file,
                   AUTO_GENERATED_MESSAGE +:+ formatted_code)] in
          let configuration :=
            match config_body t with
            | Some cb =>
                let config_module := make_module (header new_mod) cb in
                let ruffed_code := run_ruff (module_code config_module) true in
                let formatted_code := run_ruff ruffed_code false in
                [(PyStr.replace "diff_" "configuration_" diff_file,
                  AUTO_GENERATED_MESSAGE +:+ formatted_code)]
            | None => []
            end in
          (modeling ++ configuration, Ok t)
      end
  end.

End Orchestrator.

End Converter.

(** * Properties *)


(** ** Facts about exceptions and dictionaries *)

Lemma bind_Ok {A B : Type} (c : result A) (k : A → result B) (b : B) :
  (c ≫= k) = Ok b → ∃ a, c = Ok a ∧ k a = Ok b.
Proof. destruct c as [a|e]; simpl; [eauto | done]. Qed.

Lemma bind_Raise {A B : Type} (c : result A) (k : A → result B) (e : exn) :
  c = Raise e → (c ≫= k) = Raise e.
Proof. by intros ->. Qed.

Section DictFacts.
Context {K V : Type} `{EqDecision K}.

Lemma dict_get_set (k x : K) (v : V) (d : list (K * V)) :
  dict_get x (dict_set k v d) = if decide (x = k) then Some v else dict_get x d.
Proof.
  induction d as [|[k' v'] d IH]; simpl.
  - done.
  - repeat (case_decide; simplify_eq/=); try done;
      repeat (case_decide; simplify_eq/=); done.
Qed.

Lemma dict_set_keys (k : K) (v : V) (d : list (K * V)) :
  (dict_set k v d).*1 = if dict_mem k d then d.*1 else d.*1 ++ [k].
Proof.
  unfold dict_mem. induction d as [|[k' v'] d IH]; simpl; [done|].
  case_decide; simplify_eq/=; [done|].
  rewrite IH. by destruct (dict_get k d).
Qed.

Lemma dict_get_None (k : K) (d : list (K * V)) :
  dict_get k d = None ↔ k ∉ d.*1.
Proof.
  induction d as [|[k' v'] d IH]; simpl.
  - split; [intros _ Hx; by apply elem_of_nil in Hx | done].
  - rewrite not_elem_of_cons. case_decide; simplify_eq/=; naive_solver.
Qed.

Lemma dict_get_Some_elem (k : K) (v : V) (d : list (K * V)) :
  dict_get k d = Some v → (k, v) ∈ d.
Proof.
  induction d as [|[k' v'] d IH]; simpl; [done|].
  case_decide; simplify_eq/=.
  - intros [= ->]. apply list_elem_of_here.
  - intros Hx. apply list_elem_of_further. by apply IH.
Qed.

Lemma dict_set_NoDup (k : K) (v : V) (d : list (K * V)) :
  NoDup d.*1 → NoDup (dict_set k v d).*1.
Proof.
  intros Hnd. rewrite dict_set_keys. unfold dict_mem.
  destruct (dict_get k d) eqn:Hk; [done|].
  apply NoDup_app. split; [done|]. split.
  - intros x Hx Hx'. apply list_elem_of_singleton in Hx' as ->.
    by apply dict_get_None in Hk.
  - apply NoDup_singleton.
Qed.

Lemma dict_update_NoDup (d e : list (K * V)) :
  NoDup d.*1 → NoDup (dict_update d e).*1.
Proof.
  unfold dict_update. revert d. induction e as [|[k v] e IH]; intros d Hd; simpl.
  - done.
  - apply IH. by apply dict_set_NoDup.
Qed.

Lemma dict_get_snoc (x k : K) (v : V) (l : list (K * V)) :
  dict_get x (l ++ [(k, v)])
  = match dict_get x l with
    | Some w => Some w
    | None => if decide (x = k) then Some v else None
    end.
Proof.
  induction l as [|[k' v'] l IHl]; simpl.
  - by case_decide.
  - destruct (decide (x = k')); [done | apply IHl].
Qed.

(** After [d.update(e)] a key has the value of its last entry in [e],
    and its value in [d] when [e] has no entry for it. *)
Lemma dict_get_update (x : K) (d e : list (K * V)) :
  dict_get x (dict_update d e)
  = match dict_get x (reverse e) with
    | Some v => Some v
    | None => dict_get x d
    end.
Proof.
  unfold dict_update. revert d. induction e as [|[k v] e IH]; intros d; simpl.
  - done.
  - rewrite IH, reverse_cons, dict_get_set, dict_get_snoc.
    destruct (dict_get x (reverse e)); [done|].
    by case_decide.
Qed.

(** When no key is repeated the order of the entries does not matter
    to a lookup. *)
Lemma dict_get_reverse (x : K) (d : list (K * V)) :
  NoDup d.*1 → dict_get x (reverse d) = dict_get x d.
Proof.
  induction d as [|[k v] d IH]; [done|].
  intros Hnd. apply NoDup_cons in Hnd as [Hk Hnd].
  rewrite reverse_cons, dict_get_snoc, (IH Hnd). simpl.
  assert (dict_get k d = None) as Hnone by (by apply dict_get_None).
  destruct (decide (x = k)) as [->|Hne].
  - by rewrite Hnone.
  - by destruct (dict_get x d).
Qed.

Lemma dict_set_values (k : K) (v x : V) (d : list (K * V)) :
  x ∈ dict_values (dict_set k v d) → x = v ∨ x ∈ dict_values d.
Proof.
  unfold dict_values. induction d as [|[k' v'] d IH]; simpl.
  - intros Hx. apply list_elem_of_singleton in Hx. by left.
  - case_decide; simpl; rewrite !elem_of_cons; naive_solver.
Qed.

Lemma dict_update_values (x : V) (d e : list (K * V)) :
  x ∈ dict_values (dict_update d e) → x ∈ dict_values d ∨ x ∈ dict_values e.
Proof.
  unfold dict_update. revert d. induction e as [|[k v] e IH]; intros d; simpl.
  - by left.
  - intros Hx. apply IH in Hx as [Hx|Hx].
    + apply dict_set_values in Hx as [->|Hx]; [|by left].
      right. apply list_elem_of_here.
    + right. unfold dict_values in *. simpl. by apply list_elem_of_further.
Qed.

(** In a display of three entries the last entry with the key wins. *)
Lemma dict_get_display3 (a1 a2 a3 : K) (b1 b2 b3 : V) (w : K) :
  dict_get w (dict_of_list [(a1, b1); (a2, b2); (a3, b3)])
  = if decide (w = a3) then Some b3
    else if decide (w = a2) then Some b2
    else if decide (w = a1) then Some b1
    else None.
Proof.
  unfold dict_of_list, dict_update. simpl.
  repeat (case_decide; simplify_eq/=); try done;
    repeat (case_decide; simplify_eq/=); done.
Qed.

(** Keys that are new, and keys after an update. *)

Lemma dict_set_fresh (k : K) (v : V) (d : list (K * V)) :
  k ∉ d.*1 → dict_set k v d = d ++ [(k, v)].
Proof.
  induction d as [|[k' v'] d IH]; [done|]. cbn [fmap list_fmap fst dict_set].
  rewrite not_elem_of_cons. intros [Hne Hk].
  rewrite decide_False by done. by rewrite IH.
Qed.

Lemma dict_update_fresh (d e : list (K * V)) :
  NoDup (d ++ e).*1 → dict_update d e = d ++ e.
Proof.
  unfold dict_update. revert d. induction e as [|[k v] e IH]; intros d Hnd; cbn [foldl].
  - by rewrite app_nil_r.
  - cbn [fst snd]. rewrite dict_set_fresh.
    + rewrite IH; rewrite <- app_assoc; done.
    + rewrite fmap_app in Hnd. apply NoDup_app in Hnd as (_ & Hd & _).
      intros Hk. apply (Hd _ Hk). cbn. apply list_elem_of_here.
Qed.

(** A list of pairs without a repeated key is its own dictionary. *)
Lemma dict_of_list_NoDup (e : list (K * V)) : NoDup e.*1 → dict_of_list e = e.
Proof. intros Hnd. unfold dict_of_list. by rewrite dict_update_fresh. Qed.

Lemma dict_update_keys (k : K) (d e : list (K * V)) :
  k ∈ (dict_update d e).*1 ↔ k ∈ d.*1 ∨ k ∈ e.*1.
Proof.
  unfold dict_update. revert d. induction e as [|[k' v'] e IH]; intros d; cbn [foldl].
  - rewrite elem_of_nil. naive_solver.
  - rewrite IH, dict_set_keys. cbn [fmap list_fmap fst snd].
    rewrite elem_of_cons. destruct (dict_mem k' d) eqn:Hm.
    + unfold dict_mem in Hm. destruct (dict_get k' d) eqn:Hg; [|done].
      apply dict_get_Some_elem in Hg.
      assert (k' ∈ d.*1) by (apply list_elem_of_fmap; by eexists (_, _)).
      naive_solver.
    + rewrite elem_of_app, list_elem_of_singleton. naive_solver.
Qed.

End DictFacts.

(** ** The model on small inputs *)

Example code_for_node_return :
  Codegen.code_for_node
    (SimpleStatementLine "" [Return (Some (Call (Attribute (Call (Name "super") []) "forward") [Name "x"]))])
  = "return super().forward(x)" +:+ Codegen.nl.
Proof. reflexivity. Qed.

Example rename_llama_gemma :
  Renamer.preserve_case_replace (Renamer.init "llama" "gemma")
    "class LlamaModel: LLAMA_DOC = llama_x  # LLaMa"
  = "class GemmaModel: GEMMA_DOC = gemma_x  # Gemma".
Proof. vm_compute. reflexivity. Qed.

Example rename_to_snake :
  Renamer.preserve_case_replace (Renamer.init "llama" "my_new_model") "LlamaModel LLAMA llama"
  = "MyNewModelModel MY_NEW_MODEL my_new_model".
Proof. vm_compute. reflexivity. Qed.

Example search_llama :
  Regex.search_transformers_import "transformers.models.llama.modeling_llama" = Some "modeling".
Proof. reflexivity. Qed.

Example search_configuration :
  Regex.search_transformers_import "transformers.models.llama.configuration_llama"
  = Some "configuration".
Proof. reflexivity. Qed.

Example search_diff_gemma :
  Regex.search_diff_name "src/transformers/models/gemma/diff_gemma.py" = Some "gemma".
Proof. reflexivity. Qed.

Example search_model_name_llama :
  Regex.search_model_name "transformers.models.llama.modeling_llama" = Some "llama".
Proof. reflexivity. Qed.

Example sorted_by_stable :
  sorted_by fst [(2, "a"); (1, "b"); (2, "c"); (1, "d")]
  = [(1, "b"); (1, "d"); (2, "a"); (2, "c")].
Proof. reflexivity. Qed.

Example sorted_by_reverse_stable :
  sorted_by_reverse fst [(1, "b"); (2, "a"); (1, "d"); (2, "c")]
  = [(2, "a"); (2, "c"); (1, "b"); (1, "d")].
Proof. reflexivity. Qed.

(** ** Facts about text *)

Module PyStrFacts.
Import PyStr.

Lemma append_assoc (a b c : string) : (a +:+ b) +:+ c = a +:+ (b +:+ c).
Proof.
  induction a as [|d a IH]; [done|].
  change (String d ((a +:+ b) +:+ c) = String d (a +:+ (b +:+ c))).
  by rewrite IH.
Qed.

Lemma strip_prefix_app p r : strip_prefix p (p +:+ r) = Some r.
Proof.
  induction p as [|c p IH]; simpl; [done|].
  by rewrite Ascii.eqb_refl.
Qed.

Lemma strip_prefix_Some p s r : strip_prefix p s = Some r → s = p +:+ r.
Proof.
  revert s. induction p as [|c p IH]; intros s; simpl.
  - by intros [= ->].
  - destruct s as [|d s]; [done|].
    destruct (Ascii.eqb c d) eqn:Hcd; [|done].
    apply Ascii.eqb_eq in Hcd as ->. intros H. by rewrite (IH _ H).
Qed.

Lemma startswith_app p a b : startswith p a = true → startswith p (a +:+ b) = true.
Proof.
  unfold startswith. revert a. induction p as [|c p IH]; intros a; simpl; [done|].
  destruct a as [|d a]; simpl; [done|].
  destruct (Ascii.eqb c d); [apply IH | done].
Qed.

Lemma contains_app_l p a b : contains p a = true → contains p (a +:+ b) = true.
Proof.
  induction a as [|d a IH]; simpl.
  - rewrite orb_false_r. intros H. destruct p; [|done].
    destruct b; done.
  - intros H. apply orb_true_iff in H as [H|H].
    + apply orb_true_iff. left. by apply (startswith_app p (String d a) b).
    + apply orb_true_iff. right. by apply IH.
Qed.

Lemma mem_app c a b : mem c (a +:+ b) = mem c a || mem c b.
Proof.
  induction a as [|d a IH]; simpl; [done|].
  by rewrite IH, orb_assoc.
Qed.

Lemma first_line_id s : mem newline s = false → first_line s = s.
Proof.
  induction s as [|c s IH]; simpl; [done|].
  intros H. apply orb_false_iff in H as [Hc Hs].
  rewrite Hc. by rewrite IH.
Qed.

Lemma take_nonspace_app_space a c b :
  (∀ d, mem d a = true → is_space d = false) →
  is_space c = true →
  take_nonspace (a +:+ String c b) = a.
Proof.
  intros Ha Hc. induction a as [|d a IH]; simpl.
  - by rewrite Hc.
  - rewrite (Ha d) by (simpl; by rewrite Ascii.eqb_refl).
    rewrite IH; [done|]. intros e He. apply Ha. simpl. by rewrite He, orb_true_r.
Qed.

Lemma take_nonspace_id a :
  (∀ d, mem d a = true → is_space d = false) →
  take_nonspace a = a.
Proof.
  intros Ha. induction a as [|d a IH]; simpl; [done|].
  rewrite (Ha d) by (simpl; by rewrite Ascii.eqb_refl).
  rewrite IH; [done|]. intros e He. apply Ha. simpl. by rewrite He, orb_true_r.
Qed.

(** Splitting, searching and appending. *)

Lemma split_no_sep sep s : mem sep s = false → split sep s = [s].
Proof.
  induction s as [|c s IH]; [done|]. simpl.
  intros H. apply orb_false_iff in H as [Hc Hs].
  rewrite Hc, (IH Hs). done.
Qed.

Lemma split_at_sep sep a b :
  mem sep a = false → split sep (a +:+ String sep b) = a :: split sep b.
Proof.
  induction a as [|c a IH]; simpl.
  - by rewrite Ascii.eqb_refl.
  - intros H. apply orb_false_iff in H as [Hc Hs].
    rewrite Hc, (IH Hs). done.
Qed.

Lemma append_cons c (a b : string) : String c a +:+ b = String c (a +:+ b).
Proof. reflexivity. Qed.

Lemma append_nil_l (b : string) : EmptyString +:+ b = b.
Proof. reflexivity. Qed.

Lemma after_first_Some p s r : after_first p s = Some r → ∃ a, s = a +:+ p +:+ r.
Proof.
  induction s as [|c s IH]; cbn [after_first].
  - destruct (strip_prefix p EmptyString) as [r0|] eqn:Hp; [|done].
    intros [= ->]. exists EmptyString. exact (strip_prefix_Some _ _ _ Hp).
  - destruct (strip_prefix p (String c s)) as [r0|] eqn:Hp.
    + intros [= ->]. exists EmptyString. exact (strip_prefix_Some _ _ _ Hp).
    + intros H. destruct (IH H) as [a ->]. by exists (String c a).
Qed.

Lemma contains_Some p s : contains p s = true → ∃ a b, s = a +:+ p +:+ b.
Proof.
  induction s as [|c s IH]; cbn [contains]; intros H.
  - rewrite orb_false_r in H. unfold startswith in H.
    destruct (strip_prefix p EmptyString) as [r|] eqn:Hp; [|done].
    exists EmptyString, r. exact (strip_prefix_Some _ _ _ Hp).
  - apply orb_true_iff in H as [H|H].
    + unfold startswith in H.
      destruct (strip_prefix p (String c s)) as [r|] eqn:Hp; [|done].
      exists EmptyString, r. exact (strip_prefix_Some _ _ _ Hp).
    + destruct (IH H) as (a & b & ->). by exists (String c a), b.
Qed.

Lemma contains_here p b : contains p (p +:+ b) = true.
Proof.
  destruct (p +:+ b) eqn:Hs; cbn [contains]; unfold startswith;
    rewrite <- Hs, strip_prefix_app; done.
Qed.

Lemma contains_app_r p a b : contains p b = true → contains p (a +:+ b) = true.
Proof.
  intros H. induction a as [|c a IH]; [done|].
  change (String c a +:+ b) with (String c (a +:+ b)). cbn [contains].
  rewrite IH. apply orb_true_r.
Qed.

Lemma contains_cons p c s :
  PyStr.contains p (String c s) = false → PyStr.contains p s = false.
Proof.
  cbn [PyStr.contains]. intros H. by apply orb_false_iff in H as [_ H].
Qed.

Lemma contains_startswith p s :
  PyStr.contains p s = false → PyStr.startswith p s = false.
Proof. destruct s; cbn [PyStr.contains]; intros H; by apply orb_false_iff in H as [H _]. Qed.

Lemma append_empty_r (s : string) : s +:+ EmptyString = s.
Proof.
  induction s as [|c s IH]; [done|].
  change (String c (s +:+ EmptyString) = String c s). by rewrite IH.
Qed.

Lemma contains_middle p a b : contains p (a +:+ p +:+ b) = true.
Proof.
  induction a as [|c a IH].
  - change (EmptyString +:+ ?x) with x.
    destruct (p +:+ b) eqn:Hs; cbn [contains]; unfold startswith;
      rewrite <- Hs, strip_prefix_app; done.
  - change (String c a +:+ ?x) with (String c (a +:+ x)). cbn [contains].
    rewrite IH. apply orb_true_r.
Qed.

Lemma mem_first_line c s : mem c (first_line s) = true → mem c s = true.
Proof.
  induction s as [|d s IH]; [done|]. cbn [first_line mem].
  destruct (Ascii.eqb d newline); [done|]. cbn [mem].
  intros H. apply orb_true_iff in H as [H|H]; [by rewrite H|].
  rewrite (IH H). apply orb_true_r.
Qed.

Lemma after_first_char_mem c s :
  mem c s = true → is_Some (after_first (String c EmptyString) s).
Proof.
  induction s as [|d s IH]; [done|]. cbn [mem after_first strip_prefix].
  rewrite (Ascii.eqb_sym c d). destruct (Ascii.eqb d c); [intros _; by eexists|].
  cbn [orb]. exact IH.
Qed.

End PyStrFacts.

(** ** Facts about the regular expressions *)

Module RegexFacts.
Import PyStr PyStrFacts Regex.

Lemma last_source_no_dot s : mem "." s = false → last_source s = None.
Proof.
  induction s as [|c s IH]; [done|].
  intros H. simpl in H. apply orb_false_iff in H as [Hc Hs].
  cbn [last_source]. rewrite (IH Hs).
  unfold startswith. cbn [strip_prefix]. rewrite Ascii.eqb_sym, Hc. done.
Qed.

Lemma last_source_modeling x y :
  mem "." y = false → last_source (x +:+ ".modeling_" +:+ y) = Some "modeling".
Proof.
  intros Hy. induction x as [|c x IH].
  - change (EmptyString +:+ ".modeling_" +:+ y) with (String "." ("modeling_" +:+ y)).
    cbn [last_source].
    rewrite last_source_no_dot by (rewrite mem_app; by rewrite Hy).
    replace (String "." ("modeling_" +:+ y)) with (".modeling_" +:+ y) by done.
    unfold startswith. by rewrite strip_prefix_app.
  - change (String c x +:+ ".modeling_" +:+ y) with (String c (x +:+ ".modeling_" +:+ y)).
    cbn [last_source]. by rewrite IH.
Qed.

(** A path [transformers.models.<x>.modeling_<y>] whose last segment is
    [modeling_<y>] is recognized as a modeling file. *)
Lemma search_modeling_path x y :
  mem newline x = false → mem newline y = false → mem "." y = false →
  search_transformers_import ("transformers.models." +:+ x +:+ ".modeling_" +:+ y)
  = Some "modeling".
Proof.
  intros Hx Hny Hy.
  assert (∀ s, search_transformers_import s
               = match strip_prefix "transformers.models." s with
                 | Some rest =>
                     match last_source (first_line rest) with
                     | Some g => Some g
                     | None => match s with
                               | EmptyString => None
                               | String _ rest => search_transformers_import rest
                               end
                     end
                 | None => match s with
                           | EmptyString => None
                           | String _ rest => search_transformers_import rest
                           end
                 end) as Hunfold by (by intros []).
  rewrite Hunfold, strip_prefix_app.
  rewrite first_line_id.
  - by rewrite last_source_modeling.
  - rewrite !mem_app, Hx, Hny. done.
Qed.

End RegexFacts.

(** ** Facts about sorting *)

Section SortingFacts.
Context {A : Type} (key : A → Z).

Lemma insert_sorted_elem (x y : A) (l : list A) :
  y ∈ insert_sorted key x l ↔ y = x ∨ y ∈ l.
Proof.
  induction l as [|z l IH]; simpl.
  - rewrite list_elem_of_singleton, elem_of_nil. naive_solver.
  - destruct (key z <? key x); rewrite !elem_of_cons; [rewrite IH|]; naive_solver.
Qed.

Lemma sorted_by_elem (y : A) (l : list A) : y ∈ sorted_by key l ↔ y ∈ l.
Proof.
  induction l as [|x l IH]; simpl; [done|].
  rewrite insert_sorted_elem, elem_of_cons, IH. done.
Qed.

Lemma insert_sorted_sorted (x : A) (l : list A) :
  StronglySorted (fun a b => key a ≤ key b) l →
  StronglySorted (fun a b => key a ≤ key b) (insert_sorted key x l).
Proof.
  induction 1 as [|z l Hs IH Hz]; simpl.
  - by repeat constructor.
  - destruct (key z <? key x) eqn:Hlt.
    + apply Z.ltb_lt in Hlt. constructor; [done|].
      rewrite Forall_forall. intros y Hy.
      apply insert_sorted_elem in Hy as [->|Hy]; [lia|].
      rewrite Forall_forall in Hz. by apply Hz.
    + apply Z.ltb_ge in Hlt. constructor; [by constructor|].
      constructor; [done|].
      eapply Forall_impl; [exact Hz|]. intros y. simpl. lia.
Qed.

Lemma sorted_by_sorted (l : list A) :
  StronglySorted (fun a b => key a ≤ key b) (sorted_by key l).
Proof.
  induction l as [|x l IH]; simpl; [constructor | by apply insert_sorted_sorted].
Qed.

(** In a sorted list an element with a smaller key stands in front of
    one with a larger key. *)
Lemma sorted_precedes (a b : A) (l : list A) :
  StronglySorted (fun a b => key a ≤ key b) l →
  a ∈ l → b ∈ l → key a < key b →
  ∃ l1 l2 l3, l = l1 ++ a :: l2 ++ b :: l3.
Proof.
  induction 1 as [|x l Hs IH Hx]; intros Ha Hb Hlt.
  - by apply elem_of_nil in Ha.
  - apply elem_of_cons in Ha as [->|Ha].
    + apply elem_of_cons in Hb as [->|Hb]; [lia|].
      apply list_elem_of_split in Hb as (l2 & l3 & ->).
      by exists [], l2, l3.
    + apply elem_of_cons in Hb as [->|Hb].
      * rewrite Forall_forall in Hx. specialize (Hx _ Ha). simpl in Hx. lia.
      * destruct (IH Ha Hb Hlt) as (l1 & l2 & l3 & ->).
        by exists (x :: l1), l2, l3.
Qed.

Lemma sorted_by_precedes (a b : A) (l : list A) :
  a ∈ l → b ∈ l → key a < key b →
  ∃ l1 l2 l3, sorted_by key l = l1 ++ a :: l2 ++ b :: l3.
Proof.
  intros Ha Hb Hlt. apply sorted_precedes; [apply sorted_by_sorted | | | done];
    by apply sorted_by_elem.
Qed.

(** Sorting rearranges the list. *)

Lemma insert_sorted_Permutation (x : A) (l : list A) : insert_sorted key x l ≡ₚ x :: l.
Proof.
  induction l as [|y l IH]; [done|]. cbn [insert_sorted].
  destruct (key y <? key x); [|done].
  rewrite IH. apply Permutation_swap.
Qed.

Lemma sorted_by_Permutation (l : list A) : sorted_by key l ≡ₚ l.
Proof.
  induction l as [|x l IH]; [done|].
  change (sorted_by key (x :: l)) with (insert_sorted key x (sorted_by key l)).
  rewrite insert_sorted_Permutation. by apply Permutation_skip.
Qed.

End SortingFacts.

(** ** Facts about the class finder *)

Module FinderFacts.
Import Finder.

(** [grows cf cf']: every name's recorded set in [cf] is included in its
    recorded set in [cf']. *)
Definition grows (cf cf' : class_finder) : Prop :=
  ∀ k, deps cf k ⊆ deps cf' k.

Lemma grows_refl cf : grows cf cf.
Proof. intros k. done. Qed.

Lemma grows_trans cf1 cf2 cf3 : grows cf1 cf2 → grows cf2 cf3 → grows cf1 cf3.
Proof. intros H1 H2 k. etrans; [apply H1 | apply H2]. Qed.

Lemma recorded_update_self name value (m : gmap string (gset string)) :
  recorded (update_mapping name value m) name
  = recorded m name ∪ {[ value ]} ∪ recorded m value.
Proof.
  unfold update_mapping, recorded. rewrite lookup_insert_eq. simpl.
  set_solver.
Qed.

Lemma recorded_update_other name value k (m : gmap string (gset string)) :
  k ≠ name → recorded (update_mapping name value m) k = recorded m k.
Proof.
  intros Hne. unfold update_mapping, recorded.
  by rewrite lookup_insert_ne.
Qed.

Lemma recorded_update_mono name value k (m : gmap string (gset string)) :
  recorded m k ⊆ recorded (update_mapping name value m) k.
Proof.
  destruct (decide (k = name)) as [->|Hne].
  - rewrite recorded_update_self. set_solver.
  - by rewrite recorded_update_other.
Qed.

Lemma update_grows name value cf : grows cf (_update_class_dependency name value cf).
Proof. intros k. apply recorded_update_mono. Qed.

Lemma deps_set_classes k n cf x : deps (set_classes k n cf) x = deps cf x.
Proof. done. Qed.

Lemma visit_ClassDef_bases_grow name (bases : list (expr * string)) cf :
  grows cf (foldl (fun cf k => _update_class_dependency name (Codegen.code_for_arg k) cf)
                  cf bases).
Proof.
  revert cf. induction bases as [|b bases IH]; intros cf; simpl.
  - apply grows_refl.
  - eapply grows_trans; [apply update_grows | apply IH].
Qed.

Lemma visit_ClassDef_grows node cf : grows cf (visit_ClassDef node cf).
Proof.
  destruct node; simpl; try apply grows_refl.
  eapply grows_trans; [|apply visit_ClassDef_bases_grow].
  intros k. done.
Qed.

Lemma leave_Dict_fold_grows name (elements : list expr) acc cf cf' :
  (∀ cf0, acc = Ok cf0 → grows cf cf0) →
  foldl (fun acc k =>
           cf ← acc;
           dep ← expr_value k;
           Ok (match dep with
               | PStr dep_name =>
                   if bool_decide (is_Some (classes cf !! dep_name))
                   then _update_class_dependency name dep_name cf
                   else cf
               | PNode _ => cf
               end))
        acc elements = Ok cf' →
  grows cf cf'.
Proof.
  revert acc. induction elements as [|k elements IH]; intros acc Hacc; simpl.
  - intros H. by apply Hacc.
  - apply IH. intros cf0 H0.
    destruct acc as [cf1|e]; simpl in H0; [|done].
    destruct (expr_value k) as [[d|d]|e]; simpl in H0; [| |done].
    + injection H0 as <-. case_bool_decide.
      * eapply grows_trans; [by apply Hacc | apply update_grows].
      * by apply Hacc.
    + injection H0 as <-. by apply Hacc.
Qed.

Lemma leave_Decorator_fold_grows parent_name sc (args : list expr) acc cf cf' :
  (∀ cf0, acc = Ok cf0 → grows cf cf0) →
  foldl (fun acc k =>
           cf ← acc;
           v ← expr_value k;
           match v with
           | PStr v =>
               if bool_decide (is_Some (assignments cf !! v)) then
                 prefix ← name_prefix_of sc;
                 let name := if bool_decide (prefix = "") then parent_name
                             else first_component prefix in
                 Ok (_update_class_dependency name v cf)
               else Ok cf
           | PNode _ => Ok cf
           end)
        acc args = Ok cf' →
  grows cf cf'.
Proof.
  revert acc. induction args as [|k args IH]; intros acc Hacc; simpl.
  - intros H. by apply Hacc.
  - apply IH. intros cf0 H0.
    destruct acc as [cf1|e]; simpl in H0; [|done].
    destruct (expr_value k) as [[d|d]|e]; simpl in H0; [| |done].
    + case_bool_decide.
      * destruct (name_prefix_of sc) as [p|e]; simpl in H0; [|done].
        injection H0 as <-.
        eapply grows_trans; [by apply Hacc | apply update_grows].
      * injection H0 as <-. by apply Hacc.
    + injection H0 as <-. by apply Hacc.
Qed.

Lemma leave_If_fold_grows node (l : list (stmt * nat)) cf :
  grows cf (foldl (fun cf si => if is_import_line si.1 then set_imports si.2 node cf else cf)
                  cf l).
Proof.
  revert cf. induction l as [|x l IH]; intros cf; simpl.
  - apply grows_refl.
  - eapply grows_trans; [|apply IH].
    destruct (is_import_line x.1); intros k; done.
Qed.

Lemma step_grows ev cf cf' : step ev cf = Ok cf' → grows cf cf'.
Proof.
  destruct ev as [n|n pm names_id|n pm|n ids|value sc|value parent
                 |elements parent_targets|decorator parent_name sc|start_line]; simpl.
  - intros [= <-]. apply visit_ClassDef_grows.
  - unfold visit_SimpleStatementLine. intros H.
    apply bind_Ok in H as (cf1 & Hc & H). injection H as <-.
    assert (grows cf cf1) as Hg.
    { repeat case_match; simplify_eq/=; try apply grows_refl.
      apply bind_Ok in Hc as (key & _ & Hc).
      destruct key; simplify_eq/=; intros k; done. }
    eapply grows_trans; [exact Hg|].
    destruct (is_import_line n); intros k; done.
  - intros [= <-]. destruct n; simpl; try apply grows_refl.
    destruct pm; [intros k; done | apply grows_refl].
  - intros [= <-]. destruct n; simpl; try apply grows_refl.
    apply leave_If_fold_grows.
  - unfold leave_Name. destruct (is_known value cf); [|intros [= <-]; apply grows_refl].
    destruct sc; simpl; intros [= <-]; try apply grows_refl; apply update_grows.
  - intros [= <-]. unfold leave_Arg.
    destruct value; try apply grows_refl.
    destruct parent as [[? ?|? ? ? ? ?|? ? bases ?|? ? ? ?|? ? ?]|]; try apply grows_refl.
    destruct bases; [apply grows_refl | apply update_grows].
  - unfold leave_Dict.
    destruct parent_targets as [[|t [|? ?]]|]; try (intros [= <-]; apply grows_refl).
    destruct (expr_value t) as [[name|e]|e]; simpl; [| intros [= <-]; apply grows_refl | done].
    case_bool_decide; [|intros [= <-]; apply grows_refl].
    apply leave_Dict_fold_grows. intros cf0 [= <-]. apply grows_refl.
  - unfold leave_Decorator.
    destruct decorator; try (intros [= <-]; apply grows_refl).
    apply leave_Decorator_fold_grows. intros cf0 [= <-]. apply grows_refl.
  - intros [= <-]. intros k. done.
Qed.

Lemma run_grows evs cf cf' : run evs cf = Ok cf' → grows cf cf'.
Proof.
  revert cf. induction evs as [|ev evs IH]; intros cf; simpl.
  - intros [= <-]. apply grows_refl.
  - destruct (step ev cf) as [cf1|e] eqn:Hs; simpl; [|done].
    intros H. eapply grows_trans; [by eapply step_grows | by apply IH].
Qed.

(** After a class definition is visited, the set recorded for the class
    includes the set each of its bases had when the visit began. *)
Lemma visit_ClassDef_bases_included name (bases : list (expr * string)) b cf :
  b ∈ bases →
  deps cf (Codegen.code_for_arg b)
  ⊆ deps (foldl (fun cf k => _update_class_dependency name (Codegen.code_for_arg k) cf)
                cf bases) name.
Proof.
  revert cf. induction bases as [|b0 bases IH]; intros cf Hin; simpl.
  - by apply elem_of_nil in Hin.
  - apply elem_of_cons in Hin as [->|Hin].
    + etrans; [|apply visit_ClassDef_bases_grow].
      unfold deps, _update_class_dependency; simpl.
      rewrite recorded_update_self. set_solver.
    + etrans; [|by apply IH]. apply update_grows.
Qed.

Lemma finder_run_app evs1 evs2 cf :
  run (evs1 ++ evs2) cf = cf' ← run evs1 cf; run evs2 cf'.
Proof.
  revert cf. induction evs1 as [|ev evs1 IH]; intros cf; simpl; [done|].
  destruct (step ev cf) as [cf1|e]; simpl; [apply IH | done].
Qed.

(** When the argument that names a base is left, the class takes over
    the name of the base and the set recorded for it. *)
Lemma leave_Arg_included ll name b0 bases body b cf :
  b ∈ deps (leave_Arg (Name b) (Some (ClassDef ll name (b0 :: bases) body)) cf) name
  ∧ deps cf b
    ⊆ deps (leave_Arg (Name b) (Some (ClassDef ll name (b0 :: bases) body)) cf) name.
Proof.
  cbn [leave_Arg]. unfold deps, _update_class_dependency; cbn [class_dependency_mapping].
  rewrite recorded_update_self. set_solver.
Qed.

(** C5.  A call [_update_class_dependency(name, value)] makes the set
    recorded for [name] the union of its previous set, [{value}] and the
    set recorded for [value]; no callback of a traversal ever shrinks a
    recorded set.  A class definition is visited and then each argument
    of its header is left.  The visit records every base under the text
    of its argument, comma included, with what was recorded under that
    text at any earlier point of the traversal.  Leaving the argument of
    a base that is a name records the name itself: from then on the set
    recorded for the class holds the base and whatever was recorded for
    the base at any earlier point of the traversal. *)
Theorem dependency_sets_accumulate :
  (∀ name value cf,
      deps (_update_class_dependency name value cf) name
      = deps cf name ∪ {[ value ]} ∪ deps cf value)
  ∧ (∀ evs cf cf', run evs cf = Ok cf' → ∀ k, deps cf k ⊆ deps cf' k)
  ∧ (∀ earlier later ll name bases body cf0 cf1 cf2 b,
        run earlier cf0 = Ok cf1 →
        run (VisitClassDef (ClassDef ll name bases body) :: later) cf1 = Ok cf2 →
        b ∈ bases →
        deps cf0 (Codegen.code_for_arg b) ⊆ deps cf2 name)
  ∧ (∀ earlier between later ll name bases body cf0 cf1 cf2 b comma,
        run earlier cf0 = Ok cf1 →
        (Name b, comma) ∈ bases →
        run (VisitClassDef (ClassDef ll name bases body) :: between
             ++ LeaveArg (Name b) (Some (ClassDef ll name bases body)) :: later) cf1
        = Ok cf2 →
        b ∈ deps cf2 name ∧ deps cf0 b ⊆ deps cf2 name).
Proof.
  split; [|split; [|split]].
  - intros name value cf. apply recorded_update_self.
  - intros evs cf cf' H k. by apply (run_grows evs).
  - intros earlier later ll name bases body cf0 cf1 cf2 b H01 H12 Hb.
    simpl in H12.
    etrans; [apply (run_grows _ _ _ H01)|].
    etrans; [|apply (run_grows _ _ _ H12)].
    by apply (visit_ClassDef_bases_included name bases b
                (set_classes name (ClassDef ll name bases body) cf1)).
  - intros earlier between later ll name bases body cf0 cf1 cf2 b comma H01 Hb H12.
    change (VisitClassDef ?c :: ?l ++ ?r) with ((VisitClassDef c :: l) ++ r) in H12.
    rewrite finder_run_app in H12.
    destruct (run (VisitClassDef (ClassDef ll name bases body) :: between) cf1)
      as [cf3|e] eqn:H13; [|done].
    cbn [mbind result_bind run step] in H12.
    destruct bases as [|b0 bases]; [by apply elem_of_nil in Hb|].
    destruct (leave_Arg_included ll name b0 bases body b cf3) as [Hin Hsub].
    pose proof (run_grows _ _ _ H12 name) as Hlater.
    split; [set_solver|].
    etrans; [apply (run_grows _ _ _ H01)|].
    etrans; [apply (run_grows _ _ _ H13)|].
    etrans; [exact Hsub | exact Hlater].
Qed.

(** A concrete traversal: of [class B(C)], then of [class A(B, D)]. *)
Definition class_B : stmt := ClassDef "" "B" [(Name "C", "")] [].
Definition class_A : stmt := ClassDef "" "A" [(Name "B", "")] [].
Definition class_A_two : stmt := ClassDef "" "A" [(Name "B", ", "); (Name "D", "")] [].

Definition after_class_B : class_finder :=
  leave_Arg (Name "C") (Some class_B) (visit_ClassDef class_B init).

Definition after_class_A_two : class_finder :=
  leave_Arg (Name "D") (Some class_A_two)
    (leave_Arg (Name "B") (Some class_A_two) (visit_ClassDef class_A_two after_class_B)).

Lemma dependency_sets_accumulate_witness :
  "B" ∈ deps after_class_A_two "A"
  ∧ deps after_class_B "B" ⊆ deps after_class_A_two "A".
Proof.
  apply (proj2 (proj2 (proj2 dependency_sets_accumulate))
           [] [] [LeaveArg (Name "D") (Some class_A_two)]
           "" "A" [(Name "B", ", "); (Name "D", "")] []
           after_class_B after_class_B after_class_A_two "B" ", ").
  - reflexivity.
  - apply list_elem_of_here.
  - reflexivity.
Defined.

(** The visit alone records the first base under the text of its
    argument, [B, ]; the names [B] and [C] come with the argument. *)
Example class_A_two_visited :
  deps (visit_ClassDef class_A_two after_class_B) "A" = {[ "B, "; "D" ]}.
Proof. vm_compute. reflexivity. Qed.

Example class_A_two_deps :
  deps after_class_A_two "A" = {[ "B, "; "D"; "B"; "C" ]}.
Proof. vm_compute. reflexivity. Qed.

Example class_A_deps :
  deps (visit_ClassDef class_A (visit_ClassDef class_B init)) "A" = {[ "B"; "C" ]}.
Proof. vm_compute. reflexivity. Qed.

(** *** The callbacks one by one *)

Import PyStrFacts.

Lemma update_mapping_idempotent name value (m : gmap string (gset string)) :
  update_mapping name value (update_mapping name value m) = update_mapping name value m.
Proof.
  unfold update_mapping at 1.
  rewrite recorded_update_self.
  destruct (decide (value = name)) as [->|Hne].
  - rewrite recorded_update_self. unfold update_mapping.
    rewrite insert_insert_eq. f_equal. set_solver.
  - rewrite recorded_update_other by done. unfold update_mapping.
    rewrite insert_insert_eq. f_equal. set_solver.
Qed.

(** X1.  A second call of [_update_class_dependency] with the same
    arguments changes nothing, and a call for [name] leaves the set
    recorded for every other name as it was. *)
Theorem update_class_dependency_idempotent name value cf :
  _update_class_dependency name value (_update_class_dependency name value cf)
  = _update_class_dependency name value cf
  ∧ (∀ k, k ≠ name → deps (_update_class_dependency name value cf) k = deps cf k).
Proof.
  split.
  - unfold _update_class_dependency. cbn. by rewrite update_mapping_idempotent.
  - intros k Hk. by apply recorded_update_other.
Qed.

Lemma first_component_top c rest :
  PyStr.mem "." c = false →
  first_component c = c ∧ first_component (c +:+ "." +:+ rest) = c.
Proof.
  intros Hc. unfold first_component. split.
  - by rewrite split_no_sep.
  - change (c +:+ "." +:+ rest) with (c +:+ String "." rest).
    by rewrite split_at_sep.
Qed.

(** X3.  A known name met inside a class or a function, at whatever
    depth, is recorded for the definition at the top level that holds
    it: the set of that definition gains the name and what was recorded
    for the name, and no other set changes. *)
Theorem leave_Name_top_level value c rest cf :
  PyStr.mem "." c = false →
  is_known value cf = true →
  ∃ cf', leave_Name value (LocalScope (c +:+ "." +:+ rest)) cf = Ok cf'
         ∧ leave_Name value (LocalScope c) cf = Ok cf'
         ∧ deps cf' c = deps cf c ∪ {[ value ]} ∪ deps cf value
         ∧ ∀ k, k ≠ c → deps cf' k = deps cf k.
Proof.
  intros Hc Hk. destruct (first_component_top c rest Hc) as [H1 H2].
  exists (_update_class_dependency c value cf).
  unfold leave_Name. rewrite Hk. cbn. rewrite H1, H2.
  split_and!; [done | done | apply recorded_update_self |].
  intros k Hne. by apply recorded_update_other.
Qed.

Lemma classes_update_fold name (bases : list (expr * string)) cf :
  classes (foldl (fun cf k => _update_class_dependency name (Codegen.code_for_arg k) cf)
                 cf bases) = classes cf.
Proof.
  revert cf. induction bases as [|b bases IH]; intros cf; simpl; [done|].
  by rewrite IH.
Qed.

(** X2.  Visiting a class definition stores the node under the name of
    the class and records the code of every base for it; the other
    classes and the sets of the other names stay as they were, and a
    class without bases leaves the dependency mapping untouched. *)
Theorem visit_ClassDef_registers ll name bases body cf :
  let node := ClassDef ll name bases body in
  classes (visit_ClassDef node cf) !! name = Some node
  ∧ (∀ k, k ≠ name → classes (visit_ClassDef node cf) !! k = classes cf !! k)
  ∧ (∀ b, b ∈ bases → Codegen.code_for_arg b ∈ deps (visit_ClassDef node cf) name)
  ∧ (∀ k, k ≠ name → deps (visit_ClassDef node cf) k = deps cf k)
  ∧ (bases = [] →
     class_dependency_mapping (visit_ClassDef node cf) = class_dependency_mapping cf).
Proof.
  intros node. unfold node, visit_ClassDef. split_and!.
  - rewrite classes_update_fold. cbn. by rewrite lookup_insert_eq.
  - intros k Hk. rewrite classes_update_fold. cbn. by rewrite lookup_insert_ne.
  - intros b Hb.
    set (cf0 := set_classes name (ClassDef ll name bases body) cf).
    clearbody cf0. revert cf0.
    induction bases as [|b0 bases IH]; intros cf0; [by apply elem_of_nil in Hb|].
    cbn [foldl]. apply elem_of_cons in Hb as [->|Hb].
    + apply (visit_ClassDef_bases_grow name bases).
      unfold deps, _update_class_dependency. cbn.
      rewrite recorded_update_self. set_solver.
    + by apply IH.
  - intros k Hk.
    set (cf0 := set_classes name (ClassDef ll name bases body) cf).
    change (deps cf k) with (deps cf0 k). clearbody cf0. revert cf0.
    induction bases as [|b0 bases IH]; intros cf0; [done|].
    cbn [foldl]. rewrite IH. by apply recorded_update_other.
  - by intros ->.
Qed.

(** X4.  [leave_Module] makes the global nodes of the functions, the
    classes and the assignments, a function taking precedence over a
    class and a class over an assignment of the same name; a name has a
    start line exactly when it has a global node; the dependency mapping
    is not touched. *)
Theorem leave_Module_global_nodes start_line cf k :
  let cf' := leave_Module start_line cf in
  global_nodes cf' !! k
  = match function_def cf !! k with
    | Some n => Some n
    | None => match classes cf !! k with
              | Some n => Some n
              | None => assignments cf !! k
              end
    end
  ∧ class_start_line cf' !! k
    = (if global_nodes cf' !! k is Some _ then Some (start_line k) else None)
  ∧ class_dependency_mapping cf' = class_dependency_mapping cf.
Proof.
  intros cf'. unfold cf', leave_Module. cbn. split_and!.
  - rewrite !lookup_union.
    destruct (function_def cf !! k), (classes cf !! k), (assignments cf !! k); done.
  - rewrite map_lookup_imap.
    by destruct ((function_def cf ∪ classes cf ∪ assignments cf) !! k).
  - done.
Qed.

Lemma leave_Name_top_level_witness :
  ∃ cf', leave_Name "B" (LocalScope ("A" +:+ "." +:+ "forward.<locals>"))
           (visit_ClassDef class_B init)
         = Ok cf'
         ∧ leave_Name "B" (LocalScope "A") (visit_ClassDef class_B init) = Ok cf'
         ∧ deps cf' "A"
           = deps (visit_ClassDef class_B init) "A" ∪ {[ "B" ]}
             ∪ deps (visit_ClassDef class_B init) "B"
         ∧ ∀ k, k ≠ "A" → deps cf' k = deps (visit_ClassDef class_B init) k.
Proof.
  apply (leave_Name_top_level "B" "A" "forward.<locals>" (visit_ClassDef class_B init)).
  - reflexivity.
  - vm_compute. reflexivity.
Defined.

(** *** Decorators and dictionaries *)

(** Recording for [name] each of the names [vs] that [known] accepts. *)
Definition record_all (known : class_finder → string → bool) (name : string)
    (vs : list string) (cf : class_finder) : class_finder :=
  foldl (fun cf v => if known cf v then _update_class_dependency name v cf else cf) cf vs.

Lemma record_all_spec known name vs cf :
  (∀ n v cf0 x, known (_update_class_dependency n v cf0) x = known cf0 x) →
  let cf' := record_all known name vs cf in
  (∀ x, known cf' x = known cf x)
  ∧ classes cf' = classes cf
  ∧ assignments cf' = assignments cf
  ∧ function_def cf' = function_def cf
  ∧ grows cf cf'
  ∧ (∀ v, v ∈ vs → known cf v = true → v ∈ deps cf' name)
  ∧ (∀ k, k ≠ name → deps cf' k = deps cf k)
  ∧ (Forall (fun v => known cf v = false) vs → cf' = cf).
Proof.
  intros Hknown. cbn zeta. unfold record_all. revert cf.
  induction vs as [|v vs IH]; intros cf.
  - cbn. split_and!; try done; [apply grows_refl|].
    intros v Hv. by apply elem_of_nil in Hv.
  - cbn [foldl].
    set (cf1 := if known cf v then _update_class_dependency name v cf else cf).
    assert ((∀ x, known cf1 x = known cf x)
            ∧ classes cf1 = classes cf ∧ assignments cf1 = assignments cf
            ∧ function_def cf1 = function_def cf ∧ grows cf cf1
            ∧ (known cf v = true → v ∈ deps cf1 name)
            ∧ (∀ k, k ≠ name → deps cf1 k = deps cf k)
            ∧ (known cf v = false → cf1 = cf)) as (Hk1 & Hc1 & Ha1 & Hf1 & Hg1 & Hv1 & Ho1 & Hi1).
    { subst cf1. destruct (known cf v) eqn:Hv.
      - split_and!; [by intros; apply Hknown | done | done | done | apply update_grows | |
                     | done].
        + intros _. unfold deps, _update_class_dependency. cbn.
          rewrite recorded_update_self. set_solver.
        + intros k Hk. by apply recorded_update_other.
      - split_and!; try done. apply grows_refl. }
    destruct (IH cf1) as (Hk & Hc & Ha & Hf & Hg & Hv & Ho & Hi).
    split_and!.
    + intros x. by rewrite Hk, Hk1.
    + congruence.
    + congruence.
    + congruence.
    + by eapply grows_trans.
    + intros v' Hv' Hkn. apply elem_of_cons in Hv' as [->|Hv'].
      * apply Hg. by apply Hv1.
      * apply Hv; [done|]. by rewrite Hk1.
    + intros k Hk'. by rewrite Ho, Ho1.
    + intros Hall. apply Forall_cons in Hall as [Hv0 Hall].
      rewrite Hi; [by apply Hi1|].
      rewrite (Hi1 Hv0). done.
Qed.

(** The body of the loop of [leave_Decorator]. *)
Definition decorator_step (parent_name : string) (sc : scope)
    (acc : result class_finder) (k : expr) : result class_finder :=
  cf ← acc;
  v ← expr_value k;
  match v with
  | PStr v =>
      if bool_decide (is_Some (assignments cf !! v)) then
        prefix ← name_prefix_of sc;
        let name := if bool_decide (prefix = "") then parent_name
                    else first_component prefix in
        Ok (_update_class_dependency name v cf)
      else Ok cf
  | PNode _ => Ok cf
  end.

Lemma leave_Decorator_names func (vs : list string) parent_name sc prefix cf :
  name_prefix_of sc = Ok prefix →
  leave_Decorator (Call func (Name <$> vs)) parent_name sc cf
  = Ok (record_all (fun cf v => bool_decide (is_Some (assignments cf !! v)))
          (if bool_decide (prefix = "") then parent_name else first_component prefix)
          vs cf).
Proof.
  intros Hsc.
  change (leave_Decorator (Call func (Name <$> vs)) parent_name sc cf)
    with (foldl (decorator_step parent_name sc) (Ok cf) (Name <$> vs)).
  unfold record_all. revert cf.
  induction vs as [|v vs IH]; intros cf; [done|].
  cbn [fmap list_fmap foldl].
  assert (decorator_step parent_name sc (Ok cf) (Name v)
          = Ok (if bool_decide (is_Some (assignments cf !! v))
                then _update_class_dependency
                       (if bool_decide (prefix = "") then parent_name
                        else first_component prefix) v cf
                else cf)) as ->.
  { unfold decorator_step. cbn [mbind result_bind expr_value].
    change (Ok cf ≫= ?f) with (f cf). cbn beta.
    change (Ok (PStr v) ≫= ?f) with (f (PStr v)). cbn beta iota.
    destruct (bool_decide (is_Some (assignments cf !! v))); [|done]. by rewrite Hsc. }
  apply IH.
Qed.

(** X26.  A decorator call whose arguments are names records, for the
    decorated definition (or, inside a class or function, for the
    definition at the top level that holds it), every argument that is a
    global assignment; nothing else changes, and nothing at all when no
    argument is a global assignment. *)
Theorem leave_Decorator_records func (vs : list string) parent_name sc prefix cf :
  name_prefix_of sc = Ok prefix →
  let name := if bool_decide (prefix = "") then parent_name else first_component prefix in
  ∃ cf',
    leave_Decorator (Call func (Name <$> vs)) parent_name sc cf = Ok cf'
    ∧ (∀ v, v ∈ vs → is_Some (assignments cf !! v) → v ∈ deps cf' name)
    ∧ (∀ k, deps cf k ⊆ deps cf' k)
    ∧ (∀ k, k ≠ name → deps cf' k = deps cf k)
    ∧ classes cf' = classes cf ∧ assignments cf' = assignments cf
    ∧ function_def cf' = function_def cf
    ∧ (Forall (fun v => assignments cf !! v = None) vs → cf' = cf).
Proof.
  intros Hsc name. eexists. split; [by apply leave_Decorator_names|]. fold name.
  destruct (record_all_spec (fun cf v => bool_decide (is_Some (assignments cf !! v)))
              name vs cf) as (_ & Hc & Ha & Hf & Hg & Hv & Ho & Hi); [done|].
  split_and!; [|done..|].
  - intros v Hin Hsome. apply Hv; [done|]. by apply bool_decide_eq_true_2.
  - intros Hall. apply Hi. eapply Forall_impl; [exact Hall|].
    intros v Hnone. cbn. apply bool_decide_eq_false_2. rewrite Hnone. by intros [? ?].
Qed.

(** The body of the loop of [leave_Dict]. *)
Definition dict_step (name : string) (acc : result class_finder) (k : expr)
  : result class_finder :=
  cf ← acc;
  dep ← expr_value k;
  Ok (match dep with
      | PStr dep_name =>
          if bool_decide (is_Some (classes cf !! dep_name))
          then _update_class_dependency name dep_name cf
          else cf
      | PNode _ => cf
      end).

Lemma leave_Dict_names (vs : list string) name cf :
  is_Some (assignments cf !! name) →
  leave_Dict (Name <$> vs) (Some [Name name]) cf
  = Ok (record_all (fun cf v => bool_decide (is_Some (classes cf !! v))) name vs cf).
Proof.
  intros Hname.
  assert (leave_Dict (Name <$> vs) (Some [Name name]) cf
          = foldl (dict_step name) (Ok cf) (Name <$> vs)) as ->.
  { unfold leave_Dict. cbn [expr_value].
    change (Ok (PStr name) ≫= ?f) with (f (PStr name)). cbn beta iota.
    by rewrite bool_decide_eq_true_2. }
  unfold record_all. clear Hname. revert cf.
  induction vs as [|v vs IH]; intros cf; [done|].
  cbn [fmap list_fmap foldl].
  assert (dict_step name (Ok cf) (Name v)
          = Ok (if bool_decide (is_Some (classes cf !! v))
                then _update_class_dependency name v cf else cf)) as -> by reflexivity.
  apply IH.
Qed.

(** X27.  A dictionary of names assigned to a global name records, for
    that name, every value that is a class seen so far; nothing else
    changes.  A dictionary assigned to a name that is not a global
    assignment records nothing. *)
Theorem leave_Dict_records (vs : list string) name cf :
  (is_Some (assignments cf !! name) →
   ∃ cf',
     leave_Dict (Name <$> vs) (Some [Name name]) cf = Ok cf'
     ∧ (∀ v, v ∈ vs → is_Some (classes cf !! v) → v ∈ deps cf' name)
     ∧ (∀ k, deps cf k ⊆ deps cf' k)
     ∧ (∀ k, k ≠ name → deps cf' k = deps cf k)
     ∧ classes cf' = classes cf ∧ assignments cf' = assignments cf
     ∧ function_def cf' = function_def cf)
  ∧ (assignments cf !! name = None →
     leave_Dict (Name <$> vs) (Some [Name name]) cf = Ok cf).
Proof.
  split.
  - intros Hname. eexists. split; [by apply leave_Dict_names|].
    destruct (record_all_spec (fun cf v => bool_decide (is_Some (classes cf !! v)))
                name vs cf) as (_ & Hc & Ha & Hf & Hg & Hv & Ho & _); [done|].
    split_and!; [|done..].
    intros v Hin Hsome. apply Hv; [done|]. by apply bool_decide_eq_true_2.
  - intros Hnone. unfold leave_Dict. cbn [expr_value].
    change (Ok (PStr name) ≫= ?f) with (f (PStr name)). cbn beta iota.
    rewrite bool_decide_eq_false_2; [done|]. rewrite Hnone. by intros [? ?].
Qed.


(** A finder that has seen the global assignment [LLAMA_DOC = "..."]. *)
Definition doc_line : stmt :=
  SimpleStatementLine "" [Assign [Name "LLAMA_DOC"] (SimpleString "'The model.'")].

Definition doc_finder : class_finder := set_assignments "LLAMA_DOC" doc_line init.

(** [@add_start_docstrings(LLAMA_DOC)] in front of [class LlamaModel]. *)
Lemma leave_Decorator_records_witness :
  ∃ cf',
    leave_Decorator (Call (Name "add_start_docstrings") (Name <$> ["LLAMA_DOC"]))
      "LlamaModel" GlobalScope doc_finder = Ok cf'
    ∧ (∀ v, v ∈ ["LLAMA_DOC"] → is_Some (assignments doc_finder !! v) →
            v ∈ deps cf' "LlamaModel")
    ∧ (∀ k, deps doc_finder k ⊆ deps cf' k)
    ∧ (∀ k, k ≠ "LlamaModel" → deps cf' k = deps doc_finder k)
    ∧ classes cf' = classes doc_finder ∧ assignments cf' = assignments doc_finder
    ∧ function_def cf' = function_def doc_finder
    ∧ (Forall (fun v => assignments doc_finder !! v = None) ["LLAMA_DOC"] → cf' = doc_finder).
Proof.
  apply (leave_Decorator_records (Name "add_start_docstrings") ["LLAMA_DOC"]
           "LlamaModel" GlobalScope "" doc_finder).
  reflexivity.
Defined.

Example leave_Decorator_sample :
  deps (match leave_Decorator (Call (Name "add_start_docstrings") [Name "LLAMA_DOC"])
                "LlamaModel" GlobalScope doc_finder with
        | Ok cf => cf
        | Raise _ => init
        end) "LlamaModel"
  = {[ "LLAMA_DOC" ]}.
Proof. vm_compute. reflexivity. Qed.

End FinderFacts.

(** ** Facts about the renamer *)

Module RenamerFacts.
Import Renamer.

(** A text cut into pieces: the occurrences of the model name that are
    meant to be renamed ([Word]) and every other character ([Lit]). *)
Inductive piece : Type :=
| Lit (c : ascii)
| Word (w : string).

Fixpoint render (ps : list piece) : string :=
  match ps with
  | [] => EmptyString
  | Lit c :: ps' => String c (render ps')
  | Word w :: ps' => w +:+ render ps'
  end.

(** [designated r ps]: scanning the text [render ps] with the patterns
    of [r], the matches found are exactly the [Word] pieces.  No pattern
    matches where a [Lit] character starts (there is no accidental
    occurrence), and each [Word] is matched as a whole. *)
Fixpoint designated (r : t) (ps : list piece) : Prop :=
  match_at true (patterns r).*1 (render ps) =
    match ps with
    | Word w :: ps' => Some (w, render ps')
    | _ => None
    end
  ∧ match ps with
    | [] => True
    | Lit _ :: ps' => designated r ps'
    | Word w :: ps' => w ≠ EmptyString ∧ designated r ps'
    end.

Definition rename_piece (r : t) (p : piece) : piece :=
  match p with
  | Lit c => Lit c
  | Word w => Word (replace r w)
  end.

Definition words (ps : list piece) : list string :=
  omap (fun p => match p with Word w => Some w | Lit _ => None end) ps.

Lemma length_append (a b : string) :
  String.length (a +:+ b) = (String.length a + String.length b)%nat.
Proof. induction a as [|c a IH]; simpl; [done | by rewrite IH]. Qed.

Lemma sub_no_match fuel r c rest :
  match_at true (patterns r).*1 (String c rest) = None →
  sub (S fuel) r (String c rest) = String c (sub fuel r rest).
Proof. intros H. simpl. by rewrite H. Qed.

Lemma sub_match fuel r text c w rest :
  match_at true (patterns r).*1 text = Some (String c w, rest) →
  sub (S fuel) r text = replace r (String c w) +:+ sub fuel r rest.
Proof. intros H. simpl. by rewrite H. Qed.

Lemma sub_designated r ps fuel :
  designated r ps →
  (String.length (render ps) < fuel)%nat →
  sub fuel r (render ps) = render (List.map (rename_piece r) ps).
Proof.
  revert ps. induction fuel as [|fuel IH]; intros ps Hd Hlen; [lia|].
  destruct ps as [|[c|w] ps]; simpl in Hd; destruct Hd as [Hm Hd].
  - simpl. change (render []) with EmptyString in Hm. by rewrite Hm.
  - cbn [render] in *. rewrite (sub_no_match _ _ _ _ Hm).
    cbn [List.map rename_piece render]. f_equal.
    apply IH; [done|]. simpl in Hlen. lia.
  - destruct Hd as [Hw Hd]. destruct w as [|c w]; [done|].
    rewrite (sub_match _ _ _ _ _ _ Hm).
    cbn [List.map rename_piece render]. f_equal.
    apply IH; [done|].
    cbn [render] in Hlen. rewrite length_append in Hlen. simpl in Hlen. lia.
Qed.

Lemma preserve_case_replace_designated r ps :
  designated r ps →
  preserve_case_replace r (render ps) = render (List.map (rename_piece r) ps).
Proof. intros Hd. apply sub_designated; [done | lia]. Qed.

(** The three case forms of a name. *)
Definition forms (name : string) : list string :=
  [name; PyStr.upper name; pascal name].

(** Looking a form of [old] up in the table for [(old, new)] and the
    result in the table for [(new, old)] gives the form back, provided
    the three forms of [new] differ from one another. *)
Lemma replace_back old new w :
  NoDup (forms new) →
  w ∈ forms old →
  replace (init new old) (replace (init old new) w) = w.
Proof.
  unfold forms. intros Hnd Hw.
  apply NoDup_cons in Hnd as [Hn1 Hnd].
  apply NoDup_cons in Hnd as [Hn2 _].
  rewrite !elem_of_cons in Hw. rewrite !elem_of_cons in Hn1.
  rewrite !elem_of_cons in Hn2.
  unfold replace, init. cbn [patterns default_name].
  rewrite (dict_get_display3 old (PyStr.upper old) (pascal old)).
  destruct Hw as [->|[->|[->|Hw]]]; [| | | by apply elem_of_nil in Hw];
    repeat case_decide; cbn [default];
    rewrite dict_get_display3; repeat case_decide; cbn [default];
    first [ done | congruence | naive_solver ].
Qed.

Lemma rename_back old new ps :
  NoDup (forms new) →
  Forall (fun w => w ∈ forms old) (words ps) →
  List.map (rename_piece (init new old)) (List.map (rename_piece (init old new)) ps) = ps.
Proof.
  intros Hnd. induction ps as [|[c|w] ps IH]; simpl; intros Hw.
  - done.
  - f_equal. by apply IH.
  - apply Forall_cons in Hw as [Hw Hws].
    f_equal; [|by apply IH]. f_equal. by apply replace_back.
Qed.

(** C4, as amended.  Let the three case forms of [new] differ from one
    another, and let the text consist of occurrences of the snake_case,
    UPPER_CASE and PascalCase forms of [old] and of other characters,
    such that the patterns match exactly at those occurrences, before
    the renaming and after it.  Then renaming [old] to [new] and
    renaming [new] back to [old] gives the text back. *)
Theorem rename_round_trip old new ps :
  NoDup (forms new) →
  Forall (fun w => w ∈ forms old) (words ps) →
  designated (init old new) ps →
  designated (init new old) (List.map (rename_piece (init old new)) ps) →
  preserve_case_replace (init new old)
    (preserve_case_replace (init old new) (render ps))
  = render ps.
Proof.
  intros Hnd Hw Hd1 Hd2.
  rewrite (preserve_case_replace_designated _ _ Hd1).
  rewrite (preserve_case_replace_designated _ _ Hd2).
  by rewrite rename_back.
Qed.

Definition sample_text : list piece :=
  [ Lit "c"; Lit "l"; Lit "a"; Lit "s"; Lit "s"; Lit " ";
    Word "Llama"; Lit "M"; Lit "o"; Lit "d"; Lit "e"; Lit "l"; Lit ":"; Lit " ";
    Word "LLAMA"; Lit "_"; Lit "D"; Lit "O"; Lit "C"; Lit " ";
    Word "llama"; Lit "_"; Lit "x" ].

Example sample_text_rendered :
  render sample_text = "class LlamaModel: LLAMA_DOC llama_x".
Proof. reflexivity. Qed.

Lemma rename_round_trip_witness :
  preserve_case_replace (init "gemma" "llama")
    (preserve_case_replace (init "llama" "gemma") (render sample_text))
  = render sample_text.
Proof.
  apply (rename_round_trip "llama" "gemma" sample_text).
  - apply (bool_decide_unpack _). vm_compute. exact I.
  - apply (bool_decide_unpack _). vm_compute. exact I.
  - vm_compute. repeat split; discriminate.
  - vm_compute. repeat split; discriminate.
Defined.

(** C4 as stated fails when two case forms of the new name coincide:
    ["t5"] has the UPPER_CASE and the PascalCase form ["T5"].  The text
    ["LLAMA"] is one UPPER_CASE occurrence of ["llama"], matched as
    such, and comes back as ["Llama"]. *)
Lemma rename_round_trip_counterexample :
  designated (init "llama" "t5") [Word "LLAMA"]
  ∧ preserve_case_replace (init "llama" "t5") "LLAMA" = "T5"
  ∧ preserve_case_replace (init "t5" "llama") "T5" = "Llama"
  ∧ preserve_case_replace (init "t5" "llama")
      (preserve_case_replace (init "llama" "t5") "LLAMA") ≠ "LLAMA".
Proof.
  split; [vm_compute; repeat split; discriminate|].
  split; [vm_compute; reflexivity|].
  split; [vm_compute; reflexivity|].
  vm_compute. discriminate.
Qed.

(** The patterns must also match exactly at the renamed occurrences
    afterwards: a text that already holds the new name does not come
    back. *)
Example rename_with_new_name_present :
  preserve_case_replace (init "gemma" "llama")
    (preserve_case_replace (init "llama" "gemma") "llama gemma")
  = "llama llama".
Proof. vm_compute. reflexivity. Qed.

(** *** What is replaced, and by what *)

Import PyStrFacts.

(** X5.  Whatever text is matched, the inner function [replace] returns
    one of the three case forms of the new name. *)
Theorem replace_gives_form_of_new old new w :
  replace (init old new) w ∈ forms new.
Proof.
  unfold replace, init, forms. cbn [patterns default_name].
  rewrite (dict_get_display3 old (PyStr.upper old) (pascal old)).
  repeat case_decide; cbn [default]; rewrite !elem_of_cons; auto.
Qed.

Lemma to_lower_to_upper c : PyStr.to_lower (PyStr.to_upper c) = PyStr.to_lower c.
Proof. destruct c as [[] [] [] [] [] [] [] []]; reflexivity. Qed.

Lemma lower_upper s : PyStr.lower (PyStr.upper s) = PyStr.lower s.
Proof.
  unfold PyStr.lower, PyStr.upper.
  induction s as [|c s IH]; [done|]. cbn [PyStr.map].
  by rewrite to_lower_to_upper, IH.
Qed.

Lemma match_ci_startswith key text w r :
  match_ci key text = Some (w, r) →
  PyStr.startswith (PyStr.lower key) (PyStr.lower text) = true.
Proof.
  unfold PyStr.startswith, PyStr.lower.
  revert text w r. induction key as [|k key IH]; intros text w r; [done|].
  destruct text as [|c text]; [done|]. cbn [match_ci PyStr.map PyStr.strip_prefix].
  destruct (Ascii.eqb (PyStr.to_lower k) (PyStr.to_lower c)); [|done].
  destruct (match_ci key text) as [[w' r']|] eqn:Hm; [|done].
  intros _. by apply (IH _ _ _ Hm).
Qed.

Lemma match_at_absent allow (keys : list string) text :
  Forall (fun k => PyStr.contains (PyStr.lower k) (PyStr.lower text) = false) keys →
  match_at allow keys text = None.
Proof.
  induction 1 as [|k keys Hk _ IH]; [done|]. cbn [match_at].
  destruct (match_ci k text) as [[w r]|] eqn:Hm; [|done].
  apply match_ci_startswith in Hm. apply contains_startswith in Hk. congruence.
Qed.

Lemma sub_absent fuel r text :
  Forall (fun k => PyStr.contains (PyStr.lower k) (PyStr.lower text) = false) (patterns r).*1 →
  sub fuel r text = text.
Proof.
  revert text. induction fuel as [|fuel IH]; intros text Hk; [done|].
  cbn [sub]. rewrite (match_at_absent true _ _ Hk).
  destruct text as [|c text]; [done|]. f_equal. apply IH.
  eapply Forall_impl; [exact Hk|]. intros k. apply contains_cons.
Qed.

(** The keys of the table are among the three case forms of the old
    name. *)
Lemma patterns_keys old new k :
  k ∈ (patterns (init old new)).*1 → k ∈ forms old.
Proof.
  unfold init, forms. cbn [patterns]. intros Hk.
  apply list_elem_of_fmap in Hk as ([k' v] & -> & Hk). cbn [fst].
  destruct (dict_get k' (dict_of_list [(old, new); (PyStr.upper old, PyStr.upper new);
                                       (pascal old, pascal new)])) eqn:Hget.
  - rewrite dict_get_display3 in Hget.
    rewrite !elem_of_cons. repeat case_decide; simplify_eq; auto.
  - apply dict_get_None in Hget. exfalso. apply Hget.
    apply list_elem_of_fmap. by exists (k', v).
Qed.

(** X6.  A text in which neither the old name nor its PascalCase form
    occurs, letter case ignored, is left as it is. *)
Theorem rename_without_occurrence old new text :
  PyStr.contains (PyStr.lower old) (PyStr.lower text) = false →
  PyStr.contains (PyStr.lower (pascal old)) (PyStr.lower text) = false →
  preserve_case_replace (init old new) text = text.
Proof.
  intros Hold Hpascal. apply sub_absent.
  apply Forall_forall. intros k Hk. apply patterns_keys in Hk.
  unfold forms in Hk. rewrite !elem_of_cons in Hk.
  destruct Hk as [->|[->|[->|Hk]]]; [done | by rewrite lower_upper | done |].
  by apply elem_of_nil in Hk.
Qed.

Lemma rename_without_occurrence_witness :
  preserve_case_replace (init "llama" "gemma") "class BertModel(nn.Module):"
  = "class BertModel(nn.Module):".
Proof.
  apply (rename_without_occurrence "llama" "gemma" "class BertModel(nn.Module):");
    vm_compute; reflexivity.
Defined.

Lemma match_ci_same_case key w :
  PyStr.lower key = PyStr.lower w → match_ci key w = Some (w, EmptyString).
Proof.
  unfold PyStr.lower. revert w. induction key as [|k key IH]; intros w H.
  - destruct w; [done | discriminate].
  - destruct w as [|c w]; [discriminate|]. cbn [PyStr.map] in H.
    injection H as Hc Hw. cbn [match_ci]. rewrite Hc, Ascii.eqb_refl.
    by rewrite (IH _ Hw).
Qed.

Lemma patterns_first_key old new :
  ∃ rest, (patterns (init old new)).*1 = old :: rest.
Proof.
  unfold init, dict_of_list, dict_update. cbn [patterns foldl fst snd dict_set].
  destruct (decide (PyStr.upper old = old)) as [Hu|Hu].
  - rewrite Hu. cbn [dict_set].
    destruct (decide (pascal old = old)) as [Hp|Hp].
    + rewrite Hp. by eexists.
    + by eexists.
  - cbn [dict_set].
    destruct (decide (pascal old = old)) as [Hp|Hp].
    + rewrite Hp. by eexists.
    + destruct (decide (pascal old = PyStr.upper old)); by eexists.
Qed.

Lemma match_at_empty_text (keys : list string) :
  Forall (fun k => k ≠ EmptyString) keys → match_at true keys EmptyString = None.
Proof.
  induction 1 as [|k keys Hk _ IH]; [done|]. cbn [match_at].
  destruct k; [done|]. exact IH.
Qed.

Lemma upper_nonempty s : s ≠ EmptyString → PyStr.upper s ≠ EmptyString.
Proof. by destruct s. Qed.

(** X7.  One occurrence of the old name, in whatever letter case, is
    renamed according to the table: the PascalCase form to the PascalCase
    form of the new name, the UPPER_CASE form to the UPPER_CASE form, the
    name itself to the new name, and any other mix of cases to the
    PascalCase form. *)
Theorem rename_case_variant old new w :
  old ≠ EmptyString → pascal old ≠ EmptyString →
  PyStr.lower w = PyStr.lower old →
  preserve_case_replace (init old new) w
  = if decide (w = pascal old) then pascal new
    else if decide (w = PyStr.upper old) then PyStr.upper new
    else if decide (w = old) then new
    else pascal new.
Proof.
  intros Hold Hpascal Hw.
  assert (w ≠ EmptyString) as Hne.
  { intros ->. destruct old; [done | discriminate]. }
  destruct w as [|c w]; [done|].
  unfold preserve_case_replace.
  destruct (patterns_first_key old new) as [rest Hkeys].
  assert (match_at true (patterns (init old new)).*1 (String c w)
          = Some (String c w, EmptyString)) as Hm.
  { rewrite Hkeys. cbn [match_at]. by rewrite (match_ci_same_case old (String c w)). }
  rewrite (sub_match _ _ _ _ _ _ Hm).
  assert (sub (String.length (String c w)) (init old new) EmptyString = EmptyString) as ->.
  { cbn [String.length sub]. rewrite match_at_empty_text; [done|].
    apply Forall_forall. intros k Hk. apply patterns_keys in Hk.
    unfold forms in Hk. rewrite !elem_of_cons in Hk.
    destruct Hk as [->|[->|[->|Hk]]];
      [done | by apply upper_nonempty | done | by apply elem_of_nil in Hk]. }
  rewrite append_empty_r. unfold replace, init. cbn [patterns default_name].
  rewrite (dict_get_display3 old (PyStr.upper old) (pascal old)).
  repeat case_decide; done.
Qed.

Lemma rename_case_variant_witness :
  preserve_case_replace (init "llama" "my_new_model") "LLaMa" = "MyNewModel".
Proof.
  apply (rename_case_variant "llama" "my_new_model" "LLaMa"); [done | done | reflexivity].
Defined.

End RenamerFacts.

(** ** Facts about the super-call resolver *)

Module SuperCallFacts.
Import SuperCall.

Section Splice.
Context {printer : Printer}.

(** [return super().m(...)], whatever the arguments. *)
Definition return_super (ll m : string) (args0 args1 : list expr) : stmt :=
  SimpleStatementLine ll
    [Return (Some (Call (Attribute (Call (Name "super") args0) m) args1))].

Lemma return_super_is_super_call ll m args0 args1 :
  is_super_call m (return_super ll m args0 args1) = true.
Proof.
  unfold return_super, is_super_call, is_super_call_expr.
  rewrite !bool_decide_eq_true_2; done.
Qed.

Lemma update_body_three hd p1 s1 s2 s3 ret :
  stripped_code s2 ≠ stripped_code s1 →
  stripped_code s2 ≠ stripped_code ret →
  stripped_code s3 ≠ stripped_code s1 →
  stripped_code s3 ≠ stripped_code ret →
  hd && (is_docstring s2 || is_docstring s3) = false →
  (stripped_code p1 = stripped_code s1 →
   update_body hd [p1; s2; s3] [s1; ret] = [s2; s3])
  ∧ (stripped_code p1 ≠ stripped_code s1 →
     stripped_code p1 ≠ stripped_code ret →
     hd && is_docstring p1 = false →
     update_body hd [p1; s2; s3] [s1; ret] = [p1; s2; s3]).
Proof.
  intros H21 H2r H31 H3r Hdoc.
  unfold update_body. cbn [List.map List.filter].
  rewrite (bool_decide_eq_false_2 (stripped_code s2 ∈ _)); [|set_solver].
  rewrite (bool_decide_eq_false_2 (stripped_code s3 ∈ _)); [|set_solver].
  split.
  - intros H11.
    rewrite (bool_decide_eq_true_2 (stripped_code p1 ∈ _)); [|set_solver].
    destruct hd, (is_docstring s2), (is_docstring s3); simpl in *; done.
  - intros H11 H1r Hp.
    rewrite (bool_decide_eq_false_2 (stripped_code p1 ∈ _)); [|set_solver].
    destruct hd, (is_docstring p1), (is_docstring s2), (is_docstring s3); simpl in *; done.
Qed.

(** C2, as amended.  Let the base method [m] have the body
    [[p1; s2; s3]] and the override the body [[s1; return super().m(...)]],
    where [s1] is not itself a call of [super().m], the stripped text of
    [s2] and of [s3] differs from that of [s1] and of the [return], and
    [s2], [s3] are not docstrings when [s1] is one.  Statements are
    compared by the text the printer gives them, the whitespace at both
    ends apart.  When [p1] prints as [s1] does, the merged method has
    the body [[s1; s2; s3]]: the copy of the parent is left out.  When
    [p1] prints otherwise than [s1] and than the [return], be it by a
    comment or by a space, and is no docstring beside a docstring [s1],
    the merged method has the body [[s1; p1; s2; s3]]: both are kept. *)
Theorem splice_without_duplicate
    original_methods updated_methods original m ll decorators ps
    p1 s1 s2 s3 rll args0 args1 :
  let ret := return_super rll m args0 args1 in
  dict_get (MName m) original_methods = Some original →
  body_of original = [p1; s2; s3] →
  dict_mem (MName m) updated_methods = true →
  is_super_call m s1 = false →
  stripped_code s2 ≠ stripped_code s1 →
  stripped_code s2 ≠ stripped_code ret →
  stripped_code s3 ≠ stripped_code s1 →
  stripped_code s3 ≠ stripped_code ret →
  is_docstring s1 && (is_docstring s2 || is_docstring s3) = false →
  (stripped_code p1 = stripped_code s1 →
   leave_FunctionDef original_methods updated_methods
     (FunctionDef ll decorators m ps [s1; ret])
   = Ok (FunctionDef ll decorators m ps [s1; s2; s3]))
  ∧ (stripped_code p1 ≠ stripped_code s1 →
     stripped_code p1 ≠ stripped_code ret →
     is_docstring s1 && is_docstring p1 = false →
     leave_FunctionDef original_methods updated_methods
       (FunctionDef ll decorators m ps [s1; ret])
     = Ok (FunctionDef ll decorators m ps [s1; p1; s2; s3])).
Proof.
  intros ret Horig Hbody Hupd Hs1 H21 H2r H31 H3r Hdoc.
  unfold leave_FunctionDef. rewrite Hupd.
  unfold replace_super_calls. cbn [foldl mbind result_bind].
  rewrite Hs1. cbn [foldl mbind result_bind app].
  subst ret. rewrite return_super_is_super_call, Horig, Hbody.
  destruct (update_body_three (is_docstring s1) p1 s1 s2 s3
              (return_super rll m args0 args1) H21 H2r H31 H3r Hdoc) as [Hsame Hother].
  split.
  - intros H11. by rewrite (Hsame H11).
  - intros H11 H1r Hp. by rewrite (Hother H11 H1r Hp).
Qed.

End Splice.

Section SpliceExamples.
Existing Instance canonical_printer.

(** A base method [forward] and an override that keeps the first
    statement and returns the parent's result. *)
Definition self_x : parameters :=
  Parameters [Param "self" ""; Param "x" ""] None [] None [].

Definition call_on_x (method : string) : stmt :=
  SimpleStatementLine ""
    [Assign [Name "x"] (Call (Attribute (Name "self") method) [Name "x"])].

Definition return_x : stmt := SimpleStatementLine "" [Return (Some (Name "x"))].

Definition return_super_forward : stmt := return_super "" "forward" [] [Name "x"].

Definition base_forward (s1 s2 s3 : stmt) : stmt :=
  FunctionDef "" [] "forward" self_x [s1; s2; s3].

Definition override_forward (s1 : stmt) : stmt :=
  FunctionDef "" [] "forward" self_x [s1; return_super_forward].

Example stripped_code_call :
  stripped_code (call_on_x "embed") = "x = self.embed(x)".
Proof. vm_compute. reflexivity. Qed.

(** The first statement of the base method with a comment, which the
    printer of the examples prints with it. *)
Definition commented_call : stmt :=
  SimpleStatementLine "# embed the input
"
    [Assign [Name "x"] (Call (Attribute (Name "self") "embed") [Name "x"])].

Example stripped_code_commented :
  stripped_code commented_call = "# embed the input
x = self.embed(x)".
Proof. vm_compute. reflexivity. Qed.

(** The override repeats the first statement of the base method as it
    is, and then with the comment left out. *)
Lemma splice_without_duplicate_witness :
  leave_FunctionDef
    (methods_of [base_forward (call_on_x "embed") (call_on_x "norm") return_x])
    (methods_of [override_forward (call_on_x "embed")])
    (override_forward (call_on_x "embed"))
  = Ok (base_forward (call_on_x "embed") (call_on_x "norm") return_x)
  ∧ leave_FunctionDef
      (methods_of [base_forward commented_call (call_on_x "norm") return_x])
      (methods_of [override_forward (call_on_x "embed")])
      (override_forward (call_on_x "embed"))
    = Ok (FunctionDef "" [] "forward" self_x
            [call_on_x "embed"; commented_call; call_on_x "norm"; return_x]).
Proof.
  split.
  - apply (splice_without_duplicate
             (methods_of [base_forward (call_on_x "embed") (call_on_x "norm") return_x])
             (methods_of [override_forward (call_on_x "embed")])
             (base_forward (call_on_x "embed") (call_on_x "norm") return_x)
             "forward" "" [] self_x
             (call_on_x "embed") (call_on_x "embed") (call_on_x "norm") return_x
             "" [] [Name "x"]).
    + reflexivity.
    + reflexivity.
    + reflexivity.
    + reflexivity.
    + vm_compute. discriminate.
    + vm_compute. discriminate.
    + vm_compute. discriminate.
    + vm_compute. discriminate.
    + reflexivity.
    + reflexivity.
  - apply (splice_without_duplicate
             (methods_of [base_forward commented_call (call_on_x "norm") return_x])
             (methods_of [override_forward (call_on_x "embed")])
             (base_forward commented_call (call_on_x "norm") return_x)
             "forward" "" [] self_x
             commented_call (call_on_x "embed") (call_on_x "norm") return_x
             "" [] [Name "x"]).
    + reflexivity.
    + reflexivity.
    + reflexivity.
    + reflexivity.
    + vm_compute. discriminate.
    + vm_compute. discriminate.
    + vm_compute. discriminate.
    + vm_compute. discriminate.
    + reflexivity.
    + vm_compute. discriminate.
    + vm_compute. discriminate.
    + reflexivity.
Defined.

(** C2 as stated fails when the base body repeats a statement: with
    [s2] textually equal to [s1] the second copy is taken for a
    duplicate of the override's [s1] and is dropped as well. *)
Lemma splice_counterexample :
  let s1 := call_on_x "layer" in
  let s2 := call_on_x "layer" in
  let s3 := return_x in
  leave_FunctionDef
    (methods_of [base_forward s1 s2 s3])
    (methods_of [override_forward s1])
    (override_forward s1)
  = Ok (FunctionDef "" [] "forward" self_x [s1; s3])
  ∧ leave_FunctionDef
      (methods_of [base_forward s1 s2 s3])
      (methods_of [override_forward s1])
      (override_forward s1)
    ≠ Ok (FunctionDef "" [] "forward" self_x [s1; s2; s3]).
Proof.
  split.
  - vm_compute. reflexivity.
  - vm_compute. discriminate.
Qed.

(** The same splice when the base method itself ends with the call the
    override makes: the parent's last statement is dropped. *)
Example splice_drops_equal_return :
  leave_FunctionDef
    (methods_of [base_forward (call_on_x "embed") (call_on_x "norm") return_super_forward])
    (methods_of [override_forward (call_on_x "embed")])
    (override_forward (call_on_x "embed"))
  = Ok (FunctionDef "" [] "forward" self_x [call_on_x "embed"; call_on_x "norm"]).
Proof. vm_compute. reflexivity. Qed.

(** When the override's first statement is itself the call
    [super().forward(x)], it is replaced by the parent body as well. *)
Definition call_super_forward : stmt :=
  SimpleStatementLine ""
    [Expr (Call (Attribute (Call (Name "super") []) "forward") [Name "x"])].

Example splice_replaces_first_statement :
  leave_FunctionDef
    (methods_of [base_forward call_super_forward (call_on_x "norm") return_x])
    (methods_of [override_forward call_super_forward])
    (override_forward call_super_forward)
  = Ok (FunctionDef "" [] "forward" self_x
          [call_on_x "norm"; return_x; call_on_x "norm"; return_x]).
Proof. vm_compute. reflexivity. Qed.

(** When the override starts with a docstring, a docstring of the parent
    body is dropped even though its text differs. *)
Definition docstring (text : string) : stmt :=
  SimpleStatementLine ""
    [Expr (SimpleString (triple_quote +:+ text +:+ triple_quote))].

Example docstring_is_docstring : is_docstring (docstring "Runs the model.") = true.
Proof. reflexivity. Qed.

Example splice_drops_parent_docstring :
  leave_FunctionDef
    (methods_of [base_forward (docstring "Runs the model.") (docstring "Note.") return_x])
    (methods_of [override_forward (docstring "Runs the model.")])
    (override_forward (docstring "Runs the model."))
  = Ok (FunctionDef "" [] "forward" self_x [docstring "Runs the model."; return_x]).
Proof. vm_compute. reflexivity. Qed.

(** The whole resolver on a class: the merged class keeps the header of
    the base class and the spliced method. *)
Definition sample_finder : class_finder :=
  Finder.visit_ClassDef
    (ClassDef "" "GemmaModel" [(Attribute (Name "nn") "Module", "")]
       [base_forward (call_on_x "embed") (call_on_x "norm") return_x])
    Finder.init.

Example replace_call_to_super_sample :
  replace_call_to_super sample_finder
    (ClassDef "" "GemmaModel" [(Name "LlamaModel", "")]
       [override_forward (call_on_x "embed")])
    "GemmaModel"
  = Ok (ClassDef "" "GemmaModel" [(Attribute (Name "nn") "Module", "")]
          [base_forward (call_on_x "embed") (call_on_x "norm") return_x]).
Proof. vm_compute. reflexivity. Qed.

End SpliceExamples.

(** *** Merging the parameters *)

Definition keyed (ps : list param) : list (string * param) :=
  List.map (fun k => (param_name k, k)) ps.

(** Every entry of a table of parameters sits under its own name. *)
Definition named (d : list (string * param)) : Prop :=
  Forall (fun kv => kv.1 = param_name kv.2) d.

Lemma named_keyed ps : named (keyed ps).
Proof. induction ps; constructor; done. Qed.

Lemma named_set p d : named d → named (dict_set (param_name p) p d).
Proof.
  intros Hd. induction Hd as [|[k v] d Hkv Hd IH]; simpl.
  - by repeat constructor.
  - case_decide; constructor; done.
Qed.

Lemma named_update d e : named d → named e → named (dict_update d e).
Proof.
  unfold dict_update. intros Hd He. revert d Hd.
  induction He as [|[k v] e Hkv He IH]; intros d Hd; simpl; [done|].
  apply IH. simpl in Hkv. subst k. by apply named_set.
Qed.

Lemma keyed_values d : named d → keyed (dict_values d) = d.
Proof.
  unfold dict_values, keyed.
  induction 1 as [|[k v] d Hkv Hd IH]; [done|].
  simpl in Hkv. subst k. change ((param_name v, v) :: List.map (fun k => (param_name k, k)) d.*2
                                 = (param_name v, v) :: d).
  f_equal. exact IH.
Qed.

Lemma names_of_values d : named d → List.map param_name (dict_values d) = d.*1.
Proof.
  unfold dict_values.
  induction 1 as [|[k v] d Hkv Hd IH]; [done|].
  simpl in Hkv. subst k.
  change (param_name v :: List.map param_name d.*2 = param_name v :: d.*1).
  f_equal. exact IH.
Qed.

Lemma named_by_name ps : named (by_name ps).
Proof. apply (named_update []); [constructor | apply named_keyed]. Qed.


(** [def forward(self, x, mask=None, **kwargs)] overridden by
    [def forward(self, mask, extra, **super_kwargs)]. *)
Definition base_params : parameters :=
  Parameters [Param "self" ""; Param "x" ""; Param "mask" "=None"]
    None [] (Some (Param "kwargs" "")) [].

Definition override_params : parameters :=
  Parameters [Param "self" ""; Param "mask" ": Tensor"; Param "extra" ""]
    None [] (Some (Param "super_kwargs" "")) [].

Definition override_class_body : list stmt :=
  [FunctionDef "" [] "forward" override_params []].


Example merged_signature_sample :
  merge_params base_params override_params
  = Parameters [Param "self" ""; Param "x" ""; Param "mask" ": Tensor"; Param "extra" ""]
      None [] (Some (Param "kwargs" "")) [].
Proof. vm_compute. reflexivity. Qed.


(** *** Docstrings *)

Import PyStr PyStrFacts.

Lemma after_first_contains a b c :
  ∃ r, after_first triple_quote (a +:+ triple_quote +:+ b +:+ triple_quote +:+ c) = Some r
       ∧ contains triple_quote r = true.
Proof.
  induction a as [|ch a IH].
  - exists (b +:+ triple_quote +:+ c). split.
    + change (EmptyString +:+ ?x) with x.
      destruct (triple_quote +:+ b +:+ triple_quote +:+ c) eqn:Hs;
        cbn [after_first]; rewrite <- Hs, strip_prefix_app; done.
    + apply contains_app_r, contains_here.
  - destruct IH as (r' & Hr' & Hc).
    change (String ch a +:+ ?x) with (String ch (a +:+ x)). cbn [after_first].
    destruct (strip_prefix triple_quote (String ch (a +:+ triple_quote +:+ b +:+ triple_quote +:+ c)))
      as [r0|] eqn:Hp; [|by exists r'].
    exists r0. split; [done|].
    apply after_first_Some in Hr' as [a' Ha']. rewrite Ha' in Hp.
    apply strip_prefix_Some in Hp.
    assert (∃ w, r0 = w +:+ r') as [w ->]; [|by apply contains_app_r].
    unfold triple_quote in Hp.
    destruct a' as [|x1 [|x2 [|x3 a']]];
      rewrite ?append_cons, ?append_nil_l in Hp; simplify_eq.
    + exists (String dquote EmptyString). reflexivity.
    + exists (String dquote (String dquote EmptyString)). reflexivity.
    + exists triple_quote. reflexivity.
    + exists (String x3 a' +:+ triple_quote). rewrite append_assoc. reflexivity.
Qed.

(** X8.  A statement is taken for a docstring exactly when it is a line
    holding one string literal in whose text two triple double quotes
    stand one after the other, without overlap. *)
Theorem is_docstring_iff s :
  is_docstring s = true
  ↔ ∃ ll a b c,
      s = SimpleStatementLine ll
            [Expr (SimpleString (a +:+ triple_quote +:+ b +:+ triple_quote +:+ c))].
Proof.
  split.
  - unfold is_docstring.
    destruct s as [ll [|[| [| | | v |] | | | |] [|? ?]]| | | |]; try done.
    unfold docstring_regex.
    destruct (after_first triple_quote v) as [rest|] eqn:Hv; [|done].
    intros Hc. apply after_first_Some in Hv as [a ->].
    apply contains_Some in Hc as (b & c & ->).
    by exists ll, a, b, c.
  - intros (ll & a & b & c & ->). cbn [is_docstring]. unfold docstring_regex.
    destruct (after_first_contains a b c) as (r & -> & Hr). done.
Qed.

Section Traversal.
Context {printer : Printer}.

(** *** Splicing the parent body *)

(** The body of the loop of [replace_super_calls]. *)
Definition splice_step (original_methods : list (method_key * stmt)) (func_name : string)
    (has_docstring : bool) (node_body : list stmt)
    (acc : result (list stmt)) (expr : stmt) : result (list stmt) :=
  new_body ← acc;
  if is_super_call func_name expr then
    match dict_get (MName func_name) original_methods with
    | Some original =>
        Ok (new_body ++ update_body has_docstring (body_of original) node_body)
    | None => Raise (KeyError func_name)
    end
  else Ok (new_body ++ [expr]).

(** Whether the first statement of a body is a docstring. *)
Definition starts_with_docstring (node_body : list stmt) : bool :=
  match node_body with
  | first :: _ => is_docstring first
  | [] => false
  end.

Lemma replace_super_calls_fold om node_body m :
  replace_super_calls om node_body m
  = foldl (splice_step om m (starts_with_docstring node_body) node_body) (Ok []) node_body.
Proof. reflexivity. Qed.

Lemma splice_fold_plain om m hd nb acc (l : list stmt) :
  Forall (fun s => is_super_call m s = false) l →
  foldl (splice_step om m hd nb) (Ok acc) l = Ok (acc ++ l).
Proof.
  intros Hl. revert acc. induction Hl as [|s l Hs _ IH]; intros acc; cbn [foldl].
  - by rewrite app_nil_r.
  - unfold splice_step at 2. cbn [mbind result_bind]. rewrite Hs, IH.
    by rewrite <- app_assoc.
Qed.

Lemma splice_fold_raise om m hd nb e (l : list stmt) :
  foldl (splice_step om m hd nb) (Raise e) l = Raise e.
Proof. induction l as [|s l IH]; [done | exact IH]. Qed.

(** X9.  A method body without a statement [super().m(...)] or
    [return super().m(...)] comes back as it is, whatever the parent
    class holds, and [leave_FunctionDef] returns such a function as it
    was given. *)
Theorem body_without_super_call om um ll decorators m ps body :
  Forall (fun s => is_super_call m s = false) body →
  replace_super_calls om body m = Ok body
  ∧ leave_FunctionDef om um (FunctionDef ll decorators m ps body)
    = Ok (FunctionDef ll decorators m ps body).
Proof.
  intros Hbody.
  assert (replace_super_calls om body m = Ok body) as Hr.
  { rewrite replace_super_calls_fold. by rewrite splice_fold_plain. }
  split; [done|]. unfold leave_FunctionDef. rewrite Hr.
  by destruct (dict_mem (MName m) um).
Qed.

(** X10.  The statements in front of the call and behind it stay where
    they are; the call itself gives way to the statements of the parent
    method that [update_body] lets through. *)
Theorem super_call_replaced_in_place om m original pre call post :
  dict_get (MName m) om = Some original →
  Forall (fun s => is_super_call m s = false) pre →
  is_super_call m call = true →
  Forall (fun s => is_super_call m s = false) post →
  let body := pre ++ call :: post in
  replace_super_calls om body m
  = Ok (pre ++ update_body (starts_with_docstring body) (body_of original) body ++ post).
Proof.
  intros Hget Hpre Hcall Hpost body.
  rewrite replace_super_calls_fold. unfold body at 3.
  rewrite foldl_app, splice_fold_plain; [|done]. cbn [foldl app].
  unfold splice_step at 2. cbn [mbind result_bind]. rewrite Hcall, Hget.
  rewrite splice_fold_plain; [|done]. by rewrite <- app_assoc.
Qed.

(** X11.  A call [super().m(...)] in a function [m] that the parent class
    does not define raises [KeyError]. *)
Theorem super_call_without_parent_method om m body :
  dict_get (MName m) om = None →
  Exists (fun s => is_super_call m s = true) body →
  replace_super_calls om body m = Raise (KeyError m).
Proof.
  intros Hget Hex. rewrite replace_super_calls_fold.
  generalize (starts_with_docstring body). intros hd.
  generalize body at 1. intros nb.
  assert (∀ acc, foldl (splice_step om m hd nb) (Ok acc) body = Raise (KeyError m)) as H;
    [|apply H].
  induction Hex as [s l Hs|s l _ IH]; intros acc; cbn [foldl];
    unfold splice_step at 2; cbn [mbind result_bind].
  - rewrite Hs, Hget. apply splice_fold_raise.
  - destruct (is_super_call m s); [rewrite Hget; apply splice_fold_raise | apply IH].
Qed.

(** *** The traversal of the merged class *)

Section StmtInd.
Variable P : stmt → Prop.
Hypothesis Hline : ∀ ll body, P (SimpleStatementLine ll body).
Hypothesis Hdef : ∀ ll decorators name ps body,
  Forall P body → P (FunctionDef ll decorators name ps body).
Hypothesis Hclass : ∀ ll name bases body, Forall P body → P (ClassDef ll name bases body).
Hypothesis Hif : ∀ ll test body orelse,
  Forall P body → Forall P orelse → P (If ll test body orelse).
Hypothesis Hother : ∀ ll header body, Forall P body → P (CompoundOther ll header body).

(** Induction on a statement with the statements of its blocks. *)
Fixpoint stmt_block_ind (s : stmt) : P s :=
  let block :=
    fix block (l : list stmt) : Forall P l :=
      match l with
      | [] => @List.Forall_nil stmt P
      | x :: r => @List.Forall_cons stmt P x r (stmt_block_ind x) (block r)
      end in
  match s with
  | SimpleStatementLine ll body => Hline ll body
  | FunctionDef ll decorators name ps body => Hdef ll decorators name ps body (block body)
  | ClassDef ll name bases body => Hclass ll name bases body (block body)
  | If ll test body orelse => Hif ll test body orelse (block body) (block orelse)
  | CompoundOther ll header body => Hother ll header body (block body)
  end.

End StmtInd.

Lemma visit_block_mapM om um (l : list stmt) :
  (fix visit_block (l : list stmt) : result (list stmt) :=
     match l with
     | [] => Ok []
     | x :: r => y ← visit om um x; ys ← visit_block r; Ok (y :: ys)
     end) l
  = mapM (visit om um) l.
Proof. induction l as [|x r IH]; [done|]. cbn [mapM]. by rewrite <- IH. Qed.

Lemma visit_FunctionDef_eq om um ll decorators name ps body :
  visit om um (FunctionDef ll decorators name ps body)
  = (body' ← mapM (visit om um) body;
     leave_FunctionDef om um (FunctionDef ll decorators name ps body')).
Proof. rewrite <- visit_block_mapM. reflexivity. Qed.

Lemma visit_ClassDef_eq om um ll name bases body :
  visit om um (ClassDef ll name bases body)
  = (body' ← mapM (visit om um) body; Ok (ClassDef ll name bases body')).
Proof. rewrite <- visit_block_mapM. reflexivity. Qed.

Lemma visit_If_eq om um ll test body orelse :
  visit om um (If ll test body orelse)
  = (body' ← mapM (visit om um) body;
     orelse' ← mapM (visit om um) orelse;
     Ok (If ll test body' orelse')).
Proof. rewrite <- !visit_block_mapM. reflexivity. Qed.

Lemma visit_CompoundOther_eq om um ll header body :
  visit om um (CompoundOther ll header body)
  = (body' ← mapM (visit om um) body; Ok (CompoundOther ll header body')).
Proof. rewrite <- visit_block_mapM. reflexivity. Qed.

Lemma mapM_id {A : Type} (f : A → result A) (l : list A) :
  Forall (fun x => f x = Ok x) l → mapM f l = Ok l.
Proof. induction 1 as [|x l Hx _ IH]; [done|]. cbn [mapM]. by rewrite Hx, IH. Qed.

Lemma mapM_Forall2 {A B : Type} (f : A → result B) (l : list A) (l' : list B) :
  mapM f l = Ok l' → Forall2 (fun x y => f x = Ok y) l l'.
Proof.
  revert l'. induction l as [|x l IH]; intros l' H.
  - injection H as <-. constructor.
  - cbn [mapM] in H. apply bind_Ok in H as (y & Hy & H).
    apply bind_Ok in H as (ys & Hys & H). injection H as <-.
    constructor; [done | by apply IH].
Qed.

(** The name a statement defines, if it is a definition. *)
Definition defined_name (s : stmt) : option string :=
  match s with
  | FunctionDef _ _ name _ _ => Some name
  | ClassDef _ name _ _ => Some name
  | _ => None
  end.

(** Whether a small statement is [return <expr>.super(...)], on which
    [leave_Return] fails. *)
Definition returns_super_attribute (s : small_stmt) : bool :=
  match s with
  | Return (Some (Call (Attribute _ attr) _)) => bool_decide (attr = "super")
  | _ => false
  end.

(** No statement, at any depth, is such a [return]. *)
Fixpoint plain_returns (s : stmt) : bool :=
  let block :=
    fix block (l : list stmt) : bool :=
      match l with
      | [] => true
      | x :: r => plain_returns x && block r
      end in
  match s with
  | SimpleStatementLine _ body => forallb (fun x => negb (returns_super_attribute x)) body
  | FunctionDef _ _ _ _ body => block body
  | ClassDef _ _ _ body => block body
  | If _ _ body orelse => block body && block orelse
  | CompoundOther _ _ body => block body
  end.

Lemma plain_block (l : list stmt) :
  (fix block (l : list stmt) : bool :=
     match l with
     | [] => true
     | x :: r => plain_returns x && block r
     end) l
  = forallb plain_returns l.
Proof. induction l as [|x r IH]; [done|]. cbn [forallb]. by rewrite <- IH. Qed.

Lemma leave_Return_plain s :
  returns_super_attribute s = false → visit_small s = Ok s.
Proof.
  destruct s as [[[| v attr | f args | |]|]| | | | |]; try done.
  destruct f as [| v attr | | |]; try done.
  cbn. intros H. by rewrite H.
Qed.

Lemma forallb_Forall {A : Type} (p : A → bool) (l : list A) :
  forallb p l = true → Forall (fun x => p x = true) l.
Proof.
  induction l as [|x l IH]; [constructor|]. cbn [forallb].
  intros H. apply andb_true_iff in H as [Hx Hl]. constructor; auto.
Qed.

Lemma visit_unchanged om um s :
  (∀ n, dict_mem (MName n) um = false) →
  plain_returns s = true → visit om um s = Ok s.
Proof.
  intros Hum. induction s as [ll body|ll decorators name ps body IH|ll name bases body IH
                             |ll test body orelse IH1 IH2|ll header body IH]
    using stmt_block_ind; intros Hp.
  - cbn [visit]. cbn [plain_returns] in Hp.
    rewrite mapM_id; [done|].
    apply forallb_Forall in Hp. eapply Forall_impl; [exact Hp|].
    intros x Hx. apply leave_Return_plain. by apply negb_true_iff.
  - rewrite visit_FunctionDef_eq. cbn [plain_returns] in Hp. rewrite plain_block in Hp.
    apply forallb_Forall in Hp.
    rewrite mapM_id.
    + cbn [mbind result_bind leave_FunctionDef]. by rewrite Hum.
    + rewrite Forall_forall in IH, Hp. apply Forall_forall. intros x Hx. by apply IH, Hp.
  - rewrite visit_ClassDef_eq. cbn [plain_returns] in Hp. rewrite plain_block in Hp.
    apply forallb_Forall in Hp.
    rewrite mapM_id; [done|].
    rewrite Forall_forall in IH, Hp. apply Forall_forall. intros x Hx. by apply IH, Hp.
  - rewrite visit_If_eq. cbn [plain_returns] in Hp. rewrite !plain_block in Hp.
    apply andb_true_iff in Hp as [Hp1 Hp2].
    apply forallb_Forall in Hp1, Hp2.
    rewrite !mapM_id; [done | |].
    + rewrite Forall_forall in IH1, Hp1. apply Forall_forall. intros x Hx. by apply IH1, Hp1.
    + rewrite Forall_forall in IH2, Hp2. apply Forall_forall. intros x Hx. by apply IH2, Hp2.
  - rewrite visit_CompoundOther_eq. cbn [plain_returns] in Hp. rewrite plain_block in Hp.
    apply forallb_Forall in Hp.
    rewrite mapM_id; [done|].
    rewrite Forall_forall in IH, Hp. apply Forall_forall. intros x Hx. by apply IH, Hp.
Qed.

Lemma methods_of_key (body : list stmt) (k : method_key) :
  k ∈ (methods_of body).*1 → ∃ i s, body !! i = Some s ∧ k = key_of i s.
Proof.
  unfold methods_of, dict_of_list. intros Hk.
  apply dict_update_keys in Hk as [Hk|Hk]; [by apply elem_of_nil in Hk|].
  apply list_elem_of_fmap in Hk as ([k' s] & -> & Hk).
  apply elem_of_lookup_imap in Hk as (i & s' & [= -> ->] & Hi).
  by exists i, s'.
Qed.

Lemma methods_of_value (body : list stmt) (s : stmt) :
  s ∈ dict_values (methods_of body) → s ∈ body.
Proof.
  unfold methods_of, dict_of_list. intros Hs.
  apply dict_update_values in Hs as [Hs|Hs]; [by apply elem_of_nil in Hs|].
  unfold dict_values in Hs.
  apply list_elem_of_fmap in Hs as ([k' s'] & -> & Hs).
  apply elem_of_lookup_imap in Hs as (i & s'' & [= -> ->] & Hi).
  by eapply list_elem_of_lookup_2.
Qed.

(** A class body without definitions offers no method to merge. *)
Lemma methods_of_no_definition (body : list stmt) n :
  Forall (fun s => defined_name s = None) body →
  dict_get (MName n) (methods_of body) = None.
Proof.
  intros Hbody. apply dict_get_None. intros Hk.
  apply methods_of_key in Hk as (i & s & Hi & Hk).
  rewrite Forall_forall in Hbody.
  specialize (Hbody s (list_elem_of_lookup_2 _ _ _ Hi)).
  by destruct s.
Qed.

Lemma imap_key_fst (body : list stmt) :
  (imap (fun i s => (key_of i s, s)) body).*1 = imap key_of body.
Proof.
  rewrite fmap_imap. by apply imap_ext.
Qed.

(** X12.  A class of the diff file whose body defines no function and no
    class (a body that is [pass], say) is replaced by the parent class:
    header and statements are the parent's, a repeated definition of
    the parent counting once, in the place of the first, as the last. *)
Theorem inherit_without_override cf class_name ll name bases body ull uname ubases ubody :
  classes cf !! class_name = Some (ClassDef ll name bases body) →
  Forall (fun s => defined_name s = None) ubody →
  Forall (fun s => plain_returns s = true) body →
  replace_call_to_super cf (ClassDef ull uname ubases ubody) class_name
  = Ok (ClassDef ll name bases (dict_values (methods_of body)))
  ∧ (NoDup (imap key_of body) → dict_values (methods_of body) = body).
Proof.
  intros Hclass Hu Hplain. split.
  - unfold replace_call_to_super. rewrite Hclass. cbn [body_of].
    assert (mapM (fun kv : method_key * stmt =>
                    merge_method (methods_of ubody) kv.1 kv.2) (methods_of body)
            = Ok (dict_values (methods_of body))) as ->.
    { unfold dict_values. generalize (methods_of body). intros om.
      induction om as [|[k s] om IH]; [done|]. cbn [mapM fst snd]. rewrite IH.
      unfold merge_method. destruct k as [n|i]; [|done].
      by rewrite methods_of_no_definition. }
    cbn [mbind result_bind]. rewrite visit_unchanged; [done | |].
    + intros n. unfold dict_mem. by rewrite methods_of_no_definition.
    + cbn [plain_returns]. rewrite plain_block. apply forallb_forall.
      intros s Hs. apply list_elem_of_In, methods_of_value in Hs.
      rewrite Forall_forall in Hplain. by apply Hplain.
  - intros Hnd. unfold methods_of. rewrite dict_of_list_NoDup.
    + unfold dict_values. rewrite fmap_imap.
      rewrite (imap_ext _ (const id)) by done.
      by rewrite imap_const, list_fmap_id.
    + by rewrite imap_key_fst.
Qed.

Lemma merge_method_defined_name um k func merged :
  merge_method um k func = Ok merged → defined_name merged = defined_name func.
Proof.
  unfold merge_method. intros H.
  destruct k as [n|i]; [|by injection H as <-].
  destruct (dict_get (MName n) um) as [updated|]; [|by injection H as <-].
  destruct updated as [|ull ud un ups ubody| | |]; try done.
  destruct func; try (by injection H as <-); repeat case_match; done.
Qed.

Lemma visit_defined_name om um s s' :
  visit om um s = Ok s' → defined_name s' = defined_name s.
Proof.
  destruct s as [ll body|ll decorators name ps body|ll name bases body
                |ll test body orelse|ll header body].
  - cbn [visit]. intros H. apply bind_Ok in H as (b & _ & H). by injection H as <-.
  - rewrite visit_FunctionDef_eq. intros H. apply bind_Ok in H as (b & _ & H).
    cbn [leave_FunctionDef] in H. destruct (dict_mem (MName name) um).
    + apply bind_Ok in H as (nb & _ & H). by injection H as <-.
    + by injection H as <-.
  - rewrite visit_ClassDef_eq. intros H. apply bind_Ok in H as (b & _ & H).
    by injection H as <-.
  - rewrite visit_If_eq. intros H. apply bind_Ok in H as (b & _ & H).
    apply bind_Ok in H as (o & _ & H). by injection H as <-.
  - rewrite visit_CompoundOther_eq. intros H. apply bind_Ok in H as (b & _ & H).
    by injection H as <-.
Qed.

Lemma Forall2_fmap_eq {A B C : Type} (f : A → C) (g : B → C) (l : list A) (l' : list B) :
  Forall2 (fun x y => g y = f x) l l' → g <$> l' = f <$> l.
Proof. induction 1 as [|x y l l' Hxy _ IH]; [done|]. cbn. by rewrite Hxy, IH. Qed.

(** X13.  The merged class has the header of the parent class, and its
    body defines, statement for statement, what the body of the parent
    class defines: a method that only the class of the diff file defines
    is not part of it. *)
Theorem merged_class_is_the_parent_class cf updated_node class_name merged :
  replace_call_to_super cf updated_node class_name = Ok merged →
  ∃ ll name bases body merged_body,
    classes cf !! class_name = Some (ClassDef ll name bases body)
    ∧ merged = ClassDef ll name bases merged_body
    ∧ defined_name <$> merged_body = defined_name <$> dict_values (methods_of body)
    ∧ ∀ s m, s ∈ merged_body → defined_name s = Some m →
             ∃ s0, s0 ∈ body ∧ defined_name s0 = Some m.
Proof.
  unfold replace_call_to_super. intros H.
  destruct (classes cf !! class_name) as [original_node|] eqn:Hclass; [|done].
  apply bind_Ok in H as (end_meth & Hmerge & H).
  destruct original_node as [| |ll name bases body| |]; try done.
  apply bind_Ok in H as (new_class & Hvisit & H). injection H as <-.
  rewrite visit_ClassDef_eq in Hvisit.
  apply bind_Ok in Hvisit as (merged_body & Hbody & Hvisit). injection Hvisit as <-.
  cbn [body_of] in *.
  assert (defined_name <$> merged_body = defined_name <$> dict_values (methods_of body))
    as Hnames.
  { apply mapM_Forall2 in Hmerge, Hbody.
    transitivity (defined_name <$> end_meth).
    - apply Forall2_fmap_eq. eapply Forall2_impl; [exact Hbody|].
      intros x y. apply visit_defined_name.
    - unfold dict_values. rewrite <- list_fmap_compose.
      apply Forall2_fmap_eq. eapply Forall2_impl; [exact Hmerge|].
      intros [k s] y. apply merge_method_defined_name. }
  exists ll, name, bases, body, merged_body. split_and!; [done..|].
  intros s m Hs Hm.
  assert (Some m ∈ defined_name <$> merged_body) as Hin.
  { rewrite <- Hm. apply list_elem_of_fmap. by exists s. }
  rewrite Hnames in Hin. apply list_elem_of_fmap in Hin as (s0 & Hs0 & Hin).
  exists s0. split; [by apply methods_of_value | done].
Qed.

End Traversal.

Section TraversalExamples.
Existing Instance canonical_printer.

Lemma body_without_super_call_witness :
  replace_super_calls [] [call_on_x "embed"; return_x] "forward"
  = Ok [call_on_x "embed"; return_x]
  ∧ leave_FunctionDef [] [] (FunctionDef "" [] "forward" self_x [call_on_x "embed"; return_x])
    = Ok (FunctionDef "" [] "forward" self_x [call_on_x "embed"; return_x]).
Proof.
  apply (body_without_super_call [] [] "" [] "forward" self_x
           [call_on_x "embed"; return_x]).
  repeat constructor.
Defined.

(** An override that calls the parent in the middle of its body:

      def forward(self, x):
          x = self.embed(x)
          super().forward(x)
          return x *)
Lemma super_call_replaced_in_place_witness :
  let body := [call_on_x "embed"] ++ call_super_forward :: [return_x] in
  replace_super_calls
    (methods_of [base_forward (call_on_x "embed") (call_on_x "norm") return_x])
    body "forward"
  = Ok ([call_on_x "embed"]
        ++ update_body (starts_with_docstring body)
             (body_of (base_forward (call_on_x "embed") (call_on_x "norm") return_x)) body
        ++ [return_x]).
Proof.
  apply (super_call_replaced_in_place
           (methods_of [base_forward (call_on_x "embed") (call_on_x "norm") return_x])
           "forward" (base_forward (call_on_x "embed") (call_on_x "norm") return_x)
           [call_on_x "embed"] call_super_forward [return_x]).
  - reflexivity.
  - repeat constructor.
  - reflexivity.
  - repeat constructor.
Defined.

Example super_call_replaced_in_place_sample :
  replace_super_calls
    (methods_of [base_forward (call_on_x "embed") (call_on_x "norm") return_x])
    [call_on_x "embed"; call_super_forward; return_x] "forward"
  = Ok [call_on_x "embed"; call_on_x "norm"; return_x].
Proof. vm_compute. reflexivity. Qed.

Lemma super_call_without_parent_method_witness :
  replace_super_calls [] [call_on_x "embed"; return_super_forward] "forward"
  = Raise (KeyError "forward").
Proof.
  apply (super_call_without_parent_method [] "forward"
           [call_on_x "embed"; return_super_forward]).
  - reflexivity.
  - apply Exists_cons_tl, Exists_cons_hd. reflexivity.
Defined.

(** [class GemmaModel(LlamaModel): pass] against the parent class of the
    examples. *)
Definition parent_body : list stmt :=
  [base_forward (call_on_x "embed") (call_on_x "norm") return_x].

Lemma inherit_without_override_witness :
  replace_call_to_super sample_finder
    (ClassDef "" "GemmaModel" [(Name "LlamaModel", "")]
       [SimpleStatementLine "" [OtherSmall "pass"]])
    "GemmaModel"
  = Ok (ClassDef "" "GemmaModel" [(Attribute (Name "nn") "Module", "")]
          (dict_values (methods_of parent_body)))
  ∧ (NoDup (imap key_of parent_body) → dict_values (methods_of parent_body) = parent_body).
Proof.
  apply (inherit_without_override sample_finder "GemmaModel"
           "" "GemmaModel" [(Attribute (Name "nn") "Module", "")] parent_body
           "" "GemmaModel" [(Name "LlamaModel", "")]
           [SimpleStatementLine "" [OtherSmall "pass"]]).
  - vm_compute. reflexivity.
  - repeat constructor.
  - repeat constructor.
Defined.

Lemma merged_class_is_the_parent_class_witness :
  ∃ ll name bases body merged_body,
    classes sample_finder !! "GemmaModel" = Some (ClassDef ll name bases body)
    ∧ ClassDef "" "GemmaModel" [(Attribute (Name "nn") "Module", "")] parent_body
      = ClassDef ll name bases merged_body
    ∧ defined_name <$> merged_body = defined_name <$> dict_values (methods_of body)
    ∧ ∀ s m, s ∈ merged_body → defined_name s = Some m →
             ∃ s0, s0 ∈ body ∧ defined_name s0 = Some m.
Proof.
  apply (merged_class_is_the_parent_class sample_finder
           (ClassDef "" "GemmaModel" [(Name "LlamaModel", "")]
              [override_forward (call_on_x "embed")])
           "GemmaModel").
  vm_compute. reflexivity.
Defined.

(** A method that only the class of the diff file defines is not part of
    the merged class:

      class GemmaModel(LlamaModel):
          def forward(self, x):
              x = self.embed(x)
              return super().forward(x)
          def extra(self, x):
              return x *)
Example diff_only_method_dropped :
  replace_call_to_super sample_finder
    (ClassDef "" "GemmaModel" [(Name "LlamaModel", "")]
       [override_forward (call_on_x "embed");
        FunctionDef "" [] "extra" self_x [return_x]])
    "GemmaModel"
  = Ok (ClassDef "" "GemmaModel" [(Attribute (Name "nn") "Module", "")] parent_body).
Proof. vm_compute. reflexivity. Qed.

End TraversalExamples.

End SuperCallFacts.

(** ** Facts about the orchestrator *)

Module ConverterFacts.
Import PyStr PyStrFacts Regex RegexFacts Converter.

Section Facts.
Context {printer : Printer}.
Variable parse_source : string → result py_module.
Variable find_classes_in_file : py_module → string → string → result class_finder.
Variable run_ruff : string → bool → string.

(** *** Importing a configuration from a modeling file *)

Definition names_config (imported_ : import_alias) : bool :=
  contains "Config" (Codegen.code_alias imported_).

Lemma visit_names_raise import_statement (names : list import_alias) e :
  foldl (fun acc imported_ => t ← acc; visit_imported parse_source import_statement imported_ t)
        (Raise e) names = Raise e.
Proof. induction names as [|a names IH]; simpl; [done | apply IH]. Qed.

Lemma visit_imported_config import_statement imported_ t :
  search_transformers_import import_statement = Some "modeling" →
  names_config imported_ = true →
  visit_imported parse_source import_statement imported_ t
  = Raise (ValueError (config_import_message (Codegen.code_alias imported_))).
Proof.
  intros Hs Hc. unfold visit_imported, names_config in *.
  rewrite Hs, Hc. by rewrite bool_decide_eq_true_2.
Qed.

Lemma visit_names_config_raises import_statement (names : list import_alias) t :
  search_transformers_import import_statement = Some "modeling" →
  Exists (fun a => names_config a = true) names →
  ∃ e, foldl (fun acc imported_ =>
                t ← acc; visit_imported parse_source import_statement imported_ t)
             (Ok t) names = Raise e.
Proof.
  intros Hs Hex. revert t. induction names as [|a names IH]; intros t.
  - by apply Exists_nil in Hex.
  - simpl. destruct (visit_imported parse_source import_statement a t) as [t'|e] eqn:Hv.
    + apply IH. apply Exists_cons in Hex as [Ha|Hex]; [|done].
      by rewrite (visit_imported_config _ _ _ Hs Ha) in Hv.
    + exists e. apply visit_names_raise.
Qed.

Lemma visit_names_config_first import_statement (names : list import_alias) t tree :
  search_transformers_import import_statement = Some "modeling" →
  parse_source import_statement = Ok tree →
  Exists (fun a => names_config a = true) names →
  ∃ a, List.find names_config names = Some a
       ∧ foldl (fun acc imported_ =>
                  t ← acc; visit_imported parse_source import_statement imported_ t)
               (Ok t) names
         = Raise (ValueError (config_import_message (Codegen.code_alias a))).
Proof.
  intros Hs Hp Hex. revert t. induction names as [|a names IH]; intros t.
  - by apply Exists_nil in Hex.
  - simpl. destruct (names_config a) eqn:Ha.
    + exists a. split; [done|].
      rewrite (visit_imported_config _ _ _ Hs Ha). apply visit_names_raise.
    + apply Exists_cons in Hex as [Ha'|Hex]; [congruence|].
      unfold visit_imported at 2. unfold names_config in Ha.
      rewrite Hs, Ha, andb_false_r.
      destruct (transformers_imports t !! import_statement); simpl.
      * by apply IH.
      * rewrite Hp. simpl. by apply IH.
Qed.

Lemma run_raises ev (evs : list event) :
  (∀ t, ∃ e, step parse_source find_classes_in_file ev t = Raise e) →
  ev ∈ evs →
  ∀ t, ∃ e, run parse_source find_classes_in_file evs t = Raise e.
Proof.
  intros Hev. induction evs as [|ev0 evs IH]; intros Hin t.
  - by apply elem_of_nil in Hin.
  - simpl. destruct (step parse_source find_classes_in_file ev0 t) as [t'|e] eqn:Hs; simpl; [|by exists e].
    apply elem_of_cons in Hin as [->|Hin]; [|by apply IH].
    destruct (Hev t) as [e He]. congruence.
Qed.

(** C3, as amended.  Take an import-from statement whose module path is
    [transformers.models.<x>.modeling_<y>], with [modeling_<y>] its last
    segment, and among whose names one contains [Config].  Then
    [visit_ImportFrom] raises; the exception is the [ValueError] that
    names the first such symbol when the module named by the path can be
    loaded, and in any case when that symbol is the first name imported;
    and a conversion whose traversal meets the statement raises without
    having written a file. *)
Theorem config_import_rejected v attr x y names a :
  let module := Some (Attribute v attr) in
  let path := "transformers.models." +:+ x +:+ ".modeling_" +:+ y in
  Codegen.code_expr (Attribute v attr) = path →
  mem newline x = false → mem newline y = false → mem "." y = false →
  a ∈ names →
  contains "Config" (alias_name a) = true →
  (∀ t, ∃ e, visit_ImportFrom parse_source module (Some names) t = Raise e)
  ∧ (∀ t tree, parse_source path = Ok tree →
       ∃ a', List.find names_config names = Some a'
             ∧ visit_ImportFrom parse_source module (Some names) t
               = Raise (ValueError (config_import_message (Codegen.code_alias a'))))
  ∧ (∀ t rest, names = a :: rest →
       visit_ImportFrom parse_source module (Some names) t
       = Raise (ValueError (config_import_message (Codegen.code_alias a))))
  ∧ (∀ diff_file diff_module evs,
       VisitImportFrom module (Some names) ∈ evs →
       ∃ e, convert_file parse_source find_classes_in_file run_ruff diff_file diff_module evs = ([], Raise e)).
Proof.
  intros module path Hcode Hx Hny Hy Hin Hcfg.
  assert (search_transformers_import path = Some "modeling") as Hs
    by (by apply search_modeling_path).
  assert (names_config a = true) as Ha
    by (unfold names_config, Codegen.code_alias; by apply contains_app_l).
  assert (Exists (fun a => names_config a = true) names) as Hex
    by (apply Exists_exists; eauto).
  assert (∀ t, visit_ImportFrom parse_source module (Some names) t
               = foldl (fun acc imported_ =>
                          t ← acc; visit_imported parse_source path imported_ t)
                       (Ok t) names) as Hvisit.
  { intros t. unfold visit_ImportFrom, module, code_for_module.
    rewrite Hcode. reflexivity. }
  assert (∀ t, ∃ e, visit_ImportFrom parse_source module (Some names) t = Raise e) as Hraise.
  { intros t. rewrite Hvisit. by apply visit_names_config_raises. }
  split; [done|]. split; [|split].
  - intros t tree Hp. rewrite Hvisit. by eapply visit_names_config_first.
  - intros t rest ->. rewrite Hvisit. simpl.
    rewrite (visit_imported_config _ _ _ Hs Ha). apply visit_names_raise.
  - intros diff_file diff_module evs Hev. unfold convert_file.
    destruct (search_diff_name diff_file) as [new_name|]; [|by eexists].
    destruct (run_raises (VisitImportFrom module (Some names)) evs Hraise Hev (init new_name))
      as [e He].
    rewrite He. by eexists.
Qed.

(** *** Bases that were not imported *)

Lemma mapM_app {A B : Type} (f : A → result B) (l1 l2 : list A) :
  mapM f (l1 ++ l2) = (ys1 ← mapM f l1; ys2 ← mapM f l2; Ok (ys1 ++ ys2)).
Proof.
  induction l1 as [|x l1 IH]; simpl.
  - by destruct (mapM f l2).
  - destruct (f x) as [y|e]; simpl; [|done].
    rewrite IH. destruct (mapM f l1) as [ys1|e]; simpl; [|done].
    by destruct (mapM f l2).
Qed.

Lemma imported_bases_skip bs1 b comma bs2 t :
  imported_mapping t !! b = None →
  imported_bases (bs1 ++ (Name b, comma) :: bs2) t = imported_bases (bs1 ++ bs2) t.
Proof.
  intros Hb. unfold imported_bases.
  rewrite !mapM_app. cbn [mapM expr_value fst].
  destruct (mapM (fun k : expr * string => expr_value k.1) bs1) as [v1|e]; simpl; [|done].
  destruct (mapM (fun k : expr * string => expr_value k.1) bs2) as [v2|e]; simpl; [|done].
  f_equal. rewrite !omap_app. simpl. by rewrite Hb.
Qed.

(** C6, as amended.  A base-class name that is not in [imported_mapping]
    is skipped when the bases are collected: [leave_ClassDef] does what
    it would do had the class not declared that base, and a class whose
    only base is such a name is stored as it stands, under the next
    index or as the configuration body, without any exception. *)
Theorem unimported_base_ignored ll name bs1 b comma bs2 body updated_node t :
  imported_mapping t !! b = None →
  leave_ClassDef find_classes_in_file
    (ClassDef ll name (bs1 ++ (Name b, comma) :: bs2) body) updated_node t
  = leave_ClassDef find_classes_in_file (ClassDef ll name (bs1 ++ bs2) body) updated_node t
  ∧ ∀ ull uname ubases ubody,
      updated_node = ClassDef ull uname ubases ubody →
      leave_ClassDef find_classes_in_file (ClassDef ll name [(Name b, comma)] body)
        updated_node t
      = let t' := with_global_scope_index (global_scope_index t + 100) t in
        Ok (if contains "Config" name
            then with_config_body (Some [updated_node]) t'
            else set_new_body (KStr name) (global_scope_index t + 100) updated_node t').
Proof.
  intros Hb. split.
  - unfold leave_ClassDef. destruct updated_node; try done.
    by rewrite imported_bases_skip.
  - intros ull uname ubases ubody ->. unfold leave_ClassDef.
    pose proof (imported_bases_skip [] b comma [] t Hb) as Hskip.
    simpl app in Hskip. rewrite Hskip. simpl.
    by destruct (contains "Config" name).
Qed.

(** *** The old model name *)

Lemma after_first_char c a b :
  mem c a = false → after_first (String c EmptyString) (a +:+ String c b) = Some b.
Proof.
  induction a as [|d a IH]; simpl.
  - by rewrite Ascii.eqb_refl.
  - intros H. apply orb_false_iff in H as [Hd Ha].
    rewrite Ascii.eqb_sym, Hd. by apply IH.
Qed.

(** When no directory of the path has an underscore in its name, the
    old model name is what follows [modeling_] or [configuration_]. *)
Lemma search_model_name_plain x kind y :
  mem "_" x = false → mem "_" kind = false →
  (∀ d, mem d y = true → is_space d = false) →
  search_model_name ("transformers.models." +:+ x +:+ "." +:+ kind +:+ "_" +:+ y) = Some y.
Proof.
  intros Hx Hk Hy. unfold search_model_name.
  replace ("transformers.models." +:+ x +:+ "." +:+ kind +:+ "_" +:+ y)
    with (("transformers.models." +:+ x +:+ "." +:+ kind) +:+ String "_" y).
  - rewrite after_first_char.
    + by rewrite take_nonspace_id.
    + rewrite !mem_app, Hx, Hk. done.
  - by rewrite !append_assoc.
Qed.

(** *** What the callbacks leave alone *)

(** Whether an event is the end of a class whose name contains [Config]. *)
Definition is_config_event (ev : event) : bool :=
  match ev with
  | LeaveClassDef (ClassDef _ name _ _) (ClassDef _ _ _ _) => contains "Config" name
  | _ => false
  end.

Definition is_class_def (n : stmt) : bool :=
  match n with
  | ClassDef _ _ _ _ => true
  | _ => false
  end.

Lemma replace_call_to_super_class cf updated_node class_name r :
  SuperCall.replace_call_to_super cf updated_node class_name = Ok r →
  is_class_def r = true.
Proof.
  unfold SuperCall.replace_call_to_super. intros H.
  destruct (classes cf !! class_name) as [original_node|]; [|done].
  apply bind_Ok in H as (end_meth & _ & H).
  destruct original_node; try done.
  apply bind_Ok in H as (new_class & _ & H). by injection H as <-.
Qed.

(** [below g t]: every entry of [new_body] has an index below [g]. *)
Definition below (g : Z) (t : transformer) : Prop :=
  Forall (fun kv : body_key * entry => insert_idx kv.2 < g) (new_body t).

Lemma below_set g key idx n t :
  idx < g → below g t → below g (set_new_body key idx n t).
Proof.
  unfold below, set_new_body. cbn [new_body with_new_body].
  intros Hidx. induction 1 as [|[k e] d Hke Hd IH]; simpl.
  - by repeat constructor.
  - case_decide; constructor; done.
Qed.

Lemma below_weaken g g' t : g ≤ g' → below g t → below g' t.
Proof.
  unfold below. intros Hle Hb. eapply Forall_impl; [exact Hb|].
  intros kv. simpl. lia.
Qed.

Lemma insert_dependency_frame cf t start_insert_idx dependency g t' start' :
  insert_dependency cf (t, start_insert_idx) dependency = (t', start') →
  below g t → start_insert_idx ≤ g →
  below g t' ∧ start' ≤ g
  ∧ global_scope_index t' = global_scope_index t
  ∧ config_body t' = config_body t
  ∧ imported_mapping t' = imported_mapping t
  ∧ all_imports t' = all_imports t.
Proof.
  intros H Hb Hs. unfold insert_dependency in H.
  destruct (global_nodes cf !! dependency) as [n|]; [|by injection H as <- <-].
  destruct (dict_get (KStr dependency) (new_body t)) as [e|] eqn:Hget.
  - assert (insert_idx e < g) as He.
    { apply dict_get_Some_elem in Hget.
      unfold below in Hb. rewrite Forall_forall in Hb. by apply (Hb _ Hget). }
    case_bool_decide; injection H as <- <-; (split; [done|]); (split; [lia|done]).
  - injection H as <- <-.
    split; [apply below_set; [lia | done]|]. split; [lia|done].
Qed.

Lemma insert_dependencies_frame cf (deps : list string) t start_insert_idx g t' start' :
  foldl (insert_dependency cf) (t, start_insert_idx) deps = (t', start') →
  below g t → start_insert_idx ≤ g →
  below g t' ∧ start' ≤ g
  ∧ global_scope_index t' = global_scope_index t
  ∧ config_body t' = config_body t
  ∧ imported_mapping t' = imported_mapping t
  ∧ all_imports t' = all_imports t.
Proof.
  revert t start_insert_idx.
  induction deps as [|d deps IH]; intros t s H Hb Hs; cbn [foldl] in H.
  - by injection H as <- <-.
  - destruct (insert_dependency cf (t, s) d) as [t1 s1] eqn:Hstep.
    destruct (insert_dependency_frame _ _ _ _ g _ _ Hstep Hb Hs)
      as (Hb1 & Hs1 & Hg & Hc & Hi & Ha).
    destruct (IH _ _ H Hb1 Hs1) as (Hb2 & Hs2 & Hg2 & Hc2 & Hi2 & Ha2).
    split_and!; [done | done | congruence..].
Qed.

Lemma process_base_frame class_name t updated_node super_class t' updated_node' :
  process_base find_classes_in_file class_name (t, updated_node) super_class
  = Ok (t', updated_node') →
  below (global_scope_index t) t →
  below (global_scope_index t') t'
  ∧ global_scope_index t' = global_scope_index t
  ∧ config_body t' = config_body t
  ∧ imported_mapping t' = imported_mapping t
  ∧ all_imports t' = all_imports t
  ∧ (is_class_def updated_node = true → is_class_def updated_node' = true).
Proof.
  unfold process_base. intros H Hb.
  destruct (imported_mapping t !! super_class) as [super_file_name|]; [|done].
  apply bind_Ok in H as (old_name & _ & H).
  apply bind_Ok in H as ([t1 cf] & H1 & H).
  assert (below (global_scope_index t) t1
          ∧ global_scope_index t1 = global_scope_index t
          ∧ config_body t1 = config_body t
          ∧ imported_mapping t1 = imported_mapping t
          ∧ all_imports t1 = all_imports t) as (Hb1 & Hg1 & Hc1 & Hi1 & Ha1).
  { destruct (dict_get super_file_name (visited_module t)).
    - by injection H1 as <- <-.
    - apply bind_Ok in H1 as (tree & _ & H1).
      apply bind_Ok in H1 as (cf' & _ & H1).
      by injection H1 as <- <-. }
  destruct (foldl (insert_dependency cf) (t1, global_scope_index t1)
              (list_dependencies cf class_name).*1) as [t2 s2] eqn:Hfold.
  destruct (insert_dependencies_frame _ _ _ _ (global_scope_index t) _ _ Hfold)
    as (Hb2 & _ & Hg2 & Hc2 & Hi2 & Ha2); [done | lia |].
  assert (t' = t2
          ∧ (is_class_def updated_node = true → is_class_def updated_node' = true))
    as [-> Hclass].
  { destruct (list_dependencies cf class_name).
    - by injection H as <- <-.
    - apply bind_Ok in H as (u & Hu & H). injection H as <- <-.
      split; [done|]. intros _. by eapply replace_call_to_super_class. }
  split_and!; [by rewrite Hg2, Hg1 | congruence.. | done].
Qed.

Lemma process_bases_frame class_name (bases : list string) t updated_node t' updated_node' :
  foldl (fun acc super_class =>
           acc ← acc; process_base find_classes_in_file class_name acc super_class)
        (Ok (t, updated_node)) bases = Ok (t', updated_node') →
  below (global_scope_index t) t →
  below (global_scope_index t') t'
  ∧ global_scope_index t' = global_scope_index t
  ∧ config_body t' = config_body t
  ∧ imported_mapping t' = imported_mapping t
  ∧ all_imports t' = all_imports t
  ∧ (is_class_def updated_node = true → is_class_def updated_node' = true).
Proof.
  revert t updated_node. induction bases as [|b bases IH]; intros t u H Hb.
  - simpl in H. by injection H as <- <-.
  - cbn [foldl] in H.
    change (Ok (t, u) ≫= (fun acc =>
              process_base find_classes_in_file class_name acc b))
      with (process_base find_classes_in_file class_name (t, u) b) in H.
    destruct (process_base find_classes_in_file class_name (t, u) b)
      as [[t1 u1]|e] eqn:Hp.
    + destruct (process_base_frame _ _ _ _ _ _ Hp Hb)
        as (Hb1 & Hg1 & Hc1 & Hi1 & Ha1 & Hk1).
      destruct (IH _ _ H Hb1) as (Hb2 & Hg2 & Hc2 & Hi2 & Ha2 & Hk2).
      split_and!; [done | congruence.. | auto].
    + exfalso. clear -H. induction bases as [|b' bases IHb]; [done|].
      cbn [foldl] in H. by apply IHb.
Qed.

(** The invariant of a traversal: no entry of [new_body] has an index
    above [global_scope_index]. *)
Definition indexed (t : transformer) : Prop := below (global_scope_index t + 1) t.

Lemma leave_ClassDef_spec ll class_name obases body ull uname ubases ubody t t' :
  leave_ClassDef find_classes_in_file (ClassDef ll class_name obases body)
    (ClassDef ull uname ubases ubody) t
  = Ok t' →
  indexed t →
  global_scope_index t' = global_scope_index t + 100
  ∧ all_imports t' = all_imports t
  ∧ indexed t'
  ∧ ∃ c,
      is_class_def c = true ∧
      if contains "Config" class_name
      then config_body t' = Some [c] ∧ below (global_scope_index t') t'
      else config_body t' = config_body t
           ∧ dict_get (KStr class_name) (new_body t') = Some (Entry (global_scope_index t') c)
           ∧ ∀ k e, k ≠ KStr class_name →
                     dict_get k (new_body t') = Some e →
                     insert_idx e < global_scope_index t'.
Proof.
  unfold leave_ClassDef, indexed. intros H Hb.
  apply bind_Ok in H as (bases & _ & H).
  apply bind_Ok in H as ([t1 u1] & Hfold & H).
  apply process_bases_frame in Hfold as (Hb1 & Hg1 & Hc1 & Hi1 & Ha1 & Hk1).
  2: { eapply below_weaken; [|exact Hb]. cbn. lia. }
  specialize (Hk1 eq_refl).
  cbn [global_scope_index with_global_scope_index config_body all_imports] in *.
  destruct (contains "Config" class_name); injection H as <-.
  - split_and!; [done | done | |].
    + eapply below_weaken; [|exact Hb1]. cbn. lia.
    + exists u1. by split_and!.
  - cbn [global_scope_index set_new_body with_new_body all_imports config_body new_body].
    split_and!; [done | done | |].
    { apply below_set; [lia|]. eapply below_weaken; [|exact Hb1]. lia. }
    exists u1. split_and!; [done | done | |].
    + rewrite dict_get_set. by rewrite decide_True.
    + intros k e Hk Hget. rewrite dict_get_set in Hget.
      rewrite decide_False in Hget by done.
      apply dict_get_Some_elem in Hget.
      unfold below in Hb1. rewrite Forall_forall in Hb1. by apply (Hb1 _ Hget).
Qed.

Lemma visit_imported_frame import_statement imported_ t t' :
  visit_imported parse_source import_statement imported_ t = Ok t' →
  new_body t' = new_body t
  ∧ global_scope_index t' = global_scope_index t
  ∧ config_body t' = config_body t
  ∧ all_imports t' = all_imports t.
Proof.
  unfold visit_imported. intros H.
  destruct (search_transformers_import import_statement); [|by injection H as <-].
  destruct (_ && _); [done|].
  apply bind_Ok in H as (ti & _ & H). by injection H as <-.
Qed.

Lemma visit_ImportFrom_frame module names t t' :
  visit_ImportFrom parse_source module names t = Ok t' →
  new_body t' = new_body t
  ∧ global_scope_index t' = global_scope_index t
  ∧ config_body t' = config_body t
  ∧ all_imports t' = all_imports t.
Proof.
  unfold visit_ImportFrom. intros H.
  apply bind_Ok in H as (import_statement & _ & H).
  destruct (is_attribute module); [|by injection H as <-].
  destruct names as [names|]; [|done].
  revert t H. induction names as [|a names IH]; intros t H.
  - simpl in H. by injection H as <-.
  - cbn [foldl] in H.
    change (Ok t ≫= (fun t => visit_imported parse_source import_statement a t))
      with (visit_imported parse_source import_statement a t) in H.
    destruct (visit_imported parse_source import_statement a t) as [t1|e] eqn:Hv.
    + apply visit_imported_frame in Hv as (Hn & Hg & Hc & Ha).
      destruct (IH _ H) as (Hn' & Hg' & Hc' & Ha').
      split_and!; congruence.
    + by rewrite visit_names_raise in H.
Qed.

Lemma indexed_set key n t :
  indexed t →
  indexed (set_new_body key (global_scope_index t + 100) n
             (with_global_scope_index (global_scope_index t + 100) t)).
Proof.
  unfold indexed. intros Hb.
  apply below_set; cbn; [lia|]. eapply below_weaken; [|exact Hb]. lia.
Qed.

Lemma leave_SimpleStatementLine_frame pm updated_node t t' :
  leave_SimpleStatementLine pm updated_node t = Ok t' →
  indexed t →
  indexed t' ∧ config_body t' = config_body t
  ∧ global_scope_index t ≤ global_scope_index t'.
Proof.
  unfold leave_SimpleStatementLine. intros H Hb.
  destruct updated_node as [ll body| | | |]; try (injection H as <-; split_and!; [done..|lia]).
  destruct pm; [|injection H as <-; split_and!; [done..|lia]].
  assert (∀ t1, (let idx := global_scope_index t + 100 in
                 let t0 := with_global_scope_index idx t in
                 node_name body t0 ≫= (fun '(key, t2) =>
                   Ok (set_new_body key idx (SimpleStatementLine ll body) t2))) = Ok t1 →
                indexed t1 ∧ config_body t1 = config_body t
                ∧ global_scope_index t ≤ global_scope_index t1) as Hother.
  { intros t1 H1. cbn zeta in H1. apply bind_Ok in H1 as ([key t2] & Hn & H1).
    injection H1 as <-.
    assert (t2 = with_global_scope_index (global_scope_index t + 100) t
            ∨ t2 = with_next_id (S (next_id t))
                     (with_global_scope_index (global_scope_index t + 100) t)) as Ht2.
    { unfold node_name in Hn.
      repeat case_match; simplify_eq/=;
        try (apply bind_Ok in Hn as (v & _ & Hn); destruct v; simplify_eq/=);
        by auto. }
    destruct Ht2 as [-> | ->].
    - split_and!; [by apply indexed_set | done | cbn; lia].
    - split_and!; [| done | cbn; lia].
      unfold indexed in *. apply below_set; cbn; [lia|].
      eapply below_weaken; [|exact Hb]. lia. }
  destruct body as [|first rest]; [by apply Hother|].
  destruct first, rest; try (by apply Hother).
  - injection H as <-. split_and!; [exact Hb | reflexivity | cbn; lia].
  - apply bind_Ok in H as (fs & _ & H).
    destruct (search_transformers_import fs); injection H as <-;
      (split_and!; [exact Hb | reflexivity | cbn; lia]).
Qed.

Lemma step_invariant ev t t' :
  step parse_source find_classes_in_file ev t = Ok t' →
  indexed t →
  indexed t'
  ∧ global_scope_index t ≤ global_scope_index t'
  ∧ if is_config_event ev
    then ∃ c, config_body t' = Some [c]
    else config_body t' = config_body t.
Proof.
  destruct ev as [m names|pm n|pm n|o u|pm o n]; cbn [step is_config_event]; intros H Hb.
  - apply visit_ImportFrom_frame in H as (Hn & Hg & Hc & _).
    unfold indexed, below in *. rewrite Hn, Hg. split_and!; [done | lia | done].
  - injection H as <-. unfold leave_FunctionDef.
    destruct n; try (split_and!; [done | lia | done]).
    destruct pm; [|split_and!; [done | lia | done]].
    split_and!; [by apply indexed_set | cbn; lia | done].
  - apply leave_SimpleStatementLine_frame in H as (? & ? & ?); done.
  - destruct o as [| |ll class_name obases body| |];
      try (injection H as <-; split_and!; [done | lia | done]).
    destruct u as [| |ull uname ubases ubody| |];
      try (injection H as <-; split_and!; [done | lia | done]).
    apply leave_ClassDef_spec in H as (Hg & _ & Hi & c & _ & Hc); [|done].
    split_and!; [done | lia |].
    destruct (contains "Config" class_name); [exists c|]; by destruct Hc.
  - injection H as <-. unfold leave_If.
    destruct o; try (split_and!; [done | lia | done]).
    destruct n; try (split_and!; [done | lia | done]).
    destruct pm; [|split_and!; [done | lia | done]].
    destruct (search_availability _); [split_and!; [done | cbn; lia | done]|].
    destruct (dict_mem _ _); [split_and!; [done | lia | done]|].
    split_and!; [| cbn; lia | done].
    unfold indexed in *. apply below_set; cbn; [lia | done].
Qed.

Lemma init_indexed new_name : indexed (init new_name).
Proof. constructor. Qed.

Lemma run_invariant evs t t' :
  run parse_source find_classes_in_file evs t = Ok t' →
  indexed t →
  indexed t' ∧ global_scope_index t ≤ global_scope_index t'.
Proof.
  revert t. induction evs as [|ev evs IH]; intros t H Hb.
  - injection H as <-. split; [done | lia].
  - cbn [run] in H. apply bind_Ok in H as (t1 & Hs & H).
    apply step_invariant in Hs as (Hb1 & Hg1 & _); [|done].
    destruct (IH _ H Hb1) as (Hb2 & Hg2). split; [done | lia].
Qed.

Lemma run_app evs1 evs2 t :
  run parse_source find_classes_in_file (evs1 ++ evs2) t
  = (t1 ← run parse_source find_classes_in_file evs1 t;
     run parse_source find_classes_in_file evs2 t1).
Proof.
  revert t. induction evs1 as [|ev evs1 IH]; intros t; [done|].
  cbn [run app]. destruct (step parse_source find_classes_in_file ev t) as [t1|e]; [|done].
  apply IH.
Qed.

(** Events that are not the end of a [Config] class keep [config_body]. *)
Lemma run_keeps_config_body evs t t' :
  run parse_source find_classes_in_file evs t = Ok t' →
  indexed t →
  existsb is_config_event evs = false →
  config_body t' = config_body t.
Proof.
  revert t. induction evs as [|ev evs IH]; intros t H Hb Hno.
  - by injection H as <-.
  - cbn [run] in H. apply bind_Ok in H as (t1 & Hs & H).
    cbn [existsb] in Hno. apply orb_false_iff in Hno as [Hev Hno].
    apply step_invariant in Hs as (Hb1 & _ & Hc); [|done].
    rewrite Hev in Hc. rewrite (IH _ H Hb1 Hno). done.
Qed.

(** [config_body] is set exactly when the end of a [Config] class was
    met, and then holds one node. *)
Lemma run_config_body evs t t' :
  run parse_source find_classes_in_file evs t = Ok t' →
  indexed t →
  if existsb is_config_event evs
  then ∃ c, config_body t' = Some [c]
  else config_body t' = config_body t.
Proof.
  revert t. induction evs as [|ev evs IH]; intros t H Hb.
  - by injection H as <-.
  - cbn [run] in H. apply bind_Ok in H as (t1 & Hs & H).
    apply step_invariant in Hs as (Hb1 & _ & Hc); [|done].
    specialize (IH _ H Hb1). cbn [existsb].
    destruct (existsb is_config_event evs); [by rewrite orb_true_r|].
    rewrite orb_false_r. destruct (is_config_event ev); [|congruence].
    destruct Hc as [c Hc]. exists c. congruence.
Qed.

(** *** The configuration body *)

(** [all_imports] holds import lines and availability blocks only. *)
Definition imports_only (t : transformer) : Prop :=
  Forall (fun n => is_class_def n = false) (all_imports t).

Lemma imports_only_snoc n t :
  is_class_def n = false → imports_only t →
  imports_only (with_all_imports (all_imports t ++ [n]) t).
Proof.
  unfold imports_only. cbn. intros Hn Ht. apply Forall_app. split; [done|].
  by repeat constructor.
Qed.

Lemma step_imports_only ev t t' :
  step parse_source find_classes_in_file ev t = Ok t' →
  indexed t →
  imports_only t → imports_only t'.
Proof.
  destruct ev as [m names|pm n|pm n|o u|pm o n]; cbn [step]; intros H Hb Hi.
  - apply visit_ImportFrom_frame in H as (_ & _ & _ & Ha).
    unfold imports_only. by rewrite Ha.
  - injection H as <-. unfold leave_FunctionDef.
    destruct n; try done. by destruct pm.
  - unfold leave_SimpleStatementLine in H.
    destruct n as [ll body| | | |]; try (by injection H as <-).
    destruct pm; [|by injection H as <-].
    assert (∀ t1, (let idx := global_scope_index t + 100 in
                   let t0 := with_global_scope_index idx t in
                   node_name body t0 ≫= (fun '(key, t2) =>
                     Ok (set_new_body key idx (SimpleStatementLine ll body) t2))) = Ok t1 →
                  imports_only t1) as Hother.
    { intros t1 H1. cbn zeta in H1. apply bind_Ok in H1 as ([key t2] & Hn & H1).
      injection H1 as <-. unfold node_name in Hn.
      repeat case_match; simplify_eq/=;
        try (apply bind_Ok in Hn as (v & _ & Hn); destruct v; simplify_eq/=);
        done. }
    destruct body as [|first rest]; [by apply Hother|].
    destruct first, rest; try (by apply Hother).
    + injection H as <-. by apply imports_only_snoc.
    + apply bind_Ok in H as (fs & _ & H).
      destruct (search_transformers_import fs); injection H as <-; [done|].
      by apply imports_only_snoc.
  - destruct o as [| |ll class_name obases body| |]; try (by injection H as <-).
    destruct u as [| |ull uname ubases ubody| |]; try (by injection H as <-).
    apply leave_ClassDef_spec in H as (_ & Ha & _); [|done].
    unfold imports_only. by rewrite Ha.
  - injection H as <-. unfold leave_If.
    destruct o; try done. destruct n; try done. destruct pm; [|done].
    destruct (search_availability _); [by apply imports_only_snoc|].
    by destruct (dict_mem _ _).
Qed.

Lemma run_imports_only evs t t' :
  run parse_source find_classes_in_file evs t = Ok t' →
  indexed t → imports_only t → imports_only t'.
Proof.
  revert t. induction evs as [|ev evs IH]; intros t H Hb Hi.
  - by injection H as <-.
  - cbn [run] in H. apply bind_Ok in H as (t1 & Hs & H).
    pose proof (step_imports_only _ _ _ Hs Hb Hi) as Hi1.
    apply step_invariant in Hs as (Hb1 & _ & _); [|done].
    by apply (IH t1).
Qed.

Lemma by_code_values nodes n : n ∈ dict_values (by_code nodes) → n ∈ nodes.
Proof.
  unfold by_code, dict_of_list. intros Hn.
  apply dict_update_values in Hn as [Hn|Hn]; [by apply elem_of_nil in Hn|].
  unfold dict_values in Hn. apply list_elem_of_fmap in Hn as ([k v] & -> & Hn).
  apply list_elem_of_In, in_map_iff in Hn as (x & [= _ ->] & Hx).
  by apply list_elem_of_In.
Qed.

(** The import block that [leave_Module] puts in front of the
    configuration class. *)
Definition import_block (t : transformer) : list stmt :=
  dict_values (by_code (all_imports t)).

Lemma import_block_no_class t :
  imports_only t → Forall (fun n => is_class_def n = false) (import_block t).
Proof.
  unfold imports_only, import_block. rewrite !Forall_forall.
  intros Hi n Hn. apply Hi. by apply by_code_values.
Qed.

Lemma leave_Module_config_body t :
  config_body (leave_Module t).1 = (fun cb => import_block t ++ cb) <$> config_body t.
Proof.
  unfold leave_Module, import_block. cbn [fst].
  destruct (config_body t) as [cb|] eqn:Hcb; cbn; [done | by rewrite Hcb].
Qed.

(** [run_ruff] applied twice to the code of a module. *)
Definition formatted (m : py_module) : string :=
  run_ruff (run_ruff (module_code m) true) false.

(** C9, as amended.  A conversion that raises writes no file.  One that
    completes writes the modeling file exactly when the formatted text
    of the module the traversal returns, which is the diff module with
    its header and footer around the emitted body, is not empty once
    stripped; it writes the configuration file exactly when the
    traversal met the end of a class whose name contains [Config],
    whatever the modeling text is, from a new module that has the header
    of the diff module and no footer; it writes nothing else. *)
Theorem files_written diff_file diff_module evs writes r :
  convert_file parse_source find_classes_in_file run_ruff diff_file diff_module evs
  = (writes, r) →
  match r with
  | Raise _ => writes = []
  | Ok t =>
      ∃ new_name t0 modeling configuration,
        search_diff_name diff_file = Some new_name
        ∧ run parse_source find_classes_in_file evs (init new_name) = Ok t0
        ∧ t = (leave_Module t0).1
        ∧ writes = modeling ++ configuration
        ∧ modeling
          = (if String.eqb (strip (formatted (with_body (leave_Module t0).2 diff_module)))
                           EmptyString
             then []
             else [(replace "diff_" "modeling_" diff_file,
                    AUTO_GENERATED_MESSAGE
                    +:+ formatted (with_body (leave_Module t0).2 diff_module))])
        ∧ if existsb is_config_event evs
          then ∃ c, configuration
                    = [(replace "diff_" "configuration_" diff_file,
                        AUTO_GENERATED_MESSAGE
                        +:+ formatted (make_module (header diff_module)
                                         (import_block t0 ++ [c])))]
          else configuration = []
  end.
Proof.
  unfold convert_file. intros H.
  destruct (search_diff_name diff_file) as [new_name|]; [|by injection H as <- <-].
  destruct (run parse_source find_classes_in_file evs (init new_name)) as [t0|e] eqn:Hrun;
    [|by injection H as <- <-].
  pose proof (leave_Module_config_body t0) as Hcb.
  pose proof (run_config_body _ _ _ Hrun (init_indexed new_name)) as Hcfg.
  destruct (leave_Module t0) as [t1 body] eqn:Hlm. cbn [fst snd] in Hcb.
  injection H as <- <-.
  exists new_name, t0. eexists _, _. rewrite Hlm. cbn [fst snd].
  split_and!; [reflexivity | exact Hrun | reflexivity | reflexivity | reflexivity |].
  rewrite Hcb.
  destruct (existsb is_config_event evs).
  - destruct Hcfg as [c ->]. by exists c.
  - by rewrite Hcfg.
Qed.


(** *** The order of the emitted module *)


End Facts.

Section Conversions.
Existing Instance canonical_printer.

(** *** Concrete conversions *)

(** Collaborators for the examples: a loader that finds nothing, one that
    returns a given tree, an analysis that returns a given finder, and a
    formatter that leaves the text as it is. *)
Definition no_source : string → result py_module :=
  fun name => Raise (ExternalError ("Module " +:+ name +:+ " not found")).

Definition source_of (tree : py_module) : string → result py_module :=
  fun _ => Ok tree.

Definition no_finder : py_module → string → string → result class_finder :=
  fun _ _ _ => Raise (ExternalError "not analysed").

Definition finder_of (cf : class_finder) : py_module → string → string → result class_finder :=
  fun _ _ _ => Ok cf.

Definition ruff_id : string → bool → string := fun text _ => text.

(** The module parsed from a file that has these statements and no line
    in front of the first or after the last. *)
Definition parsed (body : list stmt) : py_module := make_module "" body.

Definition dotted (path : list string) : option expr :=
  match path with
  | [] => None
  | first :: rest => Some (foldl Attribute (Name first) rest)
  end.

(** [from <path> import <name>]. *)
Definition import_from (path : list string) (name : string) : stmt :=
  SimpleStatementLine "" [ImportFrom (dotted path) (Some [ImportAlias name None ""])].

(** The callbacks libcst makes for the line [from <path> import <name>]
    at the top of a diff file. *)
Definition import_events (path : list string) (name : string) : list event :=
  [ VisitImportFrom (dotted path) (Some [ImportAlias name None ""]);
    LeaveSimpleStatementLine true (import_from path name) ].

Definition pass_line : stmt := SimpleStatementLine "" [OtherSmall "pass"].

(** The callbacks for a top-level class whose body is [pass]. *)
Definition class_events (c : stmt) : list event :=
  [ LeaveSimpleStatementLine false pass_line; LeaveClassDef c c ].

Definition modeling_llama : list string :=
  ["transformers"; "models"; "llama"; "modeling_llama"].

Definition configuration_llama : list string :=
  ["transformers"; "models"; "llama"; "configuration_llama"].

(** [from transformers.models.llama.modeling_llama import LlamaConfig]. *)
Lemma config_import_rejected_witness :
  visit_ImportFrom no_source (dotted modeling_llama)
    (Some [ImportAlias "LlamaConfig" None ""]) (init "gemma")
  = Raise (ValueError (config_import_message "LlamaConfig"))
  ∧ ∃ e, convert_file no_source no_finder ruff_id "diff_gemma.py"
           (parsed [import_from modeling_llama "LlamaConfig"])
           (import_events modeling_llama "LlamaConfig")
         = ([], Raise e).
Proof.
  destruct (config_import_rejected no_source no_finder ruff_id
              (Attribute (Attribute (Name "transformers") "models") "llama")
              "modeling_llama" "llama" "llama"
              [ImportAlias "LlamaConfig" None ""] (ImportAlias "LlamaConfig" None ""))
    as (_ & _ & Hfirst & Hconv).
  - reflexivity.
  - reflexivity.
  - reflexivity.
  - reflexivity.
  - apply list_elem_of_here.
  - reflexivity.
  - split.
    + exact (Hfirst (init "gemma") [] eq_refl).
    + apply Hconv. apply list_elem_of_here.
Defined.

(** C3 as stated fails when a name without [Config] comes first and the
    module of the path cannot be loaded:

      from transformers.models.llama.modeling_llama import LlamaModel, LlamaConfig

    [LlamaModel] is registered first, which loads and parses the module;
    the error of the loader ends the visit before [LlamaConfig] is
    looked at, and it is no [ValueError]. *)
Lemma config_import_counterexample :
  let names := [ImportAlias "LlamaModel" None ", "; ImportAlias "LlamaConfig" None ""] in
  visit_ImportFrom no_source (dotted modeling_llama) (Some names) (init "gemma")
  = Raise (ExternalError "Module transformers.models.llama.modeling_llama not found")
  ∧ ∀ msg, visit_ImportFrom no_source (dotted modeling_llama) (Some names) (init "gemma")
           ≠ Raise (ValueError msg).
Proof.
  split; [vm_compute; reflexivity|].
  intros msg. vm_compute. discriminate.
Qed.

(** [class FooModel(Bar): pass] in a diff file that imports nothing. *)
Definition foo_model : stmt := ClassDef "" "FooModel" [(Name "Bar", "")] [pass_line].

Lemma unimported_base_ignored_witness :
  leave_ClassDef no_finder foo_model foo_model (init "foo")
  = Ok (set_new_body (KStr "FooModel") 100 foo_model
          (with_global_scope_index 100 (init "foo"))).
Proof.
  exact (proj2 (unimported_base_ignored no_finder "" "FooModel" [] "Bar" "" []
                  [pass_line] foo_model (init "foo") eq_refl)
           "" "FooModel" [(Name "Bar", "")] [pass_line] eq_refl).
Defined.

(** C6 as stated fails: the class is stored, nothing is raised, and the
    conversion goes on to write the modeling file. *)
Lemma unimported_base_counterexample :
  is_ok (leave_ClassDef no_finder foo_model foo_model (init "foo")) = true
  ∧ (∀ msg, leave_ClassDef no_finder foo_model foo_model (init "foo")
            ≠ Raise (ImportError msg))
  ∧ (convert_file no_source no_finder ruff_id "diff_foo.py" (parsed [foo_model])
       (class_events foo_model)).1.*1
    = ["modeling_foo.py"].
Proof.
  split; [reflexivity|]. split; [intros msg; vm_compute; discriminate|].
  vm_compute. reflexivity.
Qed.

(** C8 on a model directory with an underscore in its name: the search
    runs over the whole dotted path and stops at the first underscore,
    so the text that follows it is not the model name. *)
Lemma old_model_name_big_bird :
  search_model_name "transformers.models.big_bird.modeling_big_bird"
  = Some "bird.modeling_big_bird".
Proof. reflexivity. Qed.

(** The name reaches the renamer as it is: an analysis that raises with
    the old name it is given shows it. *)
Definition echo_finder : py_module → string → string → result class_finder :=
  fun _ old_name _ => Raise (ExternalError old_name).

Definition big_bird_model : stmt :=
  ClassDef "" "NewModel" [(Name "BigBirdModel", "")] [pass_line].

Example old_model_name_passed_on :
  run (source_of (make_module "" [])) echo_finder
    (import_events ["transformers"; "models"; "big_bird"; "modeling_big_bird"] "BigBirdModel"
     ++ class_events big_bird_model)
    (init "new")
  = Raise (ExternalError "bird.modeling_big_bird").
Proof. vm_compute. reflexivity. Qed.

(** A diff file that defines nothing but a configuration class:

      from transformers import PretrainedConfig
      class FooConfig(PretrainedConfig):
          pass *)
Definition foo_config : stmt :=
  ClassDef "" "FooConfig" [(Name "PretrainedConfig", "")] [pass_line].

Definition import_pretrained_config : stmt :=
  import_from ["transformers"] "PretrainedConfig".

Definition config_only_diff : list event :=
  import_events ["transformers"] "PretrainedConfig" ++ class_events foo_config.

Definition config_only_module : py_module :=
  parsed [import_pretrained_config; foo_config].

Definition config_only_state : transformer :=
  Transformer "foo" ∅ ∅ [] [] [] [import_pretrained_config] 100
    (Some [import_pretrained_config; foo_config]) 0.

Definition config_only_files : list (string * string) :=
  [("configuration_foo.py",
    AUTO_GENERATED_MESSAGE
    +:+ formatted ruff_id (make_module "" [import_pretrained_config; foo_config]))].

Lemma files_written_witness :
  ∃ new_name t0 modeling configuration,
    search_diff_name "diff_foo.py" = Some new_name
    ∧ run no_source no_finder config_only_diff (init new_name) = Ok t0
    ∧ config_only_state = (leave_Module t0).1
    ∧ config_only_files = modeling ++ configuration
    ∧ modeling
      = (if String.eqb
              (strip (formatted ruff_id (with_body (leave_Module t0).2 config_only_module)))
              EmptyString
         then []
         else [(replace "diff_" "modeling_" "diff_foo.py",
                AUTO_GENERATED_MESSAGE
                +:+ formatted ruff_id (with_body (leave_Module t0).2 config_only_module))])
    ∧ ∃ c, configuration
           = [(replace "diff_" "configuration_" "diff_foo.py",
               AUTO_GENERATED_MESSAGE
               +:+ formatted ruff_id (make_module (header config_only_module)
                                        (import_block t0 ++ [c])))].
Proof.
  apply (files_written no_source no_finder ruff_id "diff_foo.py" config_only_module
           config_only_diff config_only_files (Ok config_only_state)).
  vm_compute. reflexivity.
Defined.

(** C9 as stated fails: the formatted text of the module is empty, no
    modeling file is written, and the configuration file is. *)
Lemma files_written_counterexample :
  let conversion :=
    convert_file no_source no_finder ruff_id "diff_foo.py" config_only_module
      config_only_diff in
  (∃ t0, run no_source no_finder config_only_diff (init "foo") = Ok t0
         ∧ strip (formatted ruff_id (with_body (leave_Module t0).2 config_only_module))
           = EmptyString)
  ∧ conversion.1.*1 = ["configuration_foo.py"]
  ∧ conversion.1 ≠ [].
Proof.
  split; [|split].
  - eexists. split; [vm_compute; reflexivity | reflexivity].
  - vm_compute. reflexivity.
  - vm_compute. discriminate.
Qed.

(** The same file with a comment after the class: the comment is the
    footer of the module, the text of the module is not empty, and the
    modeling file is written with nothing but the comment in it. *)
Definition config_only_commented : py_module :=
  PyModule "" [import_pretrained_config; foo_config] "# end of the file
" true "    " Codegen.nl.

Example footer_is_written :
  (convert_file no_source no_finder ruff_id "diff_foo.py" config_only_commented
     config_only_diff).1
  = [("modeling_foo.py", AUTO_GENERATED_MESSAGE +:+ "# end of the file
");
     ("configuration_foo.py",
      AUTO_GENERATED_MESSAGE
      +:+ formatted ruff_id (make_module "" [import_pretrained_config; foo_config]))].
Proof. vm_compute. reflexivity. Qed.

(** The same file followed by a second configuration class and a
    function:

      class BarConfig(PretrainedConfig):
          pass
      def helper():
          pass *)
Definition bar_config : stmt :=
  ClassDef "" "BarConfig" [(Name "PretrainedConfig", "")] [pass_line].

Definition helper_function : stmt :=
  FunctionDef "" [] "helper" (Parameters [] None [] None []) [pass_line].

Definition helper_events : list event :=
  [ LeaveSimpleStatementLine false pass_line; LeaveFunctionDef true helper_function ].


(** The renamed [modeling_llama] of the examples:

      class GemmaRMSNorm(nn.Module):
          pass
      class GemmaModel(nn.Module):
          norm = GemmaRMSNorm
          def forward(self, x):
              x = self.embed(x)
              x = self.norm(x)
              return x *)
Definition gemma_rms_norm : stmt :=
  ClassDef "" "GemmaRMSNorm" [(Attribute (Name "nn") "Module", "")] [pass_line].

Definition norm_line : stmt :=
  SimpleStatementLine "" [Assign [Name "norm"] (Name "GemmaRMSNorm")].

Definition gemma_forward : stmt :=
  SuperCallFacts.base_forward (SuperCallFacts.call_on_x "embed")
    (SuperCallFacts.call_on_x "norm") SuperCallFacts.return_x.

Definition gemma_model : stmt :=
  ClassDef "" "GemmaModel" [(Attribute (Name "nn") "Module", "")]
    [norm_line; gemma_forward].

Definition finder_after (evs : list Finder.event) : class_finder :=
  match Finder.run evs Finder.init with
  | Ok cf => cf
  | Raise _ => Finder.init
  end.

(** The callbacks of the class finder on that module that register a
    definition or meet a registered name; every other callback of the
    traversal meets an unknown name and changes nothing. *)
Definition gemma_finder : class_finder :=
  finder_after
    [ Finder.VisitClassDef gemma_rms_norm;
      Finder.LeaveName "GemmaRMSNorm" GlobalScope;
      Finder.LeaveArg (Attribute (Name "nn") "Module") (Some gemma_rms_norm);
      Finder.VisitSimpleStatementLine pass_line false 0;
      Finder.VisitClassDef gemma_model;
      Finder.LeaveName "GemmaModel" GlobalScope;
      Finder.LeaveArg (Attribute (Name "nn") "Module") (Some gemma_model);
      Finder.VisitSimpleStatementLine norm_line false 0;
      Finder.LeaveName "GemmaRMSNorm" (LocalScope "GemmaModel");
      Finder.VisitFunctionDef gemma_forward false;
      Finder.LeaveModule (fun k => if bool_decide (k = "GemmaRMSNorm") then 1 else 3) ].

Example gemma_finder_deps :
  Finder.deps gemma_finder "GemmaModel" = {[ "nn.Module"; "GemmaRMSNorm" ]}.
Proof. vm_compute. reflexivity. Qed.

(** The diff file:

      from transformers.models.llama.modeling_llama import LlamaModel
      class GemmaModel(LlamaModel):
          def forward(self, x):
              x = self.embed(x)
              return super().forward(x) *)
Definition diff_forward : stmt :=
  SuperCallFacts.override_forward (SuperCallFacts.call_on_x "embed").

Definition diff_gemma_model : stmt :=
  ClassDef "" "GemmaModel" [(Name "LlamaModel", "")] [diff_forward].

Definition before_gemma_model : list event :=
  import_events modeling_llama "LlamaModel"
  ++ [ LeaveSimpleStatementLine false (SuperCallFacts.call_on_x "embed");
       LeaveSimpleStatementLine false SuperCallFacts.return_super_forward;
       LeaveFunctionDef false diff_forward ].

Definition gemma_before_class : transformer :=
  Transformer "gemma"
    {[ "transformers.models.llama.modeling_llama" := make_module "" [] ]}
    {[ "LlamaModel" := "transformers.models.llama.modeling_llama" ]}
    [] [] [] [] 0 None 0.

Definition gemma_after_class : transformer :=
  Transformer "gemma"
    {[ "transformers.models.llama.modeling_llama" := make_module "" [] ]}
    {[ "LlamaModel" := "transformers.models.llama.modeling_llama" ]}
    [("transformers.models.llama.modeling_llama", gemma_finder)]
    [(KStr "GemmaRMSNorm", Entry 99 gemma_rms_norm);
     (KStr "GemmaModel", Entry 100 gemma_model)]
    ["GemmaRMSNorm"] [] 100 None 0.


Example gemma_module_body :
  (leave_Module gemma_after_class).2 = [gemma_rms_norm; gemma_model].
Proof. vm_compute. reflexivity. Qed.

(** C1 as stated fails for a class whose name contains [Config]: its
    dependency is pulled into the output map, and the class itself goes
    to the configuration body, so that its node is nowhere in the
    emitted module.  The renamed [configuration_llama] is

      logger = logging.get_logger(__name__)
      class GemmaConfig(PretrainedConfig):
          def __init__(self):
              logger.info(self)

    and the diff file

      from transformers.models.llama.configuration_llama import LlamaConfig
      class GemmaConfig(LlamaConfig):
          pass *)
Definition logger_line : stmt :=
  SimpleStatementLine ""
    [Assign [Name "logger"] (Call (Attribute (Name "logging") "get_logger") [Name "__name__"])].

Definition logger_call : stmt :=
  SimpleStatementLine "" [Expr (Call (Attribute (Name "logger") "info") [Name "self"])].

Definition config_init : stmt :=
  FunctionDef "" [] "__init__" (Parameters [Param "self" ""] None [] None []) [logger_call].

Definition gemma_config : stmt :=
  ClassDef "" "GemmaConfig" [(Name "PretrainedConfig", "")] [config_init].

Definition gemma_config_finder : class_finder :=
  finder_after
    [ Finder.VisitSimpleStatementLine logger_line true 0;
      Finder.LeaveName "logger" GlobalScope;
      Finder.VisitClassDef gemma_config;
      Finder.LeaveName "GemmaConfig" GlobalScope;
      Finder.LeaveArg (Name "PretrainedConfig") (Some gemma_config);
      Finder.VisitFunctionDef config_init false;
      Finder.VisitSimpleStatementLine logger_call false 0;
      Finder.LeaveName "logger" (LocalScope "GemmaConfig.__init__");
      Finder.LeaveModule (fun k => if bool_decide (k = "logger") then 1 else 2) ].

Example gemma_config_finder_deps :
  Finder.deps gemma_config_finder "GemmaConfig" = {[ "PretrainedConfig"; "logger" ]}.
Proof. vm_compute. reflexivity. Qed.

Definition diff_gemma_config : stmt :=
  ClassDef "" "GemmaConfig" [(Name "LlamaConfig", "")] [pass_line].

Definition config_diff : list event :=
  import_events configuration_llama "LlamaConfig" ++ class_events diff_gemma_config.


(** The order is also lost when the diff file defines, after the class,
    a name that was pulled in for it: the later definition takes the
    entry over with a larger index. *)
Definition diff_rms_norm : stmt :=
  ClassDef "" "GemmaRMSNorm" [(Attribute (Name "nn") "Module", "")]
    [SimpleStatementLine "" [Assign [Name "eps"] (OtherExpr "1e-6" (Some (PStr "1e-6")))]].

Example dependency_defined_later :
  ∃ t, run (source_of (make_module "" [])) (finder_of gemma_finder)
         (before_gemma_model
          ++ [ LeaveClassDef diff_gemma_model diff_gemma_model;
               LeaveSimpleStatementLine false
                 (SimpleStatementLine "" [Assign [Name "eps"] (OtherExpr "1e-6" (Some (PStr "1e-6")))]);
               LeaveClassDef diff_rms_norm diff_rms_norm ])
         (init "gemma") = Ok t
       ∧ (leave_Module t).2 = [gemma_model; diff_rms_norm].
Proof. eexists. split; [vm_compute; reflexivity | reflexivity]. Qed.

End Conversions.

Section Imports.
Context {printer : Printer}.
Variable parse_source : string → result py_module.
Variable find_classes_in_file : py_module → string → string → result class_finder.
Variable run_ruff : string → bool → string.

(** *** Imports the converter cannot handle *)

(** X14.  An import without a module ([from . import x]) and a star import
    from a dotted module stop the conversion, which then writes no file;
    a star import from a plain module is passed over. *)
Theorem unsupported_imports names v attr :
  (∀ t, visit_ImportFrom parse_source None names t
        = Raise (AttributeError "'NoneType' object has no attribute '_codegen'"))
  ∧ (∀ t, visit_ImportFrom parse_source (Some (Attribute v attr)) None t
          = Raise (TypeError "'ImportStar' object is not iterable"))
  ∧ (∀ t n, visit_ImportFrom parse_source (Some (Name n)) None t = Ok t)
  ∧ (∀ diff_file diff_module evs,
       VisitImportFrom None names ∈ evs
       ∨ VisitImportFrom (Some (Attribute v attr)) None ∈ evs →
       ∃ e, convert_file parse_source find_classes_in_file run_ruff diff_file diff_module evs
            = ([], Raise e)).
Proof.
  split_and!; [done..|].
  intros diff_file diff_module evs Hev. unfold convert_file.
  destruct (search_diff_name diff_file) as [new_name|]; [|by eexists].
  assert (∃ e, run parse_source find_classes_in_file evs (init new_name) = Raise e)
    as [e ->]; [|by eexists].
  destruct Hev as [Hev|Hev];
    (eapply (run_raises parse_source find_classes_in_file); [|exact Hev]);
    intros t; by eexists.
Qed.

(** *** Imports from a model file *)

Lemma with_imports_twice ti im ti' im' t :
  with_imports ti' im' (with_imports ti im t) = with_imports ti' im' t.
Proof. reflexivity. Qed.

(** The module a path stands for: the one already parsed, or else the
    one the loader returns. *)
Definition module_of (path : string) (t : transformer) : result py_module :=
  match transformers_imports t !! path with
  | Some tree => Ok tree
  | None => parse_source path
  end.

Lemma visit_names_cached path tree (names : list import_alias) t :
  search_transformers_import path = Some "configuration"
  ∨ Forall (fun a => contains "Config" (Codegen.code_alias a) = false) names →
  is_Some (search_transformers_import path) →
  transformers_imports t !! path = Some tree →
  foldl (fun acc imported_ => t ← acc; visit_imported parse_source path imported_ t)
        (Ok t) names
  = Ok (with_imports (transformers_imports t)
          (foldl (fun m a => <[ alias_name a := path ]> m) (imported_mapping t) names) t).
Proof.
  intros Hok [source Hs] Hc. revert t Hc.
  induction names as [|a names IH]; intros t Hc.
  - by destruct t.
  - cbn [foldl].
    change (Ok t ≫= (fun t => visit_imported parse_source path a t))
      with (visit_imported parse_source path a t).
    assert (visit_imported parse_source path a t
            = Ok (with_imports (transformers_imports t)
                    (<[ alias_name a := path ]> (imported_mapping t)) t)) as ->.
    { unfold visit_imported. rewrite Hs, Hc.
      destruct Hok as [Hcfg|Hnames].
      - rewrite Hs in Hcfg. injection Hcfg as ->. by rewrite bool_decide_eq_false_2.
      - apply Forall_cons in Hnames as [Ha _]. by rewrite Ha, andb_false_r. }
    rewrite IH; [done | | done].
    destruct Hok as [Hcfg|Hnames]; [by left | right].
    by apply Forall_cons in Hnames as [_ ?].
Qed.

(** X15.  An import from a model file, none of whose names is refused,
    binds every imported name to the dotted path of the file, and parses
    the file unless that was done before. *)
Theorem visit_ImportFrom_records v attr names tree t :
  let path := Codegen.code_expr (Attribute v attr) in
  names ≠ [] →
  is_Some (search_transformers_import path) →
  search_transformers_import path = Some "configuration"
  ∨ Forall (fun a => contains "Config" (Codegen.code_alias a) = false) names →
  module_of path t = Ok tree →
  visit_ImportFrom parse_source (Some (Attribute v attr)) (Some names) t
  = Ok (with_imports (<[ path := tree ]> (transformers_imports t))
          (foldl (fun m a => <[ alias_name a := path ]> m) (imported_mapping t) names) t).
Proof.
  intros path Hne [source Hs] Hok Hmod.
  unfold visit_ImportFrom. cbn [code_for_module mbind result_bind is_attribute].
  fold path. destruct names as [|a names]; [done|]. cbn [foldl].
  change (Ok t ≫= (fun t => visit_imported parse_source path a t))
    with (visit_imported parse_source path a t).
  assert (visit_imported parse_source path a t
          = Ok (with_imports (<[ path := tree ]> (transformers_imports t))
                  (<[ alias_name a := path ]> (imported_mapping t)) t)) as ->.
  { unfold visit_imported. rewrite Hs.
    assert (bool_decide (source = "modeling")
            && contains "Config" (Codegen.code_alias a) = false) as ->.
    { destruct Hok as [Hcfg|Hnames].
      - rewrite Hs in Hcfg. injection Hcfg as ->. by rewrite bool_decide_eq_false_2.
      - apply Forall_cons in Hnames as [Ha _]. by rewrite Ha, andb_false_r. }
    unfold module_of in Hmod.
    destruct (transformers_imports t !! path) as [tree0|] eqn:Hc.
    - injection Hmod as ->. cbn [mbind result_bind]. by rewrite (insert_id _ _ _ Hc).
    - rewrite Hmod. done. }
  rewrite (visit_names_cached path tree); [done | | by eexists |].
  - destruct Hok as [Hcfg|Hnames]; [by left | right].
    by apply Forall_cons in Hnames as [_ ?].
  - cbn. by rewrite lookup_insert_eq.
Qed.

End Imports.

Section ImportsExamples.
Existing Instance canonical_printer.

Lemma visit_ImportFrom_records_witness :
  let path := "transformers.models.llama.modeling_llama" in
  visit_ImportFrom (source_of (make_module "" [])) (dotted modeling_llama)
    (Some [ImportAlias "LlamaModel" None ", "; ImportAlias "LlamaMLP" None ""])
    (init "gemma")
  = Ok (with_imports {[ path := make_module "" [] ]}
          (<[ "LlamaMLP" := path ]> {[ "LlamaModel" := path ]})
          (init "gemma")).
Proof.
  apply (visit_ImportFrom_records (source_of (make_module "" []))
           (Attribute (Attribute (Name "transformers") "models") "llama") "modeling_llama"
           [ImportAlias "LlamaModel" None ", "; ImportAlias "LlamaMLP" None ""]
           (make_module "" []) (init "gemma")).
  - done.
  - by eexists.
  - right. repeat constructor.
  - reflexivity.
Defined.

End ImportsExamples.

(** *** A path that names a model file yields a model name *)

Lemma last_source_underscore l g : last_source l = Some g → mem "_" l = true.
Proof.
  revert g. induction l as [|c l IH]; intros g; [done|]. cbn [last_source].
  destruct (last_source l) as [g'|].
  - intros _. cbn [mem]. rewrite (IH g') by done. apply orb_true_r.
  - unfold startswith.
    destruct (strip_prefix ".modeling_" (String c l)) as [r|] eqn:Hm.
    + intros _. apply strip_prefix_Some in Hm. rewrite Hm, mem_app. done.
    + destruct (strip_prefix ".configuration_" (String c l)) as [r|] eqn:Hc; [|done].
      intros _. apply strip_prefix_Some in Hc. rewrite Hc, mem_app. done.
Qed.

Lemma search_transformers_import_underscore s g :
  search_transformers_import s = Some g → mem "_" s = true.
Proof.
  induction s as [|c s IH].
  - done.
  - intros H.
    assert (search_transformers_import (String c s)
            = match strip_prefix "transformers.models." (String c s) with
              | Some rest =>
                  match last_source (first_line rest) with
                  | Some g => Some g
                  | None => search_transformers_import s
                  end
              | None => search_transformers_import s
              end) as Hunfold by reflexivity.
    rewrite Hunfold in H. clear Hunfold.
    destruct (strip_prefix "transformers.models." (String c s)) as [rest|] eqn:Hp.
    + destruct (last_source (first_line rest)) as [g'|] eqn:Hl.
      * apply last_source_underscore, mem_first_line in Hl.
        apply strip_prefix_Some in Hp. rewrite Hp, mem_app, Hl. apply orb_true_r.
      * cbn [mem]. rewrite (IH H). apply orb_true_r.
    + cbn [mem]. rewrite (IH H). apply orb_true_r.
Qed.

Lemma search_model_name_of_import s g :
  search_transformers_import s = Some g → is_Some (search_model_name s).
Proof.
  intros H. apply search_transformers_import_underscore in H.
  apply after_first_char_mem in H as [rest Hrest].
  unfold search_model_name. rewrite Hrest. by eexists.
Qed.

Section Reachable.
Context {printer : Printer}.
Variable parse_source : string → result py_module.
Variable find_classes_in_file : py_module → string → string → result class_finder.

(** *** What a traversal keeps *)

(** A property of the output map that every assignment to a key keeps. *)
Definition kept_by_assignment (P : list (body_key * entry) → Prop) : Prop :=
  ∀ k e d, P d → P (dict_set k e d).

(** [t'] has the model name, the parsed modules and the imported names
    of [t], and an output map that comes from that of [t] by
    assignments. *)
Definition advances (t t' : transformer) : Prop :=
  model_name t' = model_name t
  ∧ transformers_imports t' = transformers_imports t
  ∧ imported_mapping t' = imported_mapping t
  ∧ ∀ P, kept_by_assignment P → P (new_body t) → P (new_body t').

Lemma advances_refl t : advances t t.
Proof. by split_and!. Qed.

Lemma advances_trans t1 t2 t3 : advances t1 t2 → advances t2 t3 → advances t1 t3.
Proof.
  intros (Hm1 & Ht1 & Hi1 & Hn1) (Hm2 & Ht2 & Hi2 & Hn2).
  split_and!; [congruence..|]. intros P HP H. by apply Hn2, Hn1.
Qed.

Lemma advances_set key idx n t : advances t (set_new_body key idx n t).
Proof. split_and!; [done..|]. intros P HP H. by apply HP. Qed.

Lemma insert_dependency_advances cf t s d :
  advances t (insert_dependency cf (t, s) d).1.
Proof.
  unfold insert_dependency.
  destruct (global_nodes cf !! d) as [n|]; [|apply advances_refl].
  destruct (dict_get (KStr d) (new_body t)) as [e|].
  - case_bool_decide; by split_and!.
  - split_and!; [done..|]. intros P HP H. by apply HP.
Qed.

Lemma insert_dependencies_advances cf (deps : list string) t s :
  advances t (foldl (insert_dependency cf) (t, s) deps).1.
Proof.
  revert t s. induction deps as [|d deps IH]; intros t s; cbn [foldl].
  - apply advances_refl.
  - pose proof (insert_dependency_advances cf t s d) as H.
    destruct (insert_dependency cf (t, s) d) as [t1 s1].
    eapply advances_trans; [exact H | apply IH].
Qed.

Lemma process_base_advances class_name t u super_class t' u' :
  process_base find_classes_in_file class_name (t, u) super_class = Ok (t', u') →
  advances t t'.
Proof.
  unfold process_base. intros H.
  destruct (imported_mapping t !! super_class) as [super_file_name|]; [|done].
  apply bind_Ok in H as (old_name & _ & H).
  apply bind_Ok in H as ([t1 cf] & H1 & H).
  assert (advances t t1) as Ht1.
  { destruct (dict_get super_file_name (visited_module t)).
    - injection H1 as <- <-. apply advances_refl.
    - apply bind_Ok in H1 as (tree & _ & H1).
      apply bind_Ok in H1 as (cf' & _ & H1).
      injection H1 as <- <-. by split_and!. }
  pose proof (insert_dependencies_advances cf (list_dependencies cf class_name).*1
                t1 (global_scope_index t1)) as Ht2.
  destruct (foldl (insert_dependency cf) (t1, global_scope_index t1)
              (list_dependencies cf class_name).*1) as [t2 s2].
  assert (t' = t2) as ->.
  { destruct (list_dependencies cf class_name).
    - by injection H as <- <-.
    - apply bind_Ok in H as (u2 & _ & H). by injection H as <- <-. }
  by eapply advances_trans.
Qed.

Lemma process_bases_raise class_name (bases : list string) e :
  foldl (fun acc super_class =>
           acc ← acc; process_base find_classes_in_file class_name acc super_class)
        (Raise e) bases = Raise e.
Proof. induction bases as [|b bases IH]; [done | exact IH]. Qed.

Lemma process_bases_advances class_name (bases : list string) t u t' u' :
  foldl (fun acc super_class =>
           acc ← acc; process_base find_classes_in_file class_name acc super_class)
        (Ok (t, u)) bases = Ok (t', u') →
  advances t t'.
Proof.
  revert t u. induction bases as [|b bases IH]; intros t u H.
  - injection H as <- <-. apply advances_refl.
  - cbn [foldl] in H.
    change (Ok (t, u) ≫= (fun acc =>
              process_base find_classes_in_file class_name acc b))
      with (process_base find_classes_in_file class_name (t, u) b) in H.
    destruct (process_base find_classes_in_file class_name (t, u) b)
      as [[t1 u1]|e] eqn:Hp.
    + eapply advances_trans; [by eapply process_base_advances | by eapply IH].
    + by rewrite process_bases_raise in H.
Qed.

Lemma leave_ClassDef_advances original_node updated_node t t' :
  leave_ClassDef find_classes_in_file original_node updated_node t = Ok t' →
  advances t t'.
Proof.
  unfold leave_ClassDef. intros H.
  destruct original_node as [| |ll class_name obases body| |];
    try (injection H as <-; apply advances_refl).
  destruct updated_node as [| |ull uname ubases ubody| |];
    try (injection H as <-; apply advances_refl).
  apply bind_Ok in H as (bases & _ & H).
  apply bind_Ok in H as ([t1 u1] & Hfold & H).
  apply process_bases_advances in Hfold.
  assert (advances t1 t') as H1.
  { destruct (contains "Config" class_name); injection H as <-.
    - by split_and!.
    - apply advances_set. }
  eapply advances_trans; [|exact H1].
  eapply advances_trans; [|exact Hfold]. by split_and!.
Qed.

Lemma leave_SimpleStatementLine_advances pm updated_node t t' :
  leave_SimpleStatementLine pm updated_node t = Ok t' → advances t t'.
Proof.
  unfold leave_SimpleStatementLine. intros H.
  destruct updated_node as [ll body| | | |]; try (injection H as <-; apply advances_refl).
  destruct pm; [|injection H as <-; apply advances_refl].
  assert (∀ t1, (let idx := global_scope_index t + 100 in
                 let t0 := with_global_scope_index idx t in
                 node_name body t0 ≫= (fun '(key, t2) =>
                   Ok (set_new_body key idx (SimpleStatementLine ll body) t2))) = Ok t1 →
                advances t t1) as Hother.
  { intros t1 H1. cbn zeta in H1. apply bind_Ok in H1 as ([key t2] & Hn & H1).
    injection H1 as <-.
    assert (advances t t2) as Ht2.
    { unfold node_name in Hn.
      repeat case_match; simplify_eq/=;
        try (apply bind_Ok in Hn as (v & _ & Hn); destruct v; simplify_eq/=);
        by split_and!. }
    eapply advances_trans; [exact Ht2 | apply advances_set]. }
  destruct body as [|first rest]; [by apply Hother|].
  destruct first, rest; try (by apply Hother).
  - injection H as <-. by split_and!.
  - apply bind_Ok in H as (fs & _ & H).
    destruct (search_transformers_import fs); injection H as <-; by split_and!.
Qed.

Lemma step_advances ev t t' :
  match ev with VisitImportFrom _ _ => False | _ => True end →
  step parse_source find_classes_in_file ev t = Ok t' →
  advances t t'.
Proof.
  destruct ev as [m names|pm n|pm n|o u|pm o n]; cbn [step]; intros Hev H; [done|..].
  - injection H as <-. unfold leave_FunctionDef.
    destruct n; try exact (advances_refl t).
    destruct pm; [|apply advances_refl].
    eapply advances_trans; [|apply advances_set]. by split_and!.
  - by eapply leave_SimpleStatementLine_advances.
  - by eapply leave_ClassDef_advances.
  - injection H as <-. unfold leave_If.
    destruct o; try exact (advances_refl t). destruct n; try exact (advances_refl t).
    destruct pm; [|apply advances_refl].
    destruct (search_availability _); [by split_and!|].
    destruct (dict_mem _ _); [apply advances_refl|].
    eapply advances_trans; [|apply advances_set]. by split_and!.
Qed.

(** *** Imported names *)

(** Every imported name stands for a path that names a model file and
    whose module has been parsed. *)
Definition resolved (t : transformer) : Prop :=
  ∀ c path, imported_mapping t !! c = Some path →
    is_Some (transformers_imports t !! path)
    ∧ is_Some (search_transformers_import path).

Lemma visit_imported_resolved import_statement imported_ t t' :
  visit_imported parse_source import_statement imported_ t = Ok t' →
  resolved t → resolved t'.
Proof.
  unfold visit_imported. intros H Hr.
  destruct (search_transformers_import import_statement) as [source|] eqn:Hs;
    [|by injection H as <-].
  destruct (_ && _); [done|].
  apply bind_Ok in H as (ti & Hti & H). injection H as <-.
  assert (is_Some (ti !! import_statement)
          ∧ ∀ p, is_Some (transformers_imports t !! p) → is_Some (ti !! p)) as [Hin Hmono].
  { destruct (transformers_imports t !! import_statement) as [tree|] eqn:Hc.
    - injection Hti as <-. split; [by rewrite Hc | done].
    - apply bind_Ok in Hti as (tree & _ & Hti). injection Hti as <-. split.
      + rewrite lookup_insert_eq. by eexists.
      + intros p Hp. apply lookup_insert_is_Some. destruct (decide (import_statement = p)); auto. }
  intros c path. cbn. intros Hc.
  apply lookup_insert_Some in Hc as [[_ <-]|[_ Hc]].
  - split; [done | by eexists].
  - destruct (Hr _ _ Hc) as [H1 H2]. split; [by apply Hmono | done].
Qed.

Lemma visit_ImportFrom_resolved module names t t' :
  visit_ImportFrom parse_source module names t = Ok t' →
  resolved t → resolved t'.
Proof.
  unfold visit_ImportFrom. intros H.
  apply bind_Ok in H as (import_statement & _ & H).
  destruct (is_attribute module); [|by injection H as <-].
  destruct names as [names|]; [|done].
  revert t H. induction names as [|a names IH]; intros t H Hr.
  - by injection H as <-.
  - cbn [foldl] in H.
    change (Ok t ≫= (fun t => visit_imported parse_source import_statement a t))
      with (visit_imported parse_source import_statement a t) in H.
    destruct (visit_imported parse_source import_statement a t) as [t1|e] eqn:Hv.
    + eapply IH; [exact H|]. by eapply visit_imported_resolved.
    + by rewrite visit_names_raise in H.
Qed.

Lemma step_resolved ev t t' :
  step parse_source find_classes_in_file ev t = Ok t' → resolved t → resolved t'.
Proof.
  intros H Hr.
  destruct ev as [m names|pm n|pm n|o u|pm o n] eqn:Hev;
    [by eapply visit_ImportFrom_resolved|..];
    (apply step_advances in H as (_ & Ht & Hi & _); [|done];
     unfold resolved; by rewrite Ht, Hi).
Qed.

Lemma run_resolved evs t t' :
  run parse_source find_classes_in_file evs t = Ok t' → resolved t → resolved t'.
Proof.
  revert t. induction evs as [|ev evs IH]; intros t H Hr.
  - by injection H as <-.
  - cbn [run] in H. apply bind_Ok in H as (t1 & Hs & H).
    eapply IH; [exact H|]. by eapply step_resolved.
Qed.

(** X16.  At every point of a conversion, a name recorded as imported
    stands for a path whose module has been parsed and in which the
    search for the model name succeeds: when a class is left, neither
    the lookup of the parsed module nor the search for the model name
    fails for any of its imported bases. *)
Theorem imported_bases_resolve new_name evs t c path :
  run parse_source find_classes_in_file evs (init new_name) = Ok t →
  imported_mapping t !! c = Some path →
  is_Some (transformers_imports t !! path) ∧ is_Some (search_model_name path).
Proof.
  intros Hrun Hc.
  assert (resolved (init new_name)) as H0
    by (intros ? ? H; cbn [imported_mapping init] in H; by rewrite lookup_empty in H).
  destruct (run_resolved _ _ _ Hrun H0 _ _ Hc) as [H1 [g H2]].
  split; [done | by eapply search_model_name_of_import].
Qed.

(** *** Keys of the output map *)

Lemma run_new_body_keys evs t t' :
  run parse_source find_classes_in_file evs t = Ok t' →
  NoDup (new_body t).*1 → NoDup (new_body t').*1.
Proof.
  revert t. induction evs as [|ev evs IH]; intros t H Hnd.
  - by injection H as <-.
  - cbn [run] in H. apply bind_Ok in H as (t1 & Hs & H).
    eapply IH; [exact H|].
    destruct ev as [m names|pm n|pm n|o u|pm o n] eqn:Hev.
    + cbn [step] in Hs. apply visit_ImportFrom_frame in Hs as (Hn & _). by rewrite Hn.
    + apply step_advances in Hs as (_ & _ & _ & Hs); [|done].
      apply (Hs (fun d => NoDup d.*1)); [intros k e d; apply dict_set_NoDup | done].
    + apply step_advances in Hs as (_ & _ & _ & Hs); [|done].
      apply (Hs (fun d => NoDup d.*1)); [intros k e d; apply dict_set_NoDup | done].
    + apply step_advances in Hs as (_ & _ & _ & Hs); [|done].
      apply (Hs (fun d => NoDup d.*1)); [intros k e d; apply dict_set_NoDup | done].
    + apply step_advances in Hs as (_ & _ & _ & Hs); [|done].
      apply (Hs (fun d => NoDup d.*1)); [intros k e d; apply dict_set_NoDup | done].
Qed.

End Reachable.

(** *** The order of the dependencies *)

(** No dependency that is a global node of the parent module is a key
    of the output map yet. *)
Definition unseen (cf : class_finder) (ds : list string) (t : transformer) : Prop :=
  ∀ d, d ∈ ds → is_Some (global_nodes cf !! d) → dict_get (KStr d) (new_body t) = None.

Lemma insert_dependency_other cf t s d k :
  k ≠ KStr d →
  dict_get k (new_body (insert_dependency cf (t, s) d).1) = dict_get k (new_body t).
Proof.
  intros Hk. unfold insert_dependency.
  destruct (global_nodes cf !! d) as [n|]; [|done].
  destruct (dict_get (KStr d) (new_body t)) as [e|].
  - by case_bool_decide.
  - cbn. rewrite dict_get_set. by rewrite decide_False.
Qed.

Lemma insert_dependencies_other cf (ds : list string) t s k :
  (∀ d, d ∈ ds → k ≠ KStr d) →
  dict_get k (new_body (foldl (insert_dependency cf) (t, s) ds).1) = dict_get k (new_body t).
Proof.
  revert t s. induction ds as [|d ds IH]; intros t s Hk; [done|]. cbn [foldl].
  pose proof (insert_dependency_other cf t s d k (Hk d (list_elem_of_here _ _))) as H.
  destruct (insert_dependency cf (t, s) d) as [t1 s1]. cbn [fst] in H.
  rewrite IH; [done|]. intros d' Hd'. apply Hk. by apply list_elem_of_further.
Qed.

Lemma insert_dependency_fresh cf t s d n :
  global_nodes cf !! d = Some n →
  dict_get (KStr d) (new_body t) = None →
  ∃ t1, insert_dependency cf (t, s) d = (t1, s - 1)
        ∧ dict_get (KStr d) (new_body t1) = Some (Entry (s - 1) n).
Proof.
  intros Hn Hd. unfold insert_dependency. rewrite Hn, Hd.
  eexists. split; [reflexivity|]. cbn. rewrite dict_get_set. by rewrite decide_True.
Qed.

Lemma insert_dependencies_fresh cf (ds : list string) t s :
  NoDup ds → unseen cf ds t →
  let r := foldl (insert_dependency cf) (t, s) ds in
  s - Z.of_nat (length ds) ≤ r.2 ≤ s
  ∧ ∀ d n, d ∈ ds → global_nodes cf !! d = Some n →
      ∃ i, dict_get (KStr d) (new_body r.1) = Some (Entry i n) ∧ r.2 ≤ i < s.
Proof.
  intros Hnd. revert t s. induction Hnd as [|d ds Hd Hnd IH]; intros t s Hf r.
  - subst r. cbn. split; [lia|]. intros d n Hd. by apply elem_of_nil in Hd.
  - subst r. cbn [foldl length].
    destruct (global_nodes cf !! d) as [n|] eqn:Hn.
    + destruct (insert_dependency_fresh cf t s d n Hn) as (t1 & Hstep & Hget).
      { apply Hf; [apply list_elem_of_here | by eexists]. }
      rewrite Hstep.
      assert (unseen cf ds t1) as Hf1.
      { intros d' Hd' Hg'.
        pose proof (insert_dependency_other cf t s d (KStr d')) as Ho.
        rewrite Hstep in Ho. cbn [fst] in Ho. rewrite Ho.
        - apply Hf; [by apply list_elem_of_further | done].
        - intros [= ->]. done. }
      destruct (IH t1 (s - 1) Hf1) as [Hb He]. split; [lia|].
      intros d' n' Hd' Hn'. apply elem_of_cons in Hd' as [->|Hd'].
      * exists (s - 1). rewrite insert_dependencies_other.
        -- rewrite Hget. split; [congruence | lia].
        -- intros d'' Hd'' [= ->]. done.
      * destruct (He d' n' Hd' Hn') as (i & Hi & Hbi). exists i. split; [done | lia].
    + assert (insert_dependency cf (t, s) d = (t, s)) as ->
        by (unfold insert_dependency; by rewrite Hn).
      assert (unseen cf ds t) as Hf1.
      { intros d' Hd' Hg'. apply Hf; [by apply list_elem_of_further | done]. }
      destruct (IH t s Hf1) as [Hb He]. split; [lia|].
      intros d' n' Hd' Hn'. apply elem_of_cons in Hd' as [->|Hd']; [congruence|].
      by apply He.
Qed.

(** Of two dependencies that are both inserted, the one met first gets
    the larger index. *)
Lemma insert_dependencies_order cf (A B C : list string) d1 d2 n1 n2 t s :
  let ds := A ++ d2 :: B ++ d1 :: C in
  NoDup ds → unseen cf ds t →
  global_nodes cf !! d1 = Some n1 → global_nodes cf !! d2 = Some n2 →
  let t' := (foldl (insert_dependency cf) (t, s) ds).1 in
  ∃ i1 i2,
    dict_get (KStr d1) (new_body t') = Some (Entry i1 n1)
    ∧ dict_get (KStr d2) (new_body t') = Some (Entry i2 n2)
    ∧ s - Z.of_nat (length ds) ≤ i1 ∧ i1 < i2 ∧ i2 < s.
Proof.
  intros ds Hnd Hf Hn1 Hn2 t'.
  destruct (insert_dependencies_fresh cf ds t s Hnd Hf) as [Hb He].
  fold t' in He.
  destruct (He d1 n1) as (i1 & Hi1 & Hb1); [|done|].
  { unfold ds. rewrite elem_of_app, elem_of_cons, elem_of_app, elem_of_cons. auto. }
  destruct (He d2 n2) as (i2 & Hi2 & Hb2); [|done|].
  { unfold ds. rewrite elem_of_app, elem_of_cons. auto. }
  exists i1, i2. split_and!; [done | done | lia | | lia].
  (* the order: look at the fold after [A] and [d2] *)
  subst t'. unfold ds in Hi1, Hi2. rewrite foldl_app in Hi1, Hi2.
  destruct (foldl (insert_dependency cf) (t, s) A) as [tA sA] eqn:HA.
  assert (NoDup A ∧ NoDup (d2 :: B ++ d1 :: C)
          ∧ ∀ d, d ∈ A → d ∉ d2 :: B ++ d1 :: C) as (HndA & HndR & Hdisj).
  { unfold ds in Hnd. apply NoDup_app in Hnd as (? & ? & ?). done. }
  assert (unseen cf (d2 :: B ++ d1 :: C) tA) as HfA.
  { intros d Hd Hg.
    pose proof (insert_dependencies_other cf A t s (KStr d)) as Ho.
    rewrite HA in Ho. cbn [fst] in Ho. rewrite Ho.
    - apply Hf; [|done]. unfold ds. rewrite elem_of_app. by right.
    - intros d' Hd' [= ->]. by apply (Hdisj d'). }
  cbn [foldl] in Hi1, Hi2.
  destruct (insert_dependency_fresh cf tA sA d2 n2 Hn2) as (t2 & Hstep & Hget2).
  { apply HfA; [apply list_elem_of_here | by eexists]. }
  rewrite Hstep in Hi1, Hi2.
  apply NoDup_cons in HndR as [Hd2 HndR].
  assert (unseen cf (B ++ d1 :: C) t2) as Hf2.
  { intros d Hd Hg.
    pose proof (insert_dependency_other cf tA sA d2 (KStr d)) as Ho.
    rewrite Hstep in Ho. cbn [fst] in Ho. rewrite Ho.
    - apply HfA; [by apply list_elem_of_further | done].
    - intros [= ->]. done. }
  destruct (insert_dependencies_fresh cf (B ++ d1 :: C) t2 (sA - 1) HndR Hf2) as [_ He2].
  destruct (He2 d1 n1) as (j1 & Hj1 & Hbj1); [|done|].
  { rewrite elem_of_app, elem_of_cons. auto. }
  rewrite insert_dependencies_other in Hi2.
  2: { intros d Hd [= ->]. done. }
  rewrite Hget2 in Hi2. rewrite Hj1 in Hi1.
  injection Hi1 as <-. injection Hi2 as <-. lia.
Qed.

(** The line [list_dependencies] sorts a name by. *)
Definition line_of (cf : class_finder) (dep : string) : Z :=
  default 1000 (class_start_line cf !! dep).

Lemma fmap_fst_pair {A B : Type} (h : A → B) (l : list A) :
  ((fun x => (x, h x)) <$> l).*1 = l.
Proof. induction l as [|x l IH]; [done|]. cbn. by rewrite IH. Qed.

Lemma list_dependencies_sorted cf class_name :
  list_dependencies cf class_name
  = sorted_by (fun x => - x.2)
      ((fun dep => (dep, line_of cf dep)) <$> elements (Finder.deps cf class_name)).
Proof.
  unfold list_dependencies, sorted_by_reverse. f_equal.
  apply dict_of_list_NoDup.
  rewrite (fmap_fst_pair (line_of cf)). apply NoDup_elements.
Qed.

Lemma list_dependencies_names cf class_name :
  (list_dependencies cf class_name).*1 ≡ₚ elements (Finder.deps cf class_name).
Proof.
  rewrite list_dependencies_sorted, sorted_by_Permutation.
  by rewrite (fmap_fst_pair (line_of cf)).
Qed.

(** X17.  The dependencies of a class that are pulled in from the parent
    module are given indices just below that of the class, in the order
    of their lines in the parent module: of two of them, the one that
    starts on the earlier line gets the smaller index, so that it is
    emitted first. *)
Theorem dependencies_in_file_order cf class_name t g d1 d2 n1 n2 :
  d1 ∈ Finder.deps cf class_name → d2 ∈ Finder.deps cf class_name →
  global_nodes cf !! d1 = Some n1 → global_nodes cf !! d2 = Some n2 →
  line_of cf d1 < line_of cf d2 →
  (∀ d, d ∈ Finder.deps cf class_name → is_Some (global_nodes cf !! d) →
        dict_get (KStr d) (new_body t) = None) →
  let deps := list_dependencies cf class_name in
  let t' := (foldl (insert_dependency cf) (t, g) deps.*1).1 in
  ∃ i1 i2,
    dict_get (KStr d1) (new_body t') = Some (Entry i1 n1)
    ∧ dict_get (KStr d2) (new_body t') = Some (Entry i2 n2)
    ∧ g - Z.of_nat (length deps) ≤ i1 ∧ i1 < i2 ∧ i2 < g.
Proof.
  intros Hd1 Hd2 Hn1 Hn2 Hlt Hfresh deps t'.
  assert (∃ A B C, deps.*1 = A ++ d2 :: B ++ d1 :: C) as (A & B & C & Hsplit).
  { unfold deps. rewrite list_dependencies_sorted.
    destruct (sorted_by_precedes (fun x : string * Z => - x.2)
                (d2, line_of cf d2) (d1, line_of cf d1)
                ((fun dep => (dep, line_of cf dep)) <$> elements (Finder.deps cf class_name)))
      as (l1 & l2 & l3 & ->).
    - apply list_elem_of_fmap. exists d2. split; [done | by apply elem_of_elements].
    - apply list_elem_of_fmap. exists d1. split; [done | by apply elem_of_elements].
    - cbn. lia.
    - exists l1.*1, l2.*1, l3.*1. by rewrite !fmap_app, !fmap_cons, !fmap_app, !fmap_cons. }
  assert (NoDup deps.*1) as Hnd.
  { unfold deps. rewrite list_dependencies_names. apply NoDup_elements. }
  assert (unseen cf deps.*1 t) as Hf.
  { intros d Hd Hg. apply Hfresh; [|done].
    unfold deps in Hd. rewrite list_dependencies_names in Hd. by apply elem_of_elements. }
  subst t'. rewrite Hsplit in Hnd, Hf |- *.
  destruct (insert_dependencies_order cf A B C d1 d2 n1 n2 t g Hnd Hf Hn1 Hn2)
    as (i1 & i2 & H1 & H2 & Hb1 & Hlt12 & Hb2).
  exists i1, i2. split_and!; [done | done | | done | done].
  rewrite <- Hsplit, length_fmap in Hb1. done.
Qed.

(** A parent module with three classes, the last using the two others:

      class GemmaRMSNorm(nn.Module):
          pass
      class GemmaMLP(nn.Module):
          pass
      class GemmaDecoderLayer(nn.Module):
          mlp = GemmaMLP
          norm = GemmaRMSNorm *)
Definition gemma_mlp : stmt :=
  ClassDef "" "GemmaMLP" [(Attribute (Name "nn") "Module", "")] [pass_line].

Definition gemma_decoder_layer : stmt :=
  ClassDef "" "GemmaDecoderLayer" [(Attribute (Name "nn") "Module", "")]
    [SimpleStatementLine "" [Assign [Name "mlp"] (Name "GemmaMLP")]; norm_line].

Definition layer_finder : class_finder :=
  finder_after
    [ Finder.VisitClassDef gemma_rms_norm;
      Finder.VisitClassDef gemma_mlp;
      Finder.VisitClassDef gemma_decoder_layer;
      Finder.LeaveName "GemmaMLP" (LocalScope "GemmaDecoderLayer");
      Finder.LeaveName "GemmaRMSNorm" (LocalScope "GemmaDecoderLayer");
      Finder.LeaveModule (fun k => if bool_decide (k = "GemmaRMSNorm") then 1
                                   else if bool_decide (k = "GemmaMLP") then 3 else 5) ].

Lemma dependencies_in_file_order_witness :
  let deps := list_dependencies layer_finder "GemmaDecoderLayer" in
  let t' := (foldl (insert_dependency layer_finder)
               (with_global_scope_index 100 (init "gemma"), 100) deps.*1).1 in
  ∃ i1 i2,
    dict_get (KStr "GemmaRMSNorm") (new_body t') = Some (Entry i1 gemma_rms_norm)
    ∧ dict_get (KStr "GemmaMLP") (new_body t') = Some (Entry i2 gemma_mlp)
    ∧ 100 - Z.of_nat (length deps) ≤ i1 ∧ i1 < i2 ∧ i2 < 100.
Proof.
  apply (dependencies_in_file_order layer_finder "GemmaDecoderLayer"
           (with_global_scope_index 100 (init "gemma")) 100
           "GemmaRMSNorm" "GemmaMLP" gemma_rms_norm gemma_mlp).
  - apply (bool_decide_unpack _). vm_compute. exact I.
  - apply (bool_decide_unpack _). vm_compute. exact I.
  - vm_compute. reflexivity.
  - vm_compute. reflexivity.
  - vm_compute. reflexivity.
  - intros d _ _. reflexivity.
Defined.

Example layer_dependencies_inserted :
  new_body (foldl (insert_dependency layer_finder)
              (with_global_scope_index 100 (init "gemma"), 100)
              (list_dependencies layer_finder "GemmaDecoderLayer").*1).1
  = [(KStr "GemmaMLP", Entry 99 gemma_mlp); (KStr "GemmaRMSNorm", Entry 98 gemma_rms_norm)].
Proof. vm_compute. reflexivity. Qed.

(** *** Classes and the parent module *)

Section Classes.
Context {printer : Printer}.
Variable find_classes_in_file : py_module → string → string → result class_finder.

Lemma list_dependencies_empty cf class_name :
  Finder.deps cf class_name = ∅ → list_dependencies cf class_name = [].
Proof.
  intros H. unfold list_dependencies. rewrite H, elements_empty. reflexivity.
Qed.

(** X18.  What is merged into a class is selected by the name of the
    class, not by the name of its base: a class whose name has no
    recorded dependency in the analysed parent module is stored as the
    diff file has it, although its base was imported from that module. *)
Theorem class_without_recorded_dependencies
    ll name b comma body ull uname ubases ubody t path old tree cf :
  let updated := ClassDef ull uname ubases ubody in
  imported_mapping t !! b = Some path →
  search_model_name path = Some old →
  dict_get path (visited_module t) = None →
  transformers_imports t !! path = Some tree →
  find_classes_in_file tree old (model_name t) = Ok cf →
  Finder.deps cf name = ∅ →
  leave_ClassDef find_classes_in_file (ClassDef ll name [(Name b, comma)] body) updated t
  = let t1 := with_visited_module (dict_set path cf (visited_module t))
                (with_global_scope_index (global_scope_index t + 100) t) in
    Ok (if contains "Config" name
        then with_config_body (Some [updated]) t1
        else set_new_body (KStr name) (global_scope_index t + 100) updated t1).
Proof.
  intros updated Hb Hold Hvisited Htree Hcf Hdeps.
  assert (imported_bases [(Name b, comma)] t = Ok [b]) as Hbases.
  { unfold imported_bases. cbn. by rewrite Hb. }
  unfold leave_ClassDef, updated. rewrite Hbases.
  cbn [mbind result_bind foldl].
  unfold process_base.
  cbn [imported_mapping visited_module transformers_imports model_name
         with_global_scope_index].
  rewrite Hb, Hold. cbn [mbind result_bind]. rewrite Hvisited, Htree.
  cbn [mbind result_bind]. rewrite Hcf. cbn [mbind result_bind].
  rewrite (list_dependencies_empty _ _ Hdeps). cbn [fmap list_fmap foldl mbind result_bind].
  by destruct (contains "Config" name).
Qed.

End Classes.

Section ClassesExamples.
Existing Instance canonical_printer.

(** The diff file of the examples with a further class of the same
    base, whose name the parent module does not know. *)
Definition gemma_extra : stmt :=
  ClassDef "" "GemmaExtra" [(Name "LlamaModel", "")] [pass_line].

Lemma class_without_recorded_dependencies_witness :
  leave_ClassDef (finder_of gemma_finder) gemma_extra gemma_extra gemma_before_class
  = let t1 := with_visited_module
                (dict_set "transformers.models.llama.modeling_llama" gemma_finder
                   (visited_module gemma_before_class))
                (with_global_scope_index (global_scope_index gemma_before_class + 100)
                   gemma_before_class) in
    Ok (if contains "Config" "GemmaExtra"
        then with_config_body (Some [gemma_extra]) t1
        else set_new_body (KStr "GemmaExtra") (global_scope_index gemma_before_class + 100)
               gemma_extra t1).
Proof.
  apply (class_without_recorded_dependencies (finder_of gemma_finder)
           "" "GemmaExtra" "LlamaModel" "" [pass_line]
           "" "GemmaExtra" [(Name "LlamaModel", "")] [pass_line]
           gemma_before_class "transformers.models.llama.modeling_llama" "llama"
           (make_module "" []) gemma_finder).
  - reflexivity.
  - reflexivity.
  - reflexivity.
  - reflexivity.
  - reflexivity.
  - vm_compute. reflexivity.
Defined.

End ClassesExamples.

Section Analysed.
Context {printer : Printer}.

Lemma insert_dependency_visited cf t s d :
  visited_module (insert_dependency cf (t, s) d).1 = visited_module t.
Proof.
  unfold insert_dependency.
  destruct (global_nodes cf !! d); [|done].
  destruct (dict_get (KStr d) (new_body t)); [by case_bool_decide | done].
Qed.

Lemma insert_dependencies_visited cf (ds : list string) t s :
  visited_module (foldl (insert_dependency cf) (t, s) ds).1 = visited_module t.
Proof.
  revert t s. induction ds as [|d ds IH]; intros t s; [done|]. cbn [foldl].
  pose proof (insert_dependency_visited cf t s d) as H.
  destruct (insert_dependency cf (t, s) d) as [t1 s1]. cbn [fst] in H.
  by rewrite IH.
Qed.

(** Every imported name stands for a module that has been analysed. *)
Definition analysed (t : transformer) : Prop :=
  ∀ b path, imported_mapping t !! b = Some path →
    is_Some (dict_get path (visited_module t)).

Lemma process_base_analysed f1 f2 class_name t u super_class :
  analysed t →
  process_base f1 class_name (t, u) super_class
  = process_base f2 class_name (t, u) super_class
  ∧ ∀ t' u', process_base f1 class_name (t, u) super_class = Ok (t', u') → analysed t'.
Proof.
  intros Ha. unfold process_base.
  destruct (imported_mapping t !! super_class) as [path|] eqn:Hb; [|done].
  destruct (search_model_name path) as [old|]; [|done]. cbn [mbind result_bind].
  destruct (Ha _ _ Hb) as [cf Hcf]. rewrite Hcf. cbn [mbind result_bind].
  split; [done|]. intros t' u' H.
  pose proof (insert_dependencies_advances cf (list_dependencies cf class_name).*1
                t (global_scope_index t)) as (_ & _ & Hi & _).
  pose proof (insert_dependencies_visited cf (list_dependencies cf class_name).*1
                t (global_scope_index t)) as Hv.
  destruct (foldl (insert_dependency cf) (t, global_scope_index t)
              (list_dependencies cf class_name).*1) as [t2 s2].
  cbn [fst] in Hi, Hv.
  assert (t' = t2) as ->.
  { destruct (list_dependencies cf class_name).
    - by injection H as <- <-.
    - apply bind_Ok in H as (u2 & _ & H). by injection H as <- <-. }
  unfold analysed. by rewrite Hi, Hv.
Qed.

(** X19.  A parent module is analysed once: when the modules of all the
    imported names have been analysed, leaving a class does not call the
    analysis again, whatever it would return. *)
Theorem parent_module_analysed_once f1 f2 original_node updated_node t :
  analysed t →
  leave_ClassDef f1 original_node updated_node t
  = leave_ClassDef f2 original_node updated_node t.
Proof.
  intros Ha. unfold leave_ClassDef.
  destruct original_node as [| |ll class_name obases body| |]; try done.
  destruct updated_node as [| |ull uname ubases ubody| |]; try done.
  destruct (imported_bases obases t) as [bases|e]; [|done]. cbn [mbind result_bind].
  assert (analysed (with_global_scope_index (global_scope_index t + 100) t)) as Ha' by done.
  generalize dependent (with_global_scope_index (global_scope_index t + 100) t).
  generalize (ClassDef ull uname ubases ubody).
  clear. intros u t Ha.
  assert (foldl (fun acc super_class => acc ← acc; process_base f1 class_name acc super_class)
            (Ok (t, u)) bases
          = foldl (fun acc super_class => acc ← acc; process_base f2 class_name acc super_class)
              (Ok (t, u)) bases) as ->; [|done].
  revert t u Ha. induction bases as [|b bases IH]; intros t u Ha; [done|].
  cbn [foldl].
  change (Ok (t, u) ≫= (fun acc => process_base f1 class_name acc b))
    with (process_base f1 class_name (t, u) b).
  change (Ok (t, u) ≫= (fun acc => process_base f2 class_name acc b))
    with (process_base f2 class_name (t, u) b).
  destruct (process_base_analysed f1 f2 class_name t u b Ha) as [Heq Hnext].
  rewrite <- Heq.
  destruct (process_base f1 class_name (t, u) b) as [[t1 u1]|e].
  - apply IH. by eapply Hnext.
  - by rewrite !process_bases_raise.
Qed.

End Analysed.

Section AnalysedExamples.
Existing Instance canonical_printer.

Lemma parent_module_analysed_once_witness :
  leave_ClassDef no_finder diff_gemma_model diff_gemma_model gemma_after_class
  = leave_ClassDef (finder_of gemma_config_finder) diff_gemma_model diff_gemma_model
      gemma_after_class.
Proof.
  apply (parent_module_analysed_once no_finder (finder_of gemma_config_finder)).
  intros b path H. cbn [imported_mapping gemma_after_class] in H.
  apply lookup_singleton_Some in H as [_ <-]. by eexists.
Defined.

End AnalysedExamples.

(** *** The import block of the emitted module *)

Section Keyed.
Context {K V : Type} `{EqDecision K} (f : V → K).

(** Every entry sits under the key that [f] gives its value. *)
Definition keyed_by (d : list (K * V)) : Prop := Forall (fun kv => kv.1 = f kv.2) d.

Lemma keyed_by_set v d : keyed_by d → keyed_by (dict_set (f v) v d).
Proof.
  intros Hd. induction Hd as [|[k v'] d Hkv Hd IH]; cbn [dict_set].
  - by repeat constructor.
  - case_decide; constructor; done.
Qed.

Lemma keyed_by_update d e : keyed_by d → keyed_by e → keyed_by (dict_update d e).
Proof.
  unfold dict_update. intros Hd He. revert d Hd.
  induction He as [|[k v] e Hkv He IH]; intros d Hd; cbn [foldl]; [done|].
  apply IH. cbn in Hkv. subst k. by apply keyed_by_set.
Qed.

Lemma keyed_by_fmap (l : list V) : keyed_by ((fun v => (f v, v)) <$> l).
Proof. induction l; constructor; done. Qed.

Lemma keyed_by_values d : keyed_by d → f <$> dict_values d = d.*1.
Proof.
  unfold dict_values. induction 1 as [|[k v] d Hkv Hd IH]; [done|].
  cbn in Hkv. subst k. cbn. by rewrite IH.
Qed.

End Keyed.

Section ImportBlock.
Context {printer : Printer}.

(** The imports of the analysed parent modules, by their code. *)
Definition dependency_imports (t : transformer) : list (string * stmt) :=
  foldl (fun acc (visiter : class_finder) =>
           dict_update acc (by_code (dict_values (imports visiter))))
        [] (dict_values (visited_module t)).

(** The import statements at the head of the emitted module. *)
Definition module_imports (t : transformer) : list stmt :=
  dict_values (dict_update (dependency_imports t) (by_code (all_imports t))).

Lemma by_code_keyed nodes : keyed_by code_for_node (by_code nodes).
Proof.
  unfold by_code, dict_of_list. apply keyed_by_update; [constructor|].
  apply (keyed_by_fmap code_for_node).
Qed.

Lemma by_code_keys nodes k :
  k ∈ (by_code nodes).*1 ↔ k ∈ code_for_node <$> nodes.
Proof.
  unfold by_code, dict_of_list. rewrite dict_update_keys, elem_of_nil.
  rewrite <- list_fmap_compose.
  rewrite !list_elem_of_fmap. naive_solver.
Qed.

Lemma dependency_imports_fold (finders : list class_finder) acc :
  keyed_by code_for_node acc → NoDup acc.*1 →
  let r := foldl (fun acc (visiter : class_finder) =>
                    dict_update acc (by_code (dict_values (imports visiter))))
                 acc finders in
  keyed_by code_for_node r ∧ NoDup r.*1
  ∧ (∀ k, k ∈ acc.*1 → k ∈ r.*1)
  ∧ (∀ cf n, cf ∈ finders → n ∈ dict_values (imports cf) →
             code_for_node n ∈ r.*1)
  ∧ (∀ n, n ∈ dict_values r →
          n ∈ dict_values acc ∨ ∃ cf, cf ∈ finders ∧ n ∈ dict_values (imports cf)).
Proof.
  revert acc. induction finders as [|cf finders IH]; intros acc Hk Hnd r.
  - subst r. cbn. split_and!; [done | done | done | | by left].
    intros cf n Hcf. by apply elem_of_nil in Hcf.
  - subst r. cbn [foldl].
    destruct (IH (dict_update acc (by_code (dict_values (imports cf)))))
      as (Hk' & Hnd' & Hmono & Hall & Hfrom).
    { apply keyed_by_update; [done | apply by_code_keyed]. }
    { by apply dict_update_NoDup. }
    split_and!; [done | done | | |].
    + intros k Hin. apply Hmono, dict_update_keys. by left.
    + intros cf' n Hcf' Hn. apply elem_of_cons in Hcf' as [->|Hcf']; [|by eapply Hall].
      apply Hmono, dict_update_keys. right. apply by_code_keys.
      apply list_elem_of_fmap. by exists n.
    + intros n Hn. apply Hfrom in Hn as [Hn|(cf' & Hcf' & Hn)].
      * apply dict_update_values in Hn as [Hn|Hn]; [by left|].
        right. exists cf. split; [apply list_elem_of_here | by apply by_code_values].
      * right. exists cf'. split; [by apply list_elem_of_further | done].
Qed.

(** X20.  The emitted module begins with an import block, followed by the
    nodes of the output map by ascending index.  No two statements of
    the block have the same code; the block has the code of every import
    collected from the diff file and of every import of an analysed
    parent module, and holds nothing else. *)
Theorem module_imports_complete t :
  (new_body t ≠ [] →
   (leave_Module t).2 = module_imports t ++ ((fun x => node x.2) <$> emitted t))
  ∧ NoDup (code_for_node <$> module_imports t)
  ∧ (∀ n, n ∈ all_imports t →
          code_for_node n ∈ code_for_node <$> module_imports t)
  ∧ (∀ cf n, cf ∈ dict_values (visited_module t) → n ∈ dict_values (imports cf) →
             code_for_node n ∈ code_for_node <$> module_imports t)
  ∧ (∀ n, n ∈ module_imports t →
          n ∈ all_imports t
          ∨ ∃ cf, cf ∈ dict_values (visited_module t) ∧ n ∈ dict_values (imports cf)).
Proof.
  destruct (dependency_imports_fold (dict_values (visited_module t)) [])
    as (Hk & Hnd & _ & Hall & Hfrom); [constructor | constructor |].
  fold (dependency_imports t) in Hk, Hnd, Hall, Hfrom.
  assert (keyed_by code_for_node
            (dict_update (dependency_imports t) (by_code (all_imports t)))) as Hk'
    by (apply keyed_by_update; [done | apply by_code_keyed]).
  unfold module_imports. rewrite (keyed_by_values _ _ Hk').
  split_and!.
  - intros Hne. unfold leave_Module. cbn [snd]. by destruct (new_body t).
  - by apply dict_update_NoDup.
  - intros n Hn. apply dict_update_keys. right. apply by_code_keys.
    apply list_elem_of_fmap. by exists n.
  - intros cf n Hcf Hn. apply dict_update_keys. left. by eapply Hall.
  - intros n Hn. apply dict_update_values in Hn as [Hn|Hn].
    + right. apply Hfrom in Hn as [Hn|Hn]; [by apply elem_of_nil in Hn | done].
    + left. by apply by_code_values.
Qed.

End ImportBlock.

(** *** The emitted nodes *)

Section Emitted.
Context {printer : Printer}.
Variable parse_source : string → result py_module.
Variable find_classes_in_file : py_module → string → string → result class_finder.

(** X21.  At the end of a traversal the output map is emitted entry by
    entry: every key once, by ascending index, and no index exceeds
    [global_scope_index]. *)
Theorem emitted_by_ascending_index new_name evs t :
  run parse_source find_classes_in_file evs (init new_name) = Ok t →
  emitted t ≡ₚ new_body t
  ∧ NoDup (emitted t).*1
  ∧ StronglySorted (fun a b => insert_idx a.2 ≤ insert_idx b.2) (emitted t)
  ∧ Forall (fun kv => insert_idx kv.2 ≤ global_scope_index t) (emitted t)
  ∧ 0 ≤ global_scope_index t.
Proof.
  intros Hrun.
  assert (emitted t ≡ₚ new_body t) as Hperm by apply sorted_by_Permutation.
  destruct (run_invariant _ _ _ _ _ Hrun (init_indexed new_name)) as [Hb Hg].
  split_and!.
  - done.
  - rewrite Hperm. eapply run_new_body_keys; [exact Hrun | constructor].
  - apply (sorted_by_sorted (fun x : body_key * entry => insert_idx x.2)).
  - rewrite Hperm. eapply Forall_impl; [exact Hb|]. intros kv. cbn. lia.
  - exact Hg.
Qed.

End Emitted.

Section EmittedExamples.
Existing Instance canonical_printer.

Lemma emitted_by_ascending_index_witness :
  emitted gemma_after_class ≡ₚ new_body gemma_after_class
  ∧ NoDup (emitted gemma_after_class).*1
  ∧ StronglySorted (fun a b => insert_idx a.2 ≤ insert_idx b.2) (emitted gemma_after_class)
  ∧ Forall (fun kv => insert_idx kv.2 ≤ global_scope_index gemma_after_class)
      (emitted gemma_after_class)
  ∧ 0 ≤ global_scope_index gemma_after_class.
Proof.
  apply (emitted_by_ascending_index (source_of (make_module "" [])) (finder_of gemma_finder)
           "gemma"
           (before_gemma_model ++ [LeaveClassDef diff_gemma_model diff_gemma_model])).
  vm_compute. reflexivity.
Defined.

End EmittedExamples.

(** *** The name of the diff file *)

Lemma strip_suffix_Some suffix s g : strip_suffix suffix s = Some g → s = g +:+ suffix.
Proof.
  revert g. induction s as [|c s IH]; intros g; cbn [strip_suffix].
  - destruct (String.eqb EmptyString suffix) eqn:He; [|done].
    apply String.eqb_eq in He as <-. by intros [= <-].
  - destruct (String.eqb (String c s) suffix) eqn:He.
    + apply String.eqb_eq in He as <-. by intros [= <-].
    + destruct (strip_suffix suffix s) as [g'|]; [|done].
      cbn. intros [= <-]. by rewrite (IH g').
Qed.

Lemma strip_suffix_app suffix a : strip_suffix suffix (a +:+ suffix) = Some a.
Proof.
  induction a as [|c a IH].
  - change (EmptyString +:+ suffix) with suffix.
    destruct suffix; cbn [strip_suffix]; by rewrite String.eqb_refl.
  - change (String c a +:+ suffix) with (String c (a +:+ suffix)). cbn [strip_suffix].
    destruct (String.eqb (String c (a +:+ suffix)) suffix) eqn:He.
    + apply String.eqb_eq in He. apply (f_equal String.length) in He.
      cbn [String.length] in He. rewrite RenamerFacts.length_append in He. lia.
    + by rewrite IH.
Qed.

Lemma search_diff_name_unfold c s :
  search_diff_name (String c s)
  = match strip_prefix "diff_" (String c s) with
    | Some rest =>
        match (match strip_suffix ".py" rest with
               | Some g => Some g
               | None => strip_suffix (".py" +:+ Codegen.nl) rest
               end) with
        | Some g => if String.eqb (first_line g) g then Some g else search_diff_name s
        | None => search_diff_name s
        end
    | None => search_diff_name s
    end.
Proof. reflexivity. Qed.

(** What the search of [convert_file] finds stands between an
    occurrence of [diff_] and the [.py] that ends the file name. *)
Lemma search_diff_name_Some s g :
  search_diff_name s = Some g →
  ∃ pre, s = pre +:+ "diff_" +:+ g +:+ ".py"
         ∨ s = pre +:+ "diff_" +:+ g +:+ ".py" +:+ Codegen.nl.
Proof.
  induction s as [|c s IH]; [done|]. rewrite search_diff_name_unfold.
  assert (search_diff_name s = Some g →
          ∃ pre, String c s = pre +:+ "diff_" +:+ g +:+ ".py"
                 ∨ String c s = pre +:+ "diff_" +:+ g +:+ ".py" +:+ Codegen.nl) as Hnext.
  { intros H. destruct (IH H) as [pre [-> | ->]]; exists (String c pre); auto. }
  destruct (strip_prefix "diff_" (String c s)) as [rest|] eqn:Hp; [|done].
  apply strip_prefix_Some in Hp.
  destruct (strip_suffix ".py" rest) as [g1|] eqn:H1.
  - destruct (String.eqb (first_line g1) g1); [|done].
    intros [= ->]. apply strip_suffix_Some in H1. exists EmptyString. left.
    rewrite Hp, H1. reflexivity.
  - destruct (strip_suffix (".py" +:+ Codegen.nl) rest) as [g2|] eqn:H2; [|done].
    destruct (String.eqb (first_line g2) g2); [|done].
    intros [= ->]. apply strip_suffix_Some in H2. exists EmptyString. right.
    rewrite Hp, H2. reflexivity.
Qed.

Lemma search_diff_name_contains s g :
  search_diff_name s = Some g → contains "diff_" s = true.
Proof.
  intros H. apply search_diff_name_Some in H as [pre [-> | ->]]; apply contains_middle.
Qed.

Lemma search_diff_name_suffix s g :
  search_diff_name s = Some g →
  is_Some (strip_suffix ".py" s) ∨ is_Some (strip_suffix (".py" +:+ Codegen.nl) s).
Proof.
  intros H. apply search_diff_name_Some in H as [pre [-> | ->]].
  - left. exists (pre +:+ "diff_" +:+ g).
    rewrite <- (strip_suffix_app ".py" (pre +:+ "diff_" +:+ g)).
    by rewrite !append_assoc.
  - right. exists (pre +:+ "diff_" +:+ g).
    rewrite <- (strip_suffix_app (".py" +:+ Codegen.nl) (pre +:+ "diff_" +:+ g)).
    by rewrite !append_assoc.
Qed.

(** The leftmost [diff_] is taken when the rest of the name fits. *)
Lemma search_diff_name_leftmost s name :
  after_first "diff_" s = Some (name +:+ ".py") →
  mem newline name = false →
  search_diff_name s = Some name.
Proof.
  intros Hafter Hname. induction s as [|c s IH]; [done|].
  rewrite search_diff_name_unfold. cbn [after_first] in Hafter.
  destruct (strip_prefix "diff_" (String c s)) as [rest|] eqn:Hp.
  - injection Hafter as ->. rewrite strip_suffix_app.
    by rewrite (first_line_id _ Hname), String.eqb_refl.
  - by apply IH.
Qed.

Lemma replace_from_differs fuel a o b n s :
  a ≠ b →
  (String.length s < fuel)%nat →
  contains (String a o) s = true →
  replace_from fuel (String a o) (String b n) s ≠ s.
Proof.
  intros Hab. revert s. induction fuel as [|fuel IH]; intros s Hlen Hc; [lia|].
  cbn [replace_from].
  destruct (strip_prefix (String a o) s) as [r|] eqn:Hp.
  - apply strip_prefix_Some in Hp. rewrite Hp.
    change (String b n +:+ ?x) with (String b (n +:+ x)).
    change (String a o +:+ ?x) with (String a (o +:+ x)).
    intros [= ? _]. congruence.
  - destruct s as [|c s].
    + cbn [contains] in Hc. unfold startswith in Hc. by rewrite Hp in Hc.
    + cbn [contains] in Hc. unfold startswith in Hc. rewrite Hp in Hc.
      intros [= H]. revert H. apply IH; [cbn in Hlen; lia | done].
Qed.

Lemma replace_from_apart fuel old b1 n1 b2 n2 s :
  b1 ≠ b2 → old ≠ EmptyString →
  (String.length s < fuel)%nat →
  contains old s = true →
  replace_from fuel old (String b1 n1) s ≠ replace_from fuel old (String b2 n2) s.
Proof.
  intros Hb Hold. revert s. induction fuel as [|fuel IH]; intros s Hlen Hc; [lia|].
  cbn [replace_from].
  destruct (strip_prefix old s) as [r|] eqn:Hp.
  - change (String b1 n1 +:+ ?x) with (String b1 (n1 +:+ x)).
    change (String b2 n2 +:+ ?x) with (String b2 (n2 +:+ x)).
    intros [= ? _]. congruence.
  - destruct s as [|c s].
    + cbn [contains] in Hc. unfold startswith in Hc. by rewrite Hp in Hc.
    + cbn [contains] in Hc. unfold startswith in Hc. rewrite Hp in Hc.
      intros [= H]. revert H. apply IH; [cbn in Hlen; lia | done].
Qed.

Section FileNames.
Context {printer : Printer}.
Variable parse_source : string → result py_module.
Variable find_classes_in_file : py_module → string → string → result class_finder.
Variable run_ruff : string → bool → string.

(** X23.  A file name in which [diff_] does not occur, or which does not
    end in [.py], stops [convert_file] with the [AttributeError] of a
    failed search, and no file is written. *)
Theorem diff_file_name_required diff_file diff_module evs :
  contains "diff_" diff_file = false
  ∨ (strip_suffix ".py" diff_file = None
     ∧ strip_suffix (".py" +:+ Codegen.nl) diff_file = None) →
  convert_file parse_source find_classes_in_file run_ruff diff_file diff_module evs
  = ([], Raise (AttributeError "'NoneType' object has no attribute 'groups'")).
Proof.
  intros H. unfold convert_file.
  destruct (search_diff_name diff_file) as [g|] eqn:Hs; [|done]. exfalso.
  destruct H as [H|[H1 H2]].
  - apply search_diff_name_contains in Hs. congruence.
  - apply search_diff_name_suffix in Hs as [[? Hs]|[? Hs]]; congruence.
Qed.

Lemma visit_ImportFrom_model_name module names t t' :
  visit_ImportFrom parse_source module names t = Ok t' → model_name t' = model_name t.
Proof.
  unfold visit_ImportFrom. intros H.
  apply bind_Ok in H as (import_statement & _ & H).
  destruct (is_attribute module); [|by injection H as <-].
  destruct names as [names|]; [|done].
  revert t H. induction names as [|a names IH]; intros t H.
  - by injection H as <-.
  - cbn [foldl] in H.
    change (Ok t ≫= (fun t => visit_imported parse_source import_statement a t))
      with (visit_imported parse_source import_statement a t) in H.
    destruct (visit_imported parse_source import_statement a t) as [t1|e] eqn:Hv.
    + rewrite (IH _ H). unfold visit_imported in Hv.
      destruct (search_transformers_import import_statement); [|by injection Hv as <-].
      destruct (_ && _); [done|].
      apply bind_Ok in Hv as (ti & _ & Hv). by injection Hv as <-.
    + by rewrite visit_names_raise in H.
Qed.

Lemma run_model_name evs t t' :
  run parse_source find_classes_in_file evs t = Ok t' → model_name t' = model_name t.
Proof.
  revert t. induction evs as [|ev evs IH]; intros t H.
  - by injection H as <-.
  - cbn [run] in H. apply bind_Ok in H as (t1 & Hs & H). rewrite (IH _ H).
    destruct ev as [m names|pm n|pm n|o u|pm o n] eqn:Hev;
      [by eapply visit_ImportFrom_model_name|..];
      by apply step_advances in Hs as (? & _).
Qed.

(** X24.  The name of the new model that a conversion works with stands
    in the file name between an occurrence of [diff_] and the final
    [.py]; it is what follows the first [diff_] when that is a name
    followed by [.py]. *)
Theorem model_name_of_conversion diff_file diff_module evs writes t :
  convert_file parse_source find_classes_in_file run_ruff diff_file diff_module evs
  = (writes, Ok t) →
  (∃ pre, diff_file = pre +:+ "diff_" +:+ model_name t +:+ ".py"
          ∨ diff_file = pre +:+ "diff_" +:+ model_name t +:+ ".py" +:+ Codegen.nl)
  ∧ ∀ name, after_first "diff_" diff_file = Some (name +:+ ".py") →
            mem newline name = false →
            model_name t = name.
Proof.
  unfold convert_file. intros H.
  destruct (search_diff_name diff_file) as [new_name|] eqn:Hs; [|done].
  destruct (run parse_source find_classes_in_file evs (init new_name)) as [t0|e] eqn:Hrun;
    [|done].
  apply run_model_name in Hrun. cbn [model_name init] in Hrun.
  assert (model_name t = new_name) as ->.
  { unfold leave_Module in H. injection H as _ <-.
    destruct (config_body t0); done. }
  split; [by apply search_diff_name_Some|].
  intros name Hafter Hname.
  rewrite (search_diff_name_leftmost _ _ Hafter Hname) in Hs. by injection Hs.
Qed.

(** X25.  [convert_file] never writes to the diff file itself, and never
    twice to one file. *)
Theorem outputs_are_other_files diff_file diff_module evs writes r :
  convert_file parse_source find_classes_in_file run_ruff diff_file diff_module evs
  = (writes, r) →
  Forall (fun w => w.1 ≠ diff_file) writes ∧ NoDup writes.*1.
Proof.
  unfold convert_file. intros H.
  destruct (search_diff_name diff_file) as [new_name|] eqn:Hs.
  2: { injection H as <- _. split; constructor. }
  destruct (run parse_source find_classes_in_file evs (init new_name)) as [t0|e].
  2: { injection H as <- _. split; constructor. }
  apply search_diff_name_contains in Hs.
  assert (replace "diff_" "modeling_" diff_file ≠ diff_file) as Hm
    by (apply replace_from_differs; [done | lia | done]).
  assert (replace "diff_" "configuration_" diff_file ≠ diff_file) as Hc
    by (apply replace_from_differs; [done | lia | done]).
  assert (replace "diff_" "modeling_" diff_file ≠ replace "diff_" "configuration_" diff_file)
    as Hmc by (apply replace_from_apart; [done | done | lia | done]).
  destruct (leave_Module t0) as [t1 body]. injection H as <- _.
  destruct (String.eqb _ _), (config_body t1); cbn [app fmap list_fmap fst];
    split; repeat constructor; rewrite ?elem_of_cons, ?elem_of_nil; cbn [fst];
    try done; naive_solver.
Qed.

End FileNames.

Section FileNamesExamples.
Existing Instance canonical_printer.

Lemma diff_file_name_required_witness :
  convert_file no_source no_finder ruff_id "modeling_gemma.py" config_only_module
    config_only_diff
  = ([], Raise (AttributeError "'NoneType' object has no attribute 'groups'")).
Proof.
  apply (diff_file_name_required no_source no_finder ruff_id "modeling_gemma.py"
           config_only_module config_only_diff).
  left. reflexivity.
Defined.

Lemma model_name_of_conversion_witness :
  (∃ pre, "diff_foo.py" = pre +:+ "diff_" +:+ model_name config_only_state +:+ ".py"
          ∨ "diff_foo.py"
            = pre +:+ "diff_" +:+ model_name config_only_state +:+ ".py" +:+ Codegen.nl)
  ∧ ∀ name, after_first "diff_" "diff_foo.py" = Some (name +:+ ".py") →
            mem newline name = false →
            model_name config_only_state = name.
Proof.
  apply (model_name_of_conversion no_source no_finder ruff_id "diff_foo.py"
           config_only_module config_only_diff config_only_files).
  vm_compute. reflexivity.
Defined.

Lemma outputs_are_other_files_witness :
  Forall (fun w : string * string => w.1 ≠ "diff_foo.py") config_only_files
  ∧ NoDup config_only_files.*1.
Proof.
  apply (outputs_are_other_files no_source no_finder ruff_id "diff_foo.py"
           config_only_module config_only_diff config_only_files (Ok config_only_state)).
  vm_compute. reflexivity.
Defined.

Lemma imported_bases_resolve_witness :
  is_Some (transformers_imports gemma_before_class
           !! "transformers.models.llama.modeling_llama")
  ∧ is_Some (search_model_name "transformers.models.llama.modeling_llama").
Proof.
  apply (imported_bases_resolve (source_of (make_module "" [])) no_finder
           "gemma" before_gemma_model gemma_before_class "LlamaModel").
  - vm_compute. reflexivity.
  - reflexivity.
Defined.

End FileNamesExamples.

(** *** The imports that are collected *)

(** What [all_imports] may hold: an [import] line, a [from ... import]
    line whose module is not a model file, and an [if] block. *)
Definition collectable (n : stmt) : Prop :=
  match n with
  | SimpleStatementLine _ [Import _] => True
  | SimpleStatementLine _ [ImportFrom module _] =>
      ∃ code, code_for_module module = Ok code ∧ search_transformers_import code = None
  | If _ _ _ _ => True
  | _ => False
  end.

Section Collected.
Context {printer : Printer}.
Variable parse_source : string → result py_module.
Variable find_classes_in_file : py_module → string → string → result class_finder.

Lemma step_collectable ev t t' :
  step parse_source find_classes_in_file ev t = Ok t' →
  indexed t →
  Forall collectable (all_imports t) → Forall collectable (all_imports t').
Proof.
  destruct ev as [m names|pm n|pm n|o u|pm o n]; cbn [step]; intros H Hb Hi.
  - apply visit_ImportFrom_frame in H as (_ & _ & _ & Ha). by rewrite Ha.
  - injection H as <-. unfold leave_FunctionDef.
    destruct n; try done. by destruct pm.
  - unfold leave_SimpleStatementLine in H.
    destruct n as [ll body| | | |]; try (by injection H as <-).
    destruct pm; [|by injection H as <-].
    assert (∀ t1, (let idx := global_scope_index t + 100 in
                   let t0 := with_global_scope_index idx t in
                   node_name body t0 ≫= (fun '(key, t2) =>
                     Ok (set_new_body key idx (SimpleStatementLine ll body) t2))) = Ok t1 →
                  Forall collectable (all_imports t1)) as Hother.
    { intros t1 H1. cbn zeta in H1. apply bind_Ok in H1 as ([key t2] & Hn & H1).
      injection H1 as <-. unfold node_name in Hn.
      repeat case_match; simplify_eq/=;
        try (apply bind_Ok in Hn as (v & _ & Hn); destruct v; simplify_eq/=);
        done. }
    destruct body as [|first rest]; [by apply Hother|].
    destruct first, rest; try (by apply Hother).
    + injection H as <-. cbn. apply Forall_app. split; [done|]. by repeat constructor.
    + apply bind_Ok in H as (fs & Hfs & H).
      destruct (search_transformers_import fs) eqn:Hs; injection H as <-; [done|].
      cbn. apply Forall_app. split; [done|]. repeat constructor. by exists fs.
  - destruct o as [| |ll class_name obases body| |]; try (by injection H as <-).
    destruct u as [| |ull uname ubases ubody| |]; try (by injection H as <-).
    apply leave_ClassDef_spec in H as (_ & Ha & _); [|done]. by rewrite Ha.
  - injection H as <-. unfold leave_If.
    destruct o; try done. destruct n; try done. destruct pm; [|done].
    destruct (search_availability _) eqn:Hs.
    + cbn. apply Forall_app. split; [done|]. by repeat constructor.
    + by destruct (dict_mem _ _).
Qed.

(** X22.  The imports collected from the diff file are [import] lines,
    [from ... import] lines and [if] blocks only, and never an import
    from a model file: those lines are dropped. *)
Theorem collected_imports new_name evs t :
  run parse_source find_classes_in_file evs (init new_name) = Ok t →
  Forall collectable (all_imports t).
Proof.
  assert (∀ evs t0 t, run parse_source find_classes_in_file evs t0 = Ok t →
            indexed t0 → Forall collectable (all_imports t0) →
            Forall collectable (all_imports t)) as Hrun.
  { clear. induction evs as [|ev evs IH]; intros t0 t H Hb Hi.
    - by injection H as <-.
    - cbn [run] in H. apply bind_Ok in H as (t1 & Hs & H).
      pose proof (step_collectable _ _ _ Hs Hb Hi) as Hi1.
      apply step_invariant in Hs as (Hb1 & _ & _); [|done].
      by apply (IH t1). }
  intros H. apply (Hrun _ _ _ H); [apply init_indexed | constructor].
Qed.

End Collected.

Section CollectedExamples.
Existing Instance canonical_printer.

(** The diff file of the examples preceded by

      import torch
      from transformers.models.llama.modeling_llama import LlamaModel *)
Definition import_torch : stmt :=
  SimpleStatementLine "" [Import [ImportAlias "torch" None ""]].

Lemma collected_imports_witness :
  Forall collectable
    (all_imports (with_all_imports [import_torch] gemma_before_class)).
Proof.
  apply (collected_imports (source_of (make_module "" [])) no_finder "gemma"
           (LeaveSimpleStatementLine true import_torch :: before_gemma_model)).
  vm_compute. reflexivity.
Defined.

End CollectedExamples.

(** *** Definitions of the diff file are kept *)

(** Every entry of the output map of [t] is an entry of that of [t']. *)
Definition keeps_entries (t t' : transformer) : Prop :=
  ∀ k e, dict_get k (new_body t) = Some e → dict_get k (new_body t') = Some e.

Lemma keeps_entries_trans t1 t2 t3 :
  keeps_entries t1 t2 → keeps_entries t2 t3 → keeps_entries t1 t3.
Proof. intros H1 H2 k e H. by apply H2, H1. Qed.

Lemma insert_dependency_keeps cf t s d :
  keeps_entries t (insert_dependency cf (t, s) d).1.
Proof.
  unfold insert_dependency, keeps_entries. intros k e Hk.
  destruct (global_nodes cf !! d) as [n|]; [|done].
  destruct (dict_get (KStr d) (new_body t)) as [e'|] eqn:Hd.
  - by case_bool_decide.
  - cbn. rewrite dict_get_set. case_decide; [congruence | done].
Qed.

Lemma insert_dependencies_keeps cf (ds : list string) t s :
  keeps_entries t (foldl (insert_dependency cf) (t, s) ds).1.
Proof.
  revert t s. induction ds as [|d ds IH]; intros t s; [by intros k e|]. cbn [foldl].
  pose proof (insert_dependency_keeps cf t s d) as H.
  destruct (insert_dependency cf (t, s) d) as [t1 s1].
  eapply keeps_entries_trans; [exact H | apply IH].
Qed.

Section Kept.
Context {printer : Printer}.
Variable find_classes_in_file : py_module → string → string → result class_finder.

Lemma process_base_keeps class_name t u super_class t' u' :
  process_base find_classes_in_file class_name (t, u) super_class = Ok (t', u') →
  keeps_entries t t'.
Proof.
  unfold process_base. intros H.
  destruct (imported_mapping t !! super_class) as [super_file_name|]; [|done].
  apply bind_Ok in H as (old_name & _ & H).
  apply bind_Ok in H as ([t1 cf] & H1 & H).
  assert (new_body t1 = new_body t) as Ht1.
  { destruct (dict_get super_file_name (visited_module t)).
    - by injection H1 as <- <-.
    - apply bind_Ok in H1 as (tree & _ & H1).
      apply bind_Ok in H1 as (cf' & _ & H1). by injection H1 as <- <-. }
  pose proof (insert_dependencies_keeps cf (list_dependencies cf class_name).*1
                t1 (global_scope_index t1)) as Ht2.
  destruct (foldl (insert_dependency cf) (t1, global_scope_index t1)
              (list_dependencies cf class_name).*1) as [t2 s2].
  assert (t' = t2) as ->.
  { destruct (list_dependencies cf class_name).
    - by injection H as <- <-.
    - apply bind_Ok in H as (u2 & _ & H). by injection H as <- <-. }
  intros k e Hk. apply Ht2. by rewrite Ht1.
Qed.

Lemma process_bases_keeps class_name (bases : list string) t u t' u' :
  foldl (fun acc super_class =>
           acc ← acc; process_base find_classes_in_file class_name acc super_class)
        (Ok (t, u)) bases = Ok (t', u') →
  keeps_entries t t'.
Proof.
  revert t u. induction bases as [|b bases IH]; intros t u H.
  - injection H as <- <-. by intros k e.
  - cbn [foldl] in H.
    change (Ok (t, u) ≫= (fun acc =>
              process_base find_classes_in_file class_name acc b))
      with (process_base find_classes_in_file class_name (t, u) b) in H.
    destruct (process_base find_classes_in_file class_name (t, u) b)
      as [[t1 u1]|e] eqn:Hp.
    + eapply keeps_entries_trans; [by eapply process_base_keeps | by eapply IH].
    + by rewrite process_bases_raise in H.
Qed.

(** X28.  Leaving a class never replaces what the output map already
    holds under another key: a definition that the diff file gives
    before the class stays as the diff file has it, with its index, also
    when the parent module has a definition of the same name among the
    dependencies of the class. *)
Theorem earlier_definitions_kept ll class_name obases body updated_node t t' k e :
  leave_ClassDef find_classes_in_file (ClassDef ll class_name obases body) updated_node t
  = Ok t' →
  k ≠ KStr class_name →
  dict_get k (new_body t) = Some e →
  dict_get k (new_body t') = Some e.
Proof.
  unfold leave_ClassDef. intros H Hk Hget.
  destruct updated_node as [| |ull uname ubases ubody| |]; try (by injection H as <-).
  apply bind_Ok in H as (bases & _ & H).
  apply bind_Ok in H as ([t1 u1] & Hfold & H).
  apply process_bases_keeps in Hfold. specialize (Hfold k e Hget).
  destruct (contains "Config" class_name); injection H as <-; [done|].
  cbn. rewrite dict_get_set. by rewrite decide_False.
Qed.

End Kept.

Section KeptExamples.
Existing Instance canonical_printer.

(** The diff file of the examples with a normalisation layer of its own
    in front of the model class:

      class GemmaRMSNorm(nn.Module):
          eps = 1e-6
      class GemmaModel(LlamaModel):
          ... *)
Definition own_norm_state : transformer :=
  Transformer "gemma"
    {[ "transformers.models.llama.modeling_llama" := make_module "" [] ]}
    {[ "LlamaModel" := "transformers.models.llama.modeling_llama" ]}
    [] [(KStr "GemmaRMSNorm", Entry 100 diff_rms_norm)] [] [] 100 None 0.

Definition own_norm_result : transformer :=
  Transformer "gemma"
    {[ "transformers.models.llama.modeling_llama" := make_module "" [] ]}
    {[ "LlamaModel" := "transformers.models.llama.modeling_llama" ]}
    [("transformers.models.llama.modeling_llama", gemma_finder)]
    [(KStr "GemmaRMSNorm", Entry 100 diff_rms_norm);
     (KStr "GemmaModel", Entry 200 gemma_model)]
    ["GemmaRMSNorm"] [] 200 None 0.

Lemma earlier_definitions_kept_witness :
  dict_get (KStr "GemmaRMSNorm") (new_body own_norm_result) = Some (Entry 100 diff_rms_norm).
Proof.
  apply (earlier_definitions_kept (finder_of gemma_finder)
           "" "GemmaModel" [(Name "LlamaModel", "")] [diff_forward] diff_gemma_model
           own_norm_state own_norm_result (KStr "GemmaRMSNorm") (Entry 100 diff_rms_norm)).
  - vm_compute. reflexivity.
  - discriminate.
  - reflexivity.
Defined.

End KeptExamples.

End ConverterFacts.
